(** * The node security core of swarmkit's [ca] package

    A shallow embedding of [ca/config.go] (join tokens, the bootstrap
    coordinator, the renewal loop, the credential loader, the role codec)
    and of the library functions it calls, followed by the properties
    established about it.

    Conventions.  A Go [string] is a [string] (a sequence of 8-bit
    [ascii]); [big.Int] is [Z]; [time.Duration] is an [int64] number of
    nanoseconds, written as a [Z] with its wrap-around explicit.  A
    [(T, error)] result is a pair whose second component is [option error]
    ([None] is Go's [nil]) where the caller may go on with the value, and
    a [result] (a value or an error) where it reads the value only when
    the error is [nil].  A panic is [None] in an [option] result, or the
    status [Panicked] of the renewal loop.  What the file calls and does
    not define (other files of the package, the libraries, the disk, the
    network, the clock, the random sources) is a parameter of the
    function that uses it. *)

From Stdlib Require Import ZArith List String Ascii Bool Lia Floats.
From Stdlib.Strings Require Import Byte.
Import ListNotations.
Open Scope string_scope.
Open Scope Z_scope.

(** ** Part I: the model *)

(** *** [strings] and [fmt] *)

Module GoStrings.

Definition byteOf (c : ascii) : Z := Z.of_N (N_of_ascii c).

Fixpoint repeatByte (c : ascii) (n : nat) : string :=
  match n with
  | O => EmptyString
  | S k => String c (repeatByte c k)
  end.

(** [strings.Split(s, sep)] for a one-byte separator: every piece between
    two occurrences of [sep]; the empty string gives one empty piece. *)
Fixpoint Split (s : string) (sep : ascii) : list string :=
  match s with
  | EmptyString => [EmptyString]
  | String c rest =>
      if Ascii.eqb c sep then EmptyString :: Split rest sep
      else match Split rest sep with
           | piece :: pieces => String c piece :: pieces
           | [] => [String c EmptyString]
           end
  end.

(** [strings.Index(s, ":")]: position of the first occurrence, if any. *)
Fixpoint IndexByte (s : string) (sep : ascii) : option nat :=
  match s with
  | EmptyString => None
  | String c rest =>
      if Ascii.eqb c sep then Some O
      else option_map S (IndexByte rest sep)
  end.

Fixpoint allBytes (p : ascii -> bool) (s : string) : bool :=
  match s with
  | EmptyString => true
  | String c rest => p c && allBytes p rest
  end.

(** [fmt.Sprintf("%0[1]*s", width, s)]: [s] padded on the left with the
    byte ['0'] up to [width] (the strings formatted here are ASCII, so the
    rune count [fmt] measures is the byte length). *)
Definition SprintfPad0 (width : Z) (s : string) : string :=
  (repeatByte "0" (Z.to_nat (width - Z.of_nat (String.length s))) ++ s)%string.

End GoStrings.

(** *** [math/big]: the three [big.Int] methods the token codec uses *)

Module Big.
Import GoStrings.

(** The digit value [nat.scan] gives a byte; [MaxBase + 1] when the byte
    is no digit at all. *)
Definition MaxBase : Z := 36.

Definition digitVal (ch : ascii) : Z :=
  let b := byteOf ch in
  if (48 <=? b) && (b <=? 57) then b - 48
  else if (97 <=? b) && (b <=? 122) then b - 97 + 10
  else if (65 <=? b) && (b <=? 90) then b - 65 + 10
  else MaxBase + 1.

(** The scanning loop of [nat.scan]: digits are consumed while their value
    is below the base; the result is the value so far, the number of
    digits read and the unread rest of the input. *)
Fixpoint scanDigits (base : Z) (s : string) (acc : Z) (count : nat)
  : Z * nat * string :=
  match s with
  | EmptyString => (acc, count, EmptyString)
  | String ch rest =>
      let d1 := digitVal ch in
      if base <=? d1 then (acc, count, s)
      else scanDigits base rest (acc * base + d1) (S count)
  end.

(** [scanSign]: an optional leading ['+'] or ['-']; reading from an empty
    input is an error ([None]). *)
Definition scanSign (s : string) : option (bool * string) :=
  match s with
  | EmptyString => None
  | String ch rest =>
      if Ascii.eqb ch "-" then Some (true, rest)
      else if Ascii.eqb ch "+" then Some (false, rest)
      else Some (false, s)
  end.

(** [z.SetString(s, base)] on a freshly declared [big.Int] (both call
    sites declare the receiver just before the call).  The first component
    is the value the receiver holds after the call, the second is the
    [ok] result.  When the scan finds no digit the receiver is zero; when
    digits are followed by other bytes the receiver keeps the value of the
    digits read and [ok] is [false]. *)
Definition SetString (s : string) (base : Z) : Z * bool :=
  match scanSign s with
  | None => (0, false)
  | Some (neg, rest) =>
      match scanDigits base rest 0 O with
      | (_, O, _) => (0, false)
      | (v, S _, tail) =>
          (if neg then - v else v,
           match tail with EmptyString => true | _ => false end)
      end
  end.

(** [z.SetBytes(buf)]: [buf] read as a big-endian unsigned integer. *)
Definition SetBytes (buf : list byte) : Z :=
  fold_left (fun acc b => acc * 256 + Z.of_N (Byte.to_N b)) buf 0.

Definition digitChar (d : Z) : ascii :=
  if d <? 10 then ascii_of_N (Z.to_N (48 + d))
  else ascii_of_N (Z.to_N (97 + (d - 10))).

(** The digits of a positive [n], most significant first, in front of
    [acc].  [fuel] bounds the number of digits. *)
Fixpoint utoa (fuel : nat) (base n : Z) (acc : string) : string :=
  match fuel with
  | O => acc
  | S f =>
      let acc' := String (digitChar (n mod base)) acc in
      if n / base =? 0 then acc' else utoa f base (n / base) acc'
  end.

Definition digitsFuel (n : Z) : nat := S (Z.to_nat (Z.log2 n)).

(** [x.Text(base)]: lower-case digits, no leading zero, ["0"] for zero and
    a leading ['-'] for a negative number. *)
Definition Text (x : Z) (base : Z) : string :=
  if x =? 0 then "0"%string
  else if x <? 0
       then String "-" (utoa (digitsFuel (- x)) base (- x) EmptyString)
       else utoa (digitsFuel x) base x EmptyString.

End Big.

(** *** [docker/distribution/digest] *)

Module Digest.
Import GoStrings.

Definition error := string.

Definition ErrDigestInvalidFormat : error := "invalid checksum digest format".
Definition ErrDigestInvalidLength : error := "invalid checksum digest length".
Definition ErrDigestUnsupported : error := "unsupported digest algorithm".

Definition isHex (ch : ascii) : bool :=
  let b := byteOf ch in
  ((48 <=? b) && (b <=? 57)) || ((97 <=? b) && (b <=? 102))
  || ((65 <=? b) && (b <=? 70)).

(** The bytes of [[a-zA-Z0-9-_+.]]. *)
Definition isAlgorithmByte (ch : ascii) : bool :=
  let b := byteOf ch in
  ((48 <=? b) && (b <=? 57)) || ((97 <=? b) && (b <=? 122))
  || ((65 <=? b) && (b <=? 90))
  || (b =? 45) || (b =? 95) || (b =? 43) || (b =? 46).

(** [DigestRegexpAnchored], [^[a-zA-Z0-9-_+.]+:[a-fA-F0-9]+$].  Neither
    class contains [':'], so a match splits the string at its only colon. *)
Definition DigestRegexpAnchored (s : string) : bool :=
  match IndexByte s ":" with
  | None => false
  | Some i =>
      let alg := substring 0 i s in
      let hex := substring (S i) (String.length s - S i) s in
      negb (String.length alg =? 0)%nat && allBytes isAlgorithmByte alg
      && negb (String.length hex =? 0)%nat && allBytes isHex hex
  end.

(** [Algorithm.Size()] for the three registered algorithms. *)
Definition algorithmSize (alg : string) : option nat :=
  if String.eqb alg "sha256" then Some 32%nat
  else if String.eqb alg "sha384" then Some 48%nat
  else if String.eqb alg "sha512" then Some 64%nat
  else None.

(** [d.Validate()]. *)
Definition Validate (d : string) : option error :=
  if negb (DigestRegexpAnchored d) then Some ErrDigestInvalidFormat
  else match IndexByte d ":" with
       | None => Some ErrDigestInvalidFormat
       | Some i =>
           if (S i =? String.length d)%nat then Some ErrDigestInvalidFormat
           else match algorithmSize (substring 0 i d) with
                | Some size =>
                    if (size * 2 =? String.length d - S i)%nat then None
                    else Some ErrDigestInvalidLength
                | None => Some ErrDigestUnsupported
                end
       end.

(** [digest.ParseDigest(s)]: the string as a digest, with its validation. *)
Definition ParseDigest (s : string) : string * option error :=
  (s, Validate s).

(** [d.Hex()]: what follows the first [':']; [sepIndex] panics on a digest
    with no colon. *)
Definition Hex (d : string) : option string :=
  match IndexByte d ":" with
  | None => None
  | Some i => Some (substring (S i) (String.length d - S i) d)
  end.

End Digest.

(** *** [time]: instants, durations, and the float view of a duration *)

Module GoTime.

(** [time.Duration]: an [int64] count of nanoseconds. *)
Definition Duration := Z.

(** [time.Time]: an instant, in nanoseconds from a fixed origin.  The
    library keeps seconds and nanoseconds apart and does not run out of
    range for the dates of a certificate; only [Sub], whose result is a
    [Duration], saturates. *)
Definition Time := Z.

Definition Nanosecond : Duration := 1.
Definition Second : Duration := 1000000000.
Definition Minute : Duration := 60 * Second.
Definition Hour : Duration := 60 * Minute.

Definition minDuration : Duration := - 2 ^ 63.
Definition maxDuration : Duration := 2 ^ 63 - 1.

(** Go's [int64] (and, on 64-bit platforms, [int]) arithmetic keeps the
    low 64 bits of the exact result. *)
Definition wrap64 (x : Z) : Z := (x + 2 ^ 63) mod 2 ^ 64 - 2 ^ 63.

Definition Add (t : Time) (d : Duration) : Time := t + d.

(** [t.Sub(u)]: the difference, or the largest (smallest) duration when
    the difference does not fit. *)
Definition Sub (t u : Time) : Duration :=
  if maxDuration <? t - u then maxDuration
  else if t - u <? minDuration then minDuration
  else t - u.

Definition Before (t u : Time) : bool := t <? u.

(** [float64(n)] for an integer [n]: the nearest binary64 number. *)
Definition float64OfInt (n : Z) : float :=
  SF2Prim (binary_normalize prec emax n 0 false).

(** [int(f)]: [f] without its fraction.  What does not fit in an [int64]
    (and infinities and NaN) converts to the smallest [int64], as the
    amd64 conversion instruction does. *)
Definition intOfFloat64 (f : float) : Z :=
  match Prim2SF f with
  | S754_zero _ => 0
  | S754_finite sign m e =>
      let magnitude :=
        if 0 <=? e then Z.shiftl (Zpos m) e else Z.shiftr (Zpos m) (- e) in
      let v := if sign then - magnitude else magnitude in
      if (minDuration <=? v) && (v <=? maxDuration) then v else minDuration
  | _ => minDuration
  end.

(** [d.Minutes()]. *)
Definition Minutes (d : Duration) : float :=
  let min := Z.quot d Minute in
  let nsec := Z.rem d Minute in
  (float64OfInt min + float64OfInt nsec / float64OfInt (60 * 1000000000))%float.

End GoTime.

(** *** The [ca] package: data *)

Module CA.
Import GoStrings GoTime.

(** Go's [error], by its message. *)
Definition error := string.

(** [x509.CertPool]: the certificates it holds. *)
Record CertPool := { poolCerts : list (list byte) }.

(** [cfconfig.CSRWhitelist], [cfconfig.SigningProfile], [cfconfig.Signing]:
    the fields [SigningPolicy] sets. *)
Record CSRWhitelist := {
  PublicKey : bool;
  PublicKeyAlgorithm : bool;
  SignatureAlgorithm : bool
}.

Record SigningProfile := {
  Usage : list string;
  Expiry : Duration;
  Backdate : Duration;
  CSRWhitelist_ : CSRWhitelist
}.

Record Signing := { Default : SigningProfile }.

(** [RootCA] (declared in [ca/certificates.go]); a [nil] pool or signer
    is [None]. *)
Record RootCA := {
  Key : list byte;
  Cert : list byte;
  Pool : option CertPool;
  Digest : string;
  Signer : option Signing
}.

(** [rca.CanSign()]. *)
Definition CanSign (rca : RootCA) : bool :=
  match Signer rca with Some _ => true | None => false end.

(** [tls.Certificate] and [tls.Config], with the fields this file sets. *)
Record tlsCertificate := {
  certificatePEM : list byte;
  privateKeyPEM : list byte
}.

Inductive ClientAuthType := NoClientCert | VerifyClientCertIfGiven.

Definition VersionTLS12 : Z := 771.

Record tlsConfig := {
  ServerName : string;
  Certificates : list tlsCertificate;
  RootCAs : option CertPool;
  ClientCAs : option CertPool;
  ClientAuth : ClientAuthType;
  PreferServerCipherSuites : bool;
  MinVersion : Z
}.

(** [MutableTLSCreds] (declared in [ca/transport.go]): the configuration
    currently installed and the subject read from its certificate. *)
Record MutableTLSCreds := {
  installed : tlsConfig;
  subjectNodeID : string;
  subjectRole : string
}.

(** [ExternalCA] (declared in [ca/external.go]): the TLS configuration of
    its client. *)
Record ExternalCA := { externalTLS : tlsConfig }.

Record SecurityConfig := {
  rootCA : RootCA;
  externalCA : ExternalCA;
  ServerTLSCreds : MutableTLSCreds;
  ClientTLSCreds : MutableTLSCreds
}.

Record CertificateUpdate := {
  Role : string;
  Err : option error
}.

Record CertPaths := { CertPath : string; KeyPath : string }.

Record SecurityConfigPaths := { Node : CertPaths; RootCAPaths : CertPaths }.

Definition rootCACertFilename := "swarm-root-ca.crt".
Definition rootCAKeyFilename := "swarm-root-ca.key".
Definition nodeTLSCertFilename := "swarm-node.crt".
Definition nodeTLSKeyFilename := "swarm-node.key".

Definition ManagerRole := "swarm-manager".
Definition WorkerRole := "swarm-worker".
Definition CARole := "swarm-ca".

(** *** [RootCA], [UpdateRootCA] *)

Section RootSlot.

Variable RoleAuthorizations : Type.

(** [NewRootCA] is declared in [ca/certificates.go]; it is a parameter
    here.  With an error it returns the zero [RootCA]. *)
Variable NewRootCA :
  list byte -> list byte -> Duration -> list (string * RoleAuthorizations) ->
  RootCA * option error.

(** [s.RootCA()].  The mutex serialises the callers; one call runs from
    [Lock] to [Unlock] on the state it finds. *)
Definition RootCA_ (s : SecurityConfig) : RootCA := rootCA s.

(** [s.UpdateRootCA(cert, key, certExpiry, roleAuthorizations)]: the
    configuration after the call, and the error returned. *)
Definition UpdateRootCA (s : SecurityConfig) (cert key : list byte)
    (certExpiry : Duration)
    (roleAuthorizations : list (string * RoleAuthorizations))
  : SecurityConfig * option error :=
  let (newRoot, err) := NewRootCA cert key certExpiry roleAuthorizations in
  let s' :=
    match err with
    | None =>
        {| rootCA := newRoot;
           externalCA := externalCA s;
           ServerTLSCreds := ServerTLSCreds s;
           ClientTLSCreds := ClientTLSCreds s |}
    | Some _ => s
    end in
  (s', err).

End RootSlot.

(** *** [SigningPolicy] *)

Section Policy.

(** The three durations are constants of [ca/certificates.go]; they are
    parameters here. *)
Variables MinNodeCertExpiration DefaultNodeCertExpiration CertBackdate : Duration.

Definition SigningPolicy (certExpiry : Duration) : Signing :=
  let certExpiry :=
    if certExpiry <? MinNodeCertExpiration then DefaultNodeCertExpiration
    else certExpiry in
  let certExpiry := wrap64 (certExpiry + CertBackdate) in
  {| Default :=
       {| Usage := ["signing"; "key encipherment"; "server auth"; "client auth"];
          Expiry := certExpiry;
          Backdate := CertBackdate;
          CSRWhitelist_ :=
            {| PublicKey := true;
               PublicKeyAlgorithm := true;
               SignatureAlgorithm := true |} |} |}.

End Policy.

(** Modelled from the spec: the signer that stamps a locally issued
    certificate is not in the sources.  The spec gives the window of the
    certificate from the policy's two durations: "NotBefore = now -
    backdate; NotAfter = now + expiry - backdate". *)
Record Validity := { NotBefore : Time; NotAfter : Time }.

Definition issuedValidity (now : Time) (profile : SigningProfile) : Validity :=
  {| NotBefore := now - Backdate profile;
     NotAfter := now + Expiry profile - Backdate profile |}.

(** *** [calculateRandomExpiry] *)

(** Modelled from the spec: the two rotation fractions are constants of
    [ca/certificates.go]; the spec gives them as 0.5 and 0.8.  As [float64]
    values they are the nearest binary64 numbers. *)
Definition CertLowerRotationRange : float := 0x1p-1%float.
Definition CertUpperRotationRange : float := 0x1.999999999999ap-1%float.

(** The two bounds of the renewal, in whole minutes. *)
Definition minValidity (duration : Duration) : Z :=
  intOfFloat64 (Minutes duration * CertLowerRotationRange)%float.

Definition maxValidity (duration : Duration) : Z :=
  intOfFloat64 (Minutes duration * CertUpperRotationRange)%float.

(** [calculateRandomExpiry(validFrom, validUntil)], as a function of what
    [time.Now()] reads and of the source of [rand.Intn]. *)
Definition calculateRandomExpiry (now : Time) (Intn : Z -> Z)
    (validFrom validUntil : Time) : Duration :=
  let duration := Sub validUntil validFrom in
  let minValidity := minValidity duration in
  let maxValidity := maxValidity duration in
  let randomExpiry :=
    if wrap64 (maxValidity - minValidity) <? 1 then minValidity
    else wrap64 (Intn (wrap64 (maxValidity - minValidity)) + minValidity) in
  let expiry := Sub (Add validFrom (wrap64 (randomExpiry * Minute))) now in
  if expiry <? 0 then 0 else expiry.

(** The most whole minutes a [Duration] holds. *)
Definition maxMinutes : Z := 153722867.

(** *** Results of the collaborators *)

(** What a call returning [(T, error)] delivers when the caller reads the
    value only if the error is [nil]. *)
Inductive result (A : Type) : Type :=
| Ok (a : A)
| Fail (e : error).

Arguments Ok {A} a.
Arguments Fail {A} e.

(** *** [NewServerTLSConfig], [NewClientTLSConfig] and the credentials
    built from them *)

Definition NewServerTLSConfig (cert : tlsCertificate) (rootCAPool : option CertPool)
  : option tlsConfig * option error :=
  match rootCAPool with
  | None => (None, Some "valid root CA pool required")
  | Some _ =>
      (Some {| ServerName := "";
               Certificates := [cert];
               RootCAs := rootCAPool;
               ClientCAs := rootCAPool;
               ClientAuth := VerifyClientCertIfGiven;
               PreferServerCipherSuites := true;
               MinVersion := VersionTLS12 |},
       None)
  end.

Definition NewClientTLSConfig (cert : tlsCertificate) (rootCAPool : option CertPool)
    (serverName : string) : option tlsConfig * option error :=
  match rootCAPool with
  | None => (None, Some "valid root CA pool required")
  | Some _ =>
      (Some {| ServerName := serverName;
               Certificates := [cert];
               RootCAs := rootCAPool;
               ClientCAs := None;
               ClientAuth := NoClientCert;
               PreferServerCipherSuites := false;
               MinVersion := VersionTLS12 |},
       None)
  end.

Section Credentials.

(** [NewMutableTLS] is declared in [ca/transport.go]; it is a parameter.
    Its argument is a pointer, [None] when [nil]. *)
Variable NewMutableTLS : option tlsConfig -> result MutableTLSCreds.

Definition NewClientTLSCredentials (rca : RootCA) (cert : tlsCertificate)
    (serverName : string) : result MutableTLSCreds :=
  let (tlsConfig, err) := NewClientTLSConfig cert (Pool rca) serverName in
  match err with
  | Some e => Fail e
  | None => NewMutableTLS tlsConfig
  end.

Definition NewServerTLSCredentials (rca : RootCA) (cert : tlsCertificate)
  : result MutableTLSCreds :=
  let (tlsConfig, err) := NewServerTLSConfig cert (Pool rca) in
  match err with
  | Some e => Fail e
  | None => NewMutableTLS tlsConfig
  end.

End Credentials.

(** *** Paths *)

Section Paths.

(** [filepath.Join] of two elements, [filepath.Dir] and [filepath.Base]
    are parameters. *)
Variable Join : string -> string -> string.
Variables Dir Base : string -> string.

Definition NewConfigPaths (baseCertDir : string) : SecurityConfigPaths :=
  {| Node :=
       {| CertPath := Join baseCertDir nodeTLSCertFilename;
          KeyPath := Join baseCertDir nodeTLSKeyFilename |};
     RootCAPaths :=
       {| CertPath := Join baseCertDir rootCACertFilename;
          KeyPath := Join baseCertDir rootCAKeyFilename |} |}.

Definition genTempPaths (path : CertPaths) : CertPaths :=
  {| KeyPath := Join (Dir (KeyPath path)) ("." ++ Base (KeyPath path));
     CertPath := Join (Dir (CertPath path)) ("." ++ Base (CertPath path)) |}.

End Paths.

(** *** [LoadTLSCreds] *)

Section Loader.

Variable Join : string -> string -> string.
Variables Dir Base : string -> string.

(** The file system and the libraries, as parameters: [ioutil.ReadFile],
    the block [pem.Decode] finds, [x509.ParseCertificate], the error of
    [Certificate.Verify] with the given roots, and [tls.X509KeyPair]. *)
Variable X509Certificate : Type.
Variable ReadFile : string -> result (list byte).
Variable pemDecode : list byte -> option (list byte).
Variable ParseCertificate : list byte -> result X509Certificate.
Variable Verify : X509Certificate -> option CertPool -> option error.
Variable X509KeyPair : list byte -> list byte -> result tlsCertificate.
Variable NewMutableTLS : option tlsConfig -> result MutableTLSCreds.

(** The result is [(clientTLSCreds, serverTLSCreds)] or the error. *)
Definition LoadTLSCreds (rootCA : RootCA) (paths : CertPaths)
  : result (MutableTLSCreds * MutableTLSCreds) :=
  match ReadFile (CertPath paths) with
  | Fail err => Fail err
  | Ok cert =>
  match ReadFile (KeyPath paths) with
  | Fail err => Fail err
  | Ok key =>
  match pemDecode cert with
  | None => Fail "failed to parse certificate PEM"
  | Some certBlockBytes =>
  match ParseCertificate certBlockBytes with
  | Fail err => Fail err
  | Ok X509Cert =>
  match Verify X509Cert (Pool rootCA) with
  | Some err => Fail err
  | None =>
  let keyPairOrErr :=
    match X509KeyPair cert key with
    | Ok keyPair => Ok keyPair
    | Fail err =>
        let tempPaths := genTempPaths Join Dir Base paths in
        match ReadFile (KeyPath tempPaths) with
        | Fail newErr => Fail err
        | Ok key =>
            match X509KeyPair cert key with
            | Fail newErr => Fail err
            | Ok keyPair => Ok keyPair
            end
        end
    end in
  match keyPairOrErr with
  | Fail err => Fail err
  | Ok keyPair =>
  match NewServerTLSCredentials NewMutableTLS rootCA keyPair with
  | Fail err => Fail err
  | Ok serverTLSCreds =>
  match NewClientTLSCredentials NewMutableTLS rootCA keyPair ManagerRole with
  | Fail err => Fail err
  | Ok clientTLSCreds => Ok (clientTLSCreds, serverTLSCreds)
  end end end end end end end end.

End Loader.

(** *** [NewSecurityConfig] *)

(** [NewExternalCA] is declared in [ca/external.go]; of the connector
    only the TLS configuration it is given is kept here. *)
Definition NewExternalCA (rootCA : RootCA) (tlsConfig : tlsConfig) : ExternalCA :=
  {| externalTLS := tlsConfig |}.

(** The configuration of the external CA client: the certificates and
    roots of the client configuration, no [ServerName]. *)
Definition withoutServerName (clientTLSConfig : tlsConfig) : tlsConfig :=
  {| ServerName := "";
     Certificates := Certificates clientTLSConfig;
     RootCAs := RootCAs clientTLSConfig;
     ClientCAs := None;
     ClientAuth := NoClientCert;
     PreferServerCipherSuites := false;
     MinVersion := VersionTLS12 |}.

Definition NewSecurityConfig (rootCA : RootCA)
    (clientTLSCreds serverTLSCreds : MutableTLSCreds) : SecurityConfig :=
  let clientTLSConfig := installed clientTLSCreds in
  let externalCATLSConfig := withoutServerName clientTLSConfig in
  {| rootCA := rootCA;
     externalCA := NewExternalCA rootCA externalCATLSConfig;
     ClientTLSCreds := clientTLSCreds;
     ServerTLSCreds := serverTLSCreds |}.

End CA.

(** *** Join tokens ([GenerateJoinToken], [getCAHashFromToken]) *)

Module Token.
Import GoStrings.

Definition generatedSecretEntropyBytes : Z := 16.
Definition joinTokenBase : Z := 36.
Definition maxGeneratedSecretLength : Z := 25.
Definition base36DigestLen : Z := 50.

(** [GenerateJoinToken(rootCA)], as a function also of the 16 bytes
    [cryptorand.Read] delivered.  [None] is the panic of [Digest.Hex] on a
    digest without a colon. *)
Definition GenerateJoinToken (secretBytes : list byte) (rootCA : CA.RootCA)
  : option string :=
  match Digest.Hex (CA.Digest rootCA) with
  | None => None
  | Some hex =>
      let nn := Big.SetBytes secretBytes in
      let digest := fst (Big.SetString hex 16) in
      Some ("SWMTKN-1-"
            ++ SprintfPad0 base36DigestLen (Big.Text digest joinTokenBase)
            ++ "-"
            ++ SprintfPad0 maxGeneratedSecretLength (Big.Text nn joinTokenBase))%string
  end.

Definition errInvalidJoinToken : Digest.error := "invalid join token".

(** [getCAHashFromToken(token)].  The [ok] result of [SetString] is
    dropped, as in the source. *)
Definition getCAHashFromToken (token : string) : string * option Digest.error :=
  match Split token "-" with
  | [s0; s1; s2; _] =>
      if negb (String.eqb s0 "SWMTKN") || negb (String.eqb s1 "1")
      then (EmptyString, Some errInvalidJoinToken)
      else
        let digestInt := fst (Big.SetString s2 joinTokenBase) in
        Digest.ParseDigest ("sha256:" ++ SprintfPad0 64 (Big.Text digestInt 16))%string
  | _ => (EmptyString, Some errInvalidJoinToken)
  end.

End Token.

(** Vocabulary of the statements about tokens. *)

Module TokenSpec.
Import GoStrings.

(** A lower-case digit of the given base: [0-9a-z] with value below it. *)
Definition isLowerAlnum (ch : ascii) : bool :=
  let b := byteOf ch in
  ((48 <=? b) && (b <=? 57)) || ((97 <=? b) && (b <=? 122)).

Definition isDigitOf (base : Z) (ch : ascii) : bool :=
  isLowerAlnum ch && (Big.digitVal ch <? base).

(** The number a string of digits denotes, continuing from [acc]. *)
Fixpoint valueFrom (base : Z) (s : string) (acc : Z) : Z :=
  match s with
  | EmptyString => acc
  | String ch rest => valueFrom base rest (acc * base + Big.digitVal ch)
  end.

(** The digests [digest.FromBytes] produces, which is how [NewRootCA]
    fills [RootCA.Digest]: ["sha256:"] and 64 lower-case hex digits. *)
Definition isSHA256Hex (hex : string) : bool :=
  (String.length hex =? 64)%nat && allBytes (isDigitOf 16) hex.

Definition canonicalDigest (d : string) : Prop :=
  exists hex, d = ("sha256:" ++ hex)%string /\ isSHA256Hex hex = true.

Definition noDash (s : string) : bool :=
  allBytes (fun ch => negb (Ascii.eqb ch "-")) s.

End TokenSpec.

(** Sample inputs: a digest whose hex form starts with zeros, and
    sixteen secret bytes. *)

Module Samples.

Definition digest : string :=
  "sha256:00a1b2c3d4e5f60718293a4b5c6d7e8f00a1b2c3d4e5f60718293a4b5c6d7e8f".

Definition secret : list byte :=
  [x00; x01; x02; x03; x04; x05; x06; x07; x08; x09; x0a; x0b; x0c; x0d; x0e; xff].

End Samples.

(** *** [LoadOrCreateSecurityConfig] *)

Module Bootstrap.
Import GoStrings GoTime CA.

(** What a run does to its collaborators, in order. *)
Inductive Event :=
| CallGetRemoteCA (d : string)
| CallSaveRootCA (rootCA : RootCA) (paths : CertPaths)
| SendNodeInfo (nodeID : string)
| CallIssueAndSave (cn role org : string)
| CallRequestAndSave (token : string).

(** A computation: the events so far, and a value or the error on which
    the function returns. *)
Definition M (A : Type) : Type := list Event * result A.

Definition ret {A} (a : A) : M A := ([], Ok a).

Definition bind {A B} (m : M A) (k : A -> M B) : M B :=
  match m with
  | (events, Ok a) => let (events', r) := k a in ((events ++ events')%list, r)
  | (events, Fail e) => (events, Fail e)
  end.

Definition emit (e : Event) : M unit := ([e], Ok tt).

Definition lift {A} (r : result A) : M A := ([], r).

Definition check (err : option error) : M unit :=
  match err with
  | Some e => ([], Fail e)
  | None => ([], Ok tt)
  end.

Notation "x <- m ;; k" := (bind m (fun x => k))
  (at level 61, m at next level, right associativity).
Notation "m ;;; k" := (bind m (fun _ => k))
  (at level 61, right associativity).

Section Coordinator.

Variable Join : string -> string -> string.
Variables Dir Base : string -> string.
Variable X509Certificate : Type.
Variable ReadFile : string -> result (list byte).
Variable pemDecode : list byte -> option (list byte).
Variable ParseCertificate : list byte -> result X509Certificate.
Variable Verify : X509Certificate -> option CertPool -> option error.
Variable X509KeyPair : list byte -> list byte -> result tlsCertificate.
Variable NewMutableTLS : option tlsConfig -> result MutableTLSCreds.

(** The collaborators of [ca/certificates.go] and of [identity], as
    parameters.  [GetRemoteCA i d] is what the [i]-th call of the run
    returns for the pin [d]; [NewID k] is the [k]-th identifier drawn.
    An error is compared with [ErrNoLocalRootCA] by its message. *)
Variable ErrNoLocalRootCA : error.
Variable GetLocalRootCA : string -> result RootCA.
Variable GetRemoteCA : nat -> string -> result RootCA.
Variable saveRootCA : RootCA -> CertPaths -> option error.
Variable NewID : nat -> string.
Variable IssueAndSaveNewCertificates :
  RootCA -> CertPaths -> string -> string -> string -> result tlsCertificate.
Variable RequestAndSaveNewCertificates :
  RootCA -> CertPaths -> string -> option MutableTLSCreds -> result tlsCertificate.

(** The loop [for i := 0; i != 5; i++]: [remaining] iterations are left,
    [i] is the counter and [err] the error of the last attempt. *)
Fixpoint fetchRemoteCA (remaining i : nat) (d : string) (err : error) : M RootCA :=
  match remaining with
  | O => lift (Fail err)
  | S remaining' =>
      emit (CallGetRemoteCA d) ;;;
      match GetRemoteCA i d with
      | Ok rootCA => ret rootCA
      | Fail err' => fetchRemoteCA remaining' (S i) d err'
      end
  end.

(** [nodeInfo] says whether the channel is there; the value sent on it is
    the event. *)
Definition LoadOrCreateSecurityConfig (baseCertDir token proposedRole : string)
    (nodeInfo : bool) : M SecurityConfig :=
  let paths := NewConfigPaths Join baseCertDir in
  rootCA <-
    match GetLocalRootCA baseCertDir with
    | Ok rootCA => ret rootCA
    | Fail err =>
        if String.eqb err ErrNoLocalRootCA then
          d <- (if String.eqb token "" then ret ""
                else let (d, err) := Token.getCAHashFromToken token in
                     check err ;;; ret d) ;;
          rootCA <- fetchRemoteCA 5 0 d err ;;
          emit (CallSaveRootCA rootCA (RootCAPaths paths)) ;;;
          check (saveRootCA rootCA (RootCAPaths paths)) ;;;
          ret rootCA
        else lift (Fail err)
    end ;;
  match LoadTLSCreds Join Dir Base X509Certificate ReadFile pemDecode
          ParseCertificate Verify X509KeyPair NewMutableTLS rootCA (Node paths) with
  | Fail _ =>
      tlsKeyPair <-
        (if CanSign rootCA then
           let cn := NewID 0 in
           let org := NewID 1 in
           (if nodeInfo then emit (SendNodeInfo cn) else ret tt) ;;;
           emit (CallIssueAndSave cn proposedRole org) ;;;
           lift (IssueAndSaveNewCertificates rootCA (Node paths) cn proposedRole org)
         else
           emit (CallRequestAndSave token) ;;;
           lift (RequestAndSaveNewCertificates rootCA (Node paths) token None)) ;;
      serverTLSCreds <- lift (NewServerTLSCredentials NewMutableTLS rootCA tlsKeyPair) ;;
      clientTLSCreds <-
        lift (NewClientTLSCredentials NewMutableTLS rootCA tlsKeyPair ManagerRole) ;;
      ret (NewSecurityConfig rootCA clientTLSCreds serverTLSCreds)
  | Ok (clientTLSCreds, serverTLSCreds) =>
      (if nodeInfo then emit (SendNodeInfo (subjectNodeID clientTLSCreds)) else ret tt) ;;;
      ret (NewSecurityConfig rootCA clientTLSCreds serverTLSCreds)
  end.

End Coordinator.

(** Vocabulary of the statements: the number of remote-CA fetches and of
    issuance requests in a trace, and the first successful attempt. *)
Definition isFetch (e : Event) : bool :=
  match e with CallGetRemoteCA _ => true | _ => false end.

Definition isIssuance (e : Event) : bool :=
  match e with
  | CallIssueAndSave _ _ _ | CallRequestAndSave _ => true
  | _ => false
  end.

Definition isSave (e : Event) : bool :=
  match e with CallSaveRootCA _ _ => true | _ => false end.

Definition count (p : Event -> bool) (events : list Event) : nat :=
  List.length (filter p events).

Definition succeeds {A} (r : result A) : bool :=
  match r with Ok _ => true | Fail _ => false end.

(** The number of attempts a loop of at most [n] makes from attempt [i]
    on: up to and including the first success. *)
Fixpoint attemptsFrom (outcome : nat -> bool) (n i : nat) : nat :=
  match n with
  | O => O
  | S n' => if outcome i then 1%nat else S (attemptsFrom outcome n' (S i))
  end.

End Bootstrap.

(** *** [RenewTLSConfig] *)

Module Renewal.
Import GoStrings GoTime CA.

(** Which case of the [select] is taken. *)
Inductive Wake := TimerFired | RenewRequested | ContextDone.

(** What one iteration of the loop finds in its surroundings:
    [readCertValidity], the two readings of the clock, the source of
    [rand.Intn], the case of the [select], the result of
    [RequestAndSaveNewCertificates], and the results of the two calls of
    [LoadNewTLSConfig] (declared in [ca/transport.go]): the node identifier
    and role of the installed certificate, or the error. *)
Record Round := {
  certValidity : result (Time * Time);
  nowAtCheck : Time;
  nowAtSchedule : Time;
  Intn : Z -> Z;
  wake : Wake;
  issued : result tlsCertificate;
  clientSwap : result (string * string);
  serverSwap : result (string * string)
}.

Inductive Event :=
| Publish (u : CertificateUpdate)
| Wait (retry : Duration)
| CallRequestAndSave
| CallLoadClient (cfg : option tlsConfig)
| CallUpdateExternalCA (cfg : tlsConfig)
| CallLoadServer (cfg : option tlsConfig)
| CloseUpdates.

(** How an iteration ends: the loop goes round again, the goroutine
    returns, or it panics. *)
Inductive Status := NextIteration | Returned | Panicked.

Definition errorUpdate (err : error) : CertificateUpdate :=
  {| Role := ""; Err := Some err |}.

Definition ifError (err : option error) : list Event :=
  match err with
  | Some e => [Publish (errorUpdate e)]
  | None => []
  end.

(** [c.LoadNewTLSConfig(newConfig)] with the result the round gives it. *)
Definition LoadNewTLSConfig (c : MutableTLSCreds) (newConfig : option tlsConfig)
    (swap : result (string * string)) : MutableTLSCreds * option error :=
  match swap with
  | Fail e => (c, Some e)
  | Ok (nodeID, role) =>
      match newConfig with
      | Some cfg =>
          ({| installed := cfg; subjectNodeID := nodeID; subjectRole := role |}, None)
      | None => (c, None)
      end
  end.

(** The first part of an iteration: the retry interval and what is
    published while computing it. *)
Definition schedule (r : Round) : list Event * Duration :=
  match certValidity r with
  | Fail _ =>
      ([Publish (errorUpdate "failed to read certificate expiration")], 5 * Minute)
  | Ok (validFrom, validUntil) =>
      if Before validUntil (nowAtCheck r)
      then ([Publish (errorUpdate "TLS certificate is expired")], 5 * Minute)
      else ([], calculateRandomExpiry (nowAtSchedule r) (Intn r) validFrom validUntil)
  end.

(** The part of an iteration after the [select]: the request for new
    certificates and the installation of the new configurations. *)
Definition renew (s : SecurityConfig) (r : Round)
  : list Event * SecurityConfig * Status :=
  let rootCA := RootCA_ s in
  match issued r with
  | Fail err =>
      ([CallRequestAndSave; Publish (errorUpdate err)], s, NextIteration)
  | Ok tlsKeyPair =>
      let (clientTLSConfig, err1) := NewClientTLSConfig tlsKeyPair (Pool rootCA) CARole in
      let (serverTLSConfig, err2) := NewServerTLSConfig tlsKeyPair (Pool rootCA) in
      let (client', err3) :=
        LoadNewTLSConfig (ClientTLSCreds s) clientTLSConfig (clientSwap r) in
      let before :=
        ([CallRequestAndSave] ++ ifError err1 ++ ifError err2
         ++ [CallLoadClient clientTLSConfig] ++ ifError err3)%list in
      match clientTLSConfig with
      | None =>
          (before,
           {| rootCA := CA.rootCA s; externalCA := externalCA s;
              ServerTLSCreds := ServerTLSCreds s; ClientTLSCreds := client' |},
           Panicked)
      | Some cfg =>
          let external := withoutServerName cfg in
          let (server', err4) :=
            LoadNewTLSConfig (ServerTLSCreds s) serverTLSConfig (serverSwap r) in
          ((before ++ [CallUpdateExternalCA external]
            ++ [CallLoadServer serverTLSConfig] ++ ifError err4
            ++ [Publish {| Role := subjectRole client'; Err := None |}])%list,
           {| rootCA := CA.rootCA s;
              externalCA := {| externalTLS := external |};
              ServerTLSCreds := server'; ClientTLSCreds := client' |},
           NextIteration)
      end
  end.

(** One iteration of the loop. *)
Definition iteration (s : SecurityConfig) (r : Round)
  : list Event * SecurityConfig * Status :=
  let (published, retry) := schedule r in
  match wake r with
  | ContextDone => ((published ++ [Wait retry])%list, s, Returned)
  | TimerFired | RenewRequested =>
      let '(events, s', status) := renew s r in
      ((published ++ [Wait retry] ++ events)%list, s', status)
  end.

(** The goroutine of [RenewTLSConfig] over the rounds it meets; the
    deferred [close(updates)] runs when it returns or panics.  A run that
    has used up its rounds is still in the loop ([NextIteration]). *)
Fixpoint RenewTLSConfig (s : SecurityConfig) (rounds : list Round)
  : list Event * SecurityConfig * Status :=
  match rounds with
  | [] => ([], s, NextIteration)
  | r :: rest =>
      let '(events, s', status) := iteration s r in
      match status with
      | NextIteration =>
          let '(events', s'', status') := RenewTLSConfig s' rest in
          ((events ++ events')%list, s'', status')
      | _ => ((events ++ [CloseUpdates])%list, s', status)
      end
  end.

(** The updates a trace publishes. *)
Fixpoint published (events : list Event) : list CertificateUpdate :=
  match events with
  | [] => []
  | Publish u :: rest => u :: published rest
  | _ :: rest => published rest
  end.

End Renewal.

(** *** [unicode/utf8], [unicode] and [strings.ToLower] *)

Module GoUnicode.
Import GoStrings.

Definition RuneError : Z := 65533.
Definition MaxRune : Z := 1114111.

Definition isContinuation (b : Z) : bool := (128 <=? b) && (b <=? 191).

(** [utf8.DecodeRuneInString(s)]: the first rune of [s] and its width in
    bytes; [(RuneError, 1)] when [s] does not start with a well-formed
    encoding.  The masks and shifts of the library are written as
    remainders and products: [b & 0x3F] is [b mod 64], and [x<<6 | y] is
    [x * 64 + y] for [y] below 64. *)
Definition DecodeRune (s : string) : Z * nat :=
  match s with
  | EmptyString => (RuneError, 0%nat)
  | String c0 s1 =>
      let b0 := byteOf c0 in
      if b0 <? 128 then (b0, 1%nat)
      else if (194 <=? b0) && (b0 <=? 223) then
        match s1 with
        | String c1 _ =>
            let b1 := byteOf c1 in
            if isContinuation b1 then ((b0 mod 32) * 64 + b1 mod 64, 2%nat)
            else (RuneError, 1%nat)
        | _ => (RuneError, 1%nat)
        end
      else if (224 <=? b0) && (b0 <=? 239) then
        match s1 with
        | String c1 (String c2 _) =>
            let b1 := byteOf c1 in
            let b2 := byteOf c2 in
            let lo := if b0 =? 224 then 160 else 128 in
            let hi := if b0 =? 237 then 159 else 191 in
            if (lo <=? b1) && (b1 <=? hi) && isContinuation b2
            then ((b0 mod 16) * 4096 + (b1 mod 64) * 64 + b2 mod 64, 3%nat)
            else (RuneError, 1%nat)
        | _ => (RuneError, 1%nat)
        end
      else if (240 <=? b0) && (b0 <=? 244) then
        match s1 with
        | String c1 (String c2 (String c3 _)) =>
            let b1 := byteOf c1 in
            let b2 := byteOf c2 in
            let b3 := byteOf c3 in
            let lo := if b0 =? 240 then 144 else 128 in
            let hi := if b0 =? 244 then 143 else 191 in
            if (lo <=? b1) && (b1 <=? hi) && isContinuation b2 && isContinuation b3
            then ((b0 mod 8) * 262144 + (b1 mod 64) * 4096
                  + (b2 mod 64) * 64 + b3 mod 64, 4%nat)
            else (RuneError, 1%nat)
        | _ => (RuneError, 1%nat)
        end
      else (RuneError, 1%nat)
  end.

Definition byte (b : Z) : ascii := ascii_of_N (Z.to_N b).

Definition encode3 (r : Z) : string :=
  String (byte (224 + r / 4096))
    (String (byte (128 + (r / 64) mod 64))
       (String (byte (128 + r mod 64)) EmptyString)).

(** [utf8.EncodeRune]: the bytes of a rune; a rune out of range or a
    surrogate is written as [RuneError]. *)
Definition EncodeRune (r : Z) : string :=
  if (0 <=? r) && (r <=? 127) then String (byte r) EmptyString
  else if (0 <=? r) && (r <=? 2047) then
    String (byte (192 + r / 64)) (String (byte (128 + r mod 64)) EmptyString)
  else if (r <? 0) || (MaxRune <? r) || ((55296 <=? r) && (r <=? 57343))
  then encode3 RuneError
  else if r <=? 65535 then encode3 r
  else
    String (byte (240 + r / 262144))
      (String (byte (128 + (r / 4096) mod 64))
         (String (byte (128 + (r / 64) mod 64))
            (String (byte (128 + r mod 64)) EmptyString))).

Section Lower.

(** [unicode.ToLower]: the ASCII letters are handled first; the other
    code points go through the table [CaseRanges].  Two entries of the
    table give an ASCII letter: U+0130 (capital I with dot above) gives
    [i] and U+212A (the Kelvin sign) gives [k].  The rest of the table is
    the parameter [caseRanges]; it gives no ASCII code point. *)
Variable caseRanges : Z -> Z.

Definition ToLowerRune (r : Z) : Z :=
  if r <=? 127 then
    if (65 <=? r) && (r <=? 90) then r + 32 else r
  else if r =? 304 then 105
  else if r =? 8490 then 107
  else caseRanges r.

(** The loop of [strings.Map(mapping, s)].  [skip] bytes of the rune in
    hand are still to be passed ([copy]: they are output as they are);
    [changed] says that the output buffer has been allocated, which
    happens at the first rune the mapping changes: up to there the input
    is copied, from there on every rune is encoded anew. *)
Fixpoint mapLoop (mapping : Z -> Z) (s : string) (skip : nat)
    (changed copy : bool) : string :=
  match s with
  | EmptyString => EmptyString
  | String c rest =>
      match skip with
      | S k =>
          if copy then String c (mapLoop mapping rest k changed copy)
          else mapLoop mapping rest k changed copy
      | O =>
          let (r, size) := DecodeRune s in
          let r' := mapping r in
          if negb changed && (r' =? r)
          then String c (mapLoop mapping rest (size - 1) false true)
          else String.append (if 0 <=? r' then EncodeRune r' else EmptyString)
                 (mapLoop mapping rest (size - 1) true false)
      end
  end.

Definition Map (mapping : Z -> Z) (s : string) : string :=
  mapLoop mapping s 0 false false.

Definition ToLower (s : string) : string := Map ToLowerRune s.

End Lower.

(** Vocabulary of the statements about letter case. *)

Definition isASCII (c : ascii) : bool := byteOf c <? 128.

Definition lowerASCII (c : ascii) : ascii :=
  let b := byteOf c in
  if (65 <=? b) && (b <=? 90) then byte (b + 32) else c.

Definition isUpperASCII (c : ascii) : bool := (65 <=? byteOf c) && (byteOf c <=? 90).

(** What the statements assume of the rest of the case table: outside
    ASCII, and apart from U+0130 and U+212A, lower case stays outside
    ASCII. *)
Definition staysOutsideASCII (caseRanges : Z -> Z) : Prop :=
  forall r, 128 <= r -> r <> 304 -> r <> 8490 -> 128 <= caseRanges r.

(** [s] is [name] up to the case of its ASCII letters. *)
Fixpoint capitalizationOf (name s : string) : bool :=
  match name, s with
  | EmptyString, EmptyString => true
  | String n name', String c s' =>
      isASCII c && Ascii.eqb (lowerASCII c) n && capitalizationOf name' s'
  | _, _ => false
  end.

(** The encodings of U+212A and U+0130. *)
Definition kelvinSign : string := String "226" (String "132" (String "170" EmptyString)).
Definition dottedI : string := String "196" (String "176" EmptyString).

(** [s] is [name] up to the case of its ASCII letters, where a [k] may
    also be written as the Kelvin sign and an [i] as the dotted capital
    I. *)
Fixpoint spellingOf (name s : string) : bool :=
  match name with
  | EmptyString => match s with EmptyString => true | _ => false end
  | String n name' =>
      match s with
      | String c t1 =>
          (isASCII c && Ascii.eqb (lowerASCII c) n && spellingOf name' t1)
          || match t1 with
             | String c1 t2 =>
                 (Ascii.eqb n "k" && Ascii.eqb c "226" && Ascii.eqb c1 "132"
                  && match t2 with
                     | String c2 t3 => Ascii.eqb c2 "170" && spellingOf name' t3
                     | EmptyString => false
                     end)
                 || (Ascii.eqb n "i" && Ascii.eqb c "196" && Ascii.eqb c1 "176"
                     && spellingOf name' t2)
             | EmptyString => false
             end
      | EmptyString => false
      end
  end.

End GoUnicode.

(** *** The role codec ([ParseRole], [FormatRole]) *)

Module Roles.
Import GoStrings CA.

Section Codec.

(** [api.NodeRole] is an [int32]; its two constants are declared in the
    [api] package and are parameters here. *)
Variables NodeRoleWorker NodeRoleManager : Z.
Variable caseRanges : Z -> Z.

Definition ParseRole (apiRole : Z) : string * option error :=
  if apiRole =? NodeRoleManager then (ManagerRole, None)
  else if apiRole =? NodeRoleWorker then (WorkerRole, None)
  else ("", Some "failed to parse api role").

Definition FormatRole (role : string) : Z * option error :=
  let lowered := GoUnicode.ToLower caseRanges role in
  if String.eqb lowered (GoUnicode.ToLower caseRanges ManagerRole)
  then (NodeRoleManager, None)
  else if String.eqb lowered (GoUnicode.ToLower caseRanges WorkerRole)
  then (NodeRoleWorker, None)
  else (0, Some "failed to parse role").

End Codec.

End Roles.

(** Sample values of the [ca] package: a root CA that cannot sign, a
    security configuration around it, and values for the three durations
    of [ca/certificates.go]: a minimum of one hour, a default of 90 days
    and a backdate of one hour. *)

Module CASamples.
Import CA GoTime.

Definition pool : CertPool := {| poolCerts := [[x30; x82]] |}.

Definition root : RootCA :=
  {| Key := []; Cert := [x2d; x2d]; Pool := Some pool;
     Digest := Samples.digest; Signer := None |}.

Definition keyPair : tlsCertificate :=
  {| certificatePEM := [x2d; x2d; x01]; privateKeyPEM := [x2d; x2d; x02] |}.

Definition clientConfig : tlsConfig :=
  {| ServerName := ManagerRole; Certificates := [keyPair];
     RootCAs := Some pool; ClientCAs := None; ClientAuth := NoClientCert;
     PreferServerCipherSuites := false; MinVersion := VersionTLS12 |}.

Definition serverConfig : tlsConfig :=
  {| ServerName := ""; Certificates := [keyPair];
     RootCAs := Some pool; ClientCAs := Some pool;
     ClientAuth := VerifyClientCertIfGiven;
     PreferServerCipherSuites := true; MinVersion := VersionTLS12 |}.

Definition config : SecurityConfig :=
  {| rootCA := root;
     externalCA := {| externalTLS := clientConfig |};
     ServerTLSCreds :=
       {| installed := serverConfig; subjectNodeID := "node-1";
          subjectRole := WorkerRole |};
     ClientTLSCreds :=
       {| installed := clientConfig; subjectNodeID := "node-1";
          subjectRole := WorkerRole |} |}.

(** The same configuration around a root CA without a pool. *)
Definition configWithoutPool : SecurityConfig :=
  {| rootCA :=
       {| Key := []; Cert := [x2d; x2d]; Pool := None;
          Digest := Samples.digest; Signer := None |};
     externalCA := externalCA config;
     ServerTLSCreds := ServerTLSCreds config;
     ClientTLSCreds := ClientTLSCreds config |}.

(** A [NewRootCA] that rejects every certificate. *)
Definition rejectingNewRootCA (cert key : list byte) (certExpiry : Duration)
    (roleAuthorizations : list (string * unit)) : RootCA * option error :=
  ({| Key := []; Cert := []; Pool := None; Digest := ""; Signer := None |},
   Some "failed to decode certificate").

(** A [NewRootCA] that accepts every certificate as the sample root. *)
Definition acceptingNewRootCA (cert key : list byte) (certExpiry : Duration)
    (roleAuthorizations : list (string * unit)) : RootCA * option error :=
  ({| Key := key; Cert := cert; Pool := Some pool; Digest := Samples.digest;
      Signer := None |},
   None).

Definition MinNodeCertExpiration : Duration := 1 * Hour.
Definition DefaultNodeCertExpiration : Duration := 2160 * Hour.
Definition CertBackdate : Duration := 1 * Hour.

End CASamples.

(** A scripted surrounding for the credential loader, the bootstrap
    coordinator and the renewal loop: paths of the form [dir/file], a disk
    given file by file, and libraries that accept the certificate [cert]
    and pair it with the key [newKey] only. *)

Module Scripted.
Import GoStrings GoTime CA.

Definition Join (dir file : string) : string := (dir ++ "/" ++ file)%string.

(** The part of a path after its last slash, and the part before it. *)
Fixpoint Base (path : string) : string :=
  match path with
  | EmptyString => EmptyString
  | String c rest =>
      match IndexByte rest "/" with
      | Some _ => Base rest
      | None => if Ascii.eqb c "/" then rest else path
      end
  end.

Definition Dir (path : string) : string :=
  substring 0 (String.length path - String.length (Base path) - 1) path.

Definition baseCertDir : string := "/var/lib/swarm/certificates".

Definition paths : SecurityConfigPaths := NewConfigPaths Join baseCertDir.

Definition cert : list byte := [x2d; x2d; x01].
Definition oldKey : list byte := [x2d; x2d; x02].
Definition newKey : list byte := [x2d; x2d; x03].

Definition noSuchFile : error := "no such file or directory".
Definition keyMismatch : error := "tls: private key does not match public key".

(** A disk on which the node certificate is [cert], the primary key file
    holds [primaryKey] (or is absent) and the hidden sibling holds
    [siblingKey] (or is absent). *)
Definition disk (primaryKey siblingKey : option (list byte)) (path : string)
  : result (list byte) :=
  if String.eqb path "/var/lib/swarm/certificates/swarm-node.crt" then Ok cert
  else if String.eqb path "/var/lib/swarm/certificates/swarm-node.key" then
    match primaryKey with Some k => Ok k | None => Fail noSuchFile end
  else if String.eqb path "/var/lib/swarm/certificates/.swarm-node.key" then
    match siblingKey with Some k => Ok k | None => Fail noSuchFile end
  else Fail noSuchFile.

Definition pemDecode (data : list byte) : option (list byte) := Some data.

Definition ParseCertificate (der : list byte) : result (list byte) := Ok der.

Definition Verify (c : list byte) (roots : option CertPool) : option error := None.

Definition X509KeyPair (certPEM keyPEM : list byte) : result tlsCertificate :=
  match keyPEM with
  | [x2d; x2d; x03] => Ok {| certificatePEM := certPEM; privateKeyPEM := keyPEM |}
  | _ => Fail keyMismatch
  end.

Definition NewMutableTLS (cfg : option tlsConfig) : result MutableTLSCreds :=
  match cfg with
  | Some c =>
      Ok {| installed := c; subjectNodeID := "node-1"; subjectRole := WorkerRole |}
  | None => Fail "nil configuration"
  end.

Definition LoadTLSCreds (primaryKey siblingKey : option (list byte)) :=
  CA.LoadTLSCreds Join Dir Base (list byte) (disk primaryKey siblingKey)
    pemDecode ParseCertificate Verify X509KeyPair NewMutableTLS.

(** The bootstrap: no root CA on disk, a remote CA that answers at the
    attempt [firstAnswer] (counted from zero) and fails before. *)
Definition ErrNoLocalRootCA : error := "local root CA certificate does not exist".

Definition remoteError : error := "rpc error: connection refused".

Definition GetLocalRootCA (dir : string) : result RootCA := Fail ErrNoLocalRootCA.

Definition GetRemoteCA (firstAnswer : nat) (i : nat) (d : string) : result RootCA :=
  if (i <? firstAnswer)%nat then Fail remoteError
  else Ok {| Key := []; Cert := cert; Pool := Some {| poolCerts := [cert] |};
             Digest := d; Signer := None |}.

Definition saveRootCA (r : RootCA) (p : CertPaths) : option error := None.

Definition NewID (k : nat) : string := if (k =? 0)%nat then "node-1" else "org-1".

Definition Issue (r : RootCA) (p : CertPaths) (cn role org : string)
  : result tlsCertificate :=
  Ok {| certificatePEM := cert; privateKeyPEM := newKey |}.

Definition Request (r : RootCA) (p : CertPaths) (token : string)
    (creds : option MutableTLSCreds) : result tlsCertificate :=
  Ok {| certificatePEM := cert; privateKeyPEM := newKey |}.

Definition LoadOrCreateSecurityConfig (firstAnswer : nat) :=
  Bootstrap.LoadOrCreateSecurityConfig Join Dir Base (list byte)
    (disk None None) pemDecode ParseCertificate Verify X509KeyPair NewMutableTLS
    ErrNoLocalRootCA GetLocalRootCA (GetRemoteCA firstAnswer) saveRootCA NewID
    Issue Request.

(** Rounds of the renewal loop: a certificate valid for 90 days read one
    day into its validity, the timer firing, and the request for a new
    certificate answered.  In [serverSwapFails] the server credentials
    refuse the new configuration; in [clientSwapFails] the client
    credentials do. *)
Definition issuedAt : Time := 1467331200 * Second.

Definition swapError : error := "certificate subject is not valid".

Definition round (clientSwap serverSwap : result (string * string)) : Renewal.Round :=
  {| Renewal.certValidity := Ok (issuedAt, issuedAt + 2160 * Hour);
     Renewal.nowAtCheck := issuedAt + 24 * Hour;
     Renewal.nowAtSchedule := issuedAt + 24 * Hour;
     Renewal.Intn := fun n => 0;
     Renewal.wake := Renewal.TimerFired;
     Renewal.issued := Ok {| certificatePEM := cert; privateKeyPEM := newKey |};
     Renewal.clientSwap := clientSwap;
     Renewal.serverSwap := serverSwap |}.

Definition requestFails : Renewal.Round :=
  {| Renewal.certValidity := Ok (issuedAt, issuedAt + 2160 * Hour);
     Renewal.nowAtCheck := issuedAt + 24 * Hour;
     Renewal.nowAtSchedule := issuedAt + 24 * Hour;
     Renewal.Intn := fun n => 0;
     Renewal.wake := Renewal.TimerFired;
     Renewal.issued := Fail remoteError;
     Renewal.clientSwap := Ok ("node-1", WorkerRole);
     Renewal.serverSwap := Ok ("node-1", WorkerRole) |}.

Definition serverSwapFails : Renewal.Round :=
  round (Ok ("node-1", WorkerRole)) (Fail swapError).

Definition clientSwapFails : Renewal.Round :=
  round (Fail swapError) (Ok ("node-1", WorkerRole)).

End Scripted.

(** Further vocabulary for the statements about tokens: the bytes
    [nat.scan] reads as digits of a base, in either case. *)

Module TokenDigits.

Definition isScanDigit (base : Z) (ch : ascii) : bool := Big.digitVal ch <? base.

End TokenDigits.

(** A scripted restart: the root CA is on disk (or cannot be read), and
    the node key at the primary path is [primaryKey]. *)

Module Restarted.
Import GoStrings GoTime CA.

Definition unreadable : error := "permission denied".

Definition GetLocalRootCA (dir : string) : result RootCA := Ok CASamples.root.

Definition GetLocalRootCAUnreadable (dir : string) : result RootCA := Fail unreadable.

Definition LoadOrCreateSecurityConfig
    (GetLocalRootCA : string -> result RootCA) (primaryKey : option (list byte)) :=
  Bootstrap.LoadOrCreateSecurityConfig Scripted.Join Scripted.Dir Scripted.Base
    (list byte) (Scripted.disk primaryKey None) Scripted.pemDecode
    Scripted.ParseCertificate Scripted.Verify Scripted.X509KeyPair
    Scripted.NewMutableTLS Scripted.ErrNoLocalRootCA GetLocalRootCA
    (Scripted.GetRemoteCA 0) Scripted.saveRootCA Scripted.NewID Scripted.Issue
    Scripted.Request.

End Restarted.

(** ** The containerd adapter ([agent/exec/containerd/adapter.go]) *)

(** The part of [api.ContainerSpec] and [api.Mount] the adapter reads. *)

Module Api.

Inductive MountType :=
| MountTypeBind | MountTypeVolume | MountTypeTmpfs
| MountTypeOther (n : Z).

(** [api.Mount_BindOptions_MountPropagation]: the six constants, and any
    other value of the underlying integer. *)
Inductive MountPropagation :=
| MountPropagationRPrivate | MountPropagationPrivate
| MountPropagationRShared | MountPropagationShared
| MountPropagationRSlave | MountPropagationSlave
| MountPropagationOther (n : Z).

Record Mount_BindOptions := { Propagation : MountPropagation }.

(** [SizeBytes] is an [int64], [Mode] an [os.FileMode] (a [uint32]). *)
Record Mount_TmpfsOptions := { SizeBytes : Z; Mode : Z }.

Record Mount := {
  Type_ : MountType;
  Source : string;
  Target : string;
  ReadOnly : bool;
  BindOptions : option Mount_BindOptions;
  TmpfsOptions : option Mount_TmpfsOptions
}.

Record ContainerSpec := {
  Image : string;
  Command : list string;
  Args : list string;
  Mounts : list Mount
}.

End Api.

(** The part of [specs.Spec] the adapter writes and reads. *)

Module Specs.

Record Mount := {
  Destination : string;
  Type_ : string;
  Source : string;
  Options : list string
}.

Record Spec := {
  Mounts : list Mount;
  ProcessArgs : list string;
  ProcessTerminal : bool
}.

End Specs.

Module Containerd.
Import GoStrings.

Definition error := string.

Inductive result (A : Type) :=
| Ok (a : A)
| Fail (e : error).
Arguments Ok {A} a.
Arguments Fail {A} e.

(** [errors.Wrap(err, message)]: the message, a colon and the cause. *)
Definition Wrap (err : error) (message : string) : error :=
  (message ++ ": " ++ err)%string.

Definition errAdapterNotPrepared : error := "container adapter not prepared".

Definition mountPropagationReverseMap (p : Api.MountPropagation) : option string :=
  match p with
  | Api.MountPropagationPrivate => Some "private"
  | Api.MountPropagationRPrivate => Some "rprivate"
  | Api.MountPropagationShared => Some "shared"
  | Api.MountPropagationRShared => Some "rshared"
  | Api.MountPropagationRSlave => Some "slave"
  | Api.MountPropagationSlave => Some "rslave"
  | Api.MountPropagationOther _ => None
  end%string.

(** What the libraries hand out: images, containers, tasks and files are
    opaque to the adapter, which only keeps them and passes them on. *)
Inductive ImageHandle := PulledImage (ref : string).
Inductive ContainerHandle := CreatedContainer (id : string).
Inductive TaskHandle := CreatedTask (id : string) (pid : Z).
Inductive FileHandle := OpenedFile (fd : Z).

Record DeleteResponse := { ExitStatus : Z }.

(** [task.Event] and [task.Task], with the fields of interest here. *)
Record taskEvent := { ID : string; Pid : Z; EventExitStatus : Z }.
Record taskTask := { TaskID : string; TaskPid : Z; Status : Z }.

(** The options handed to [containerd.GenerateSpec]. *)
Inductive SpecOpts :=
| WithImageConfig (image : ImageHandle)
| withMountsOpt (ms : list Api.Mount)
| WithProcessArgs (args : list string)
| appendProcessArgs (args : list string).

(** The collaborators: the containerd client and its services, the
    functions of the [containerd] and [os] packages, [sort.Sort] on
    [mounts], [dockermount.MergeTmpfsOptions], the [%v] format of a mount
    and [exec.ErrRuntimeUnsupported].  A failure stands for a [nil]
    result together with the error. *)
Record Client := {
  Pull : string -> result ImageHandle;
  GenerateSpec : list SpecOpts -> result Specs.Spec;
  OpenDevNull : result FileHandle;
  NewContainer : string -> Specs.Spec -> ImageHandle -> result ContainerHandle;
  NewTask : ContainerHandle -> FileHandle -> bool -> result TaskHandle;
  ContainerDelete : ContainerHandle -> option error;
  TasksStart : string -> option error;
  TasksInfo : string -> result taskTask;
  TasksDelete : string -> result DeleteResponse;
  ContainersDelete : string -> option error;
  TasksEvents : option error;
  Sort : list Api.Mount -> list Api.Mount;
  MergeTmpfsOptions : list string -> result (list string);
  formatMount : Api.Mount -> string;
  ErrRuntimeUnsupported : error
}.

(** The calls an operation makes, in order. *)
Inductive Call :=
| CallPull (ref : string)
| CallGenerateSpec (opts : list SpecOpts)
| CallOpenDevNull
| CallNewContainer (id : string)
| CallNewTask (container : ContainerHandle)
| CallContainerDelete (container : ContainerHandle)
| CallTasksStart (id : string)
| CallTasksInfo (id : string)
| CallTasksDelete (id : string)
| CallContainersDelete (id : string)
| CallTasksEvents.

(** The adapter; its [client] and [secrets] never change and are left to
    the collaborators. *)
Record containerAdapter := {
  spec : Api.ContainerSpec;
  name : string;
  image : option ImageHandle;
  container : option ContainerHandle;
  task : option TaskHandle;
  deleteResponse : option DeleteResponse
}.

(** [newContainerAdapter(client, task, secrets)], as a function of
    [task.Spec.GetContainer()] and of [naming.Task(task)]. *)
Definition newContainerAdapter (cl : Client) (taskSpec : option Api.ContainerSpec)
    (taskName : string) : option containerAdapter * option error :=
  match taskSpec with
  | None => (None, Some (ErrRuntimeUnsupported cl))
  | Some spec =>
      (Some {| spec := spec; name := taskName; image := None;
               container := None; task := None; deleteResponse := None |},
       None)
  end.

Definition pullImage (cl : Client) (c : containerAdapter)
  : list Call * containerAdapter * option error :=
  match Pull cl (Api.Image (spec c)) with
  | Fail err =>
      ([CallPull (Api.Image (spec c))], c, Some (Wrap err "pulling container image"))
  | Ok image =>
      ([CallPull (Api.Image (spec c))],
       {| spec := spec c; name := name c; image := Some image;
          container := container c; task := task c;
          deleteResponse := deleteResponse c |},
       None)
  end.

(** [filepath.IsAbs] on Unix: the path starts with a slash. *)
Definition IsAbs (path : string) : bool :=
  match path with
  | String c _ => Ascii.eqb c "/"
  | EmptyString => false
  end.

Definition readWrite (readOnly : bool) : string :=
  if readOnly then "ro" else "rw".

(** The function [withMounts] returns, over the mounts as [sort.Sort]
    left them: the specification after the call (the mounts added before
    an error stay) and the error. *)
Fixpoint addMounts (cl : Client) (ms : list Api.Mount) (s : Specs.Spec)
  : Specs.Spec * option error :=
  match ms with
  | [] => (s, None)
  | m :: rest =>
      if negb (IsAbs (Api.Target m))
      then (s, Some ("mount " ++ Api.Target m ++ " is not absolute")%string)
      else
        match Api.Type_ m with
        | Api.MountTypeTmpfs =>
            let opts := ["noexec"; "nosuid"; "nodev"; "rprivate"]%string in
            match
              match Api.TmpfsOptions m with
              | Some o =>
                  if Api.SizeBytes o <=? 0 then Fail "invalid tmpfs size give"
                  else Ok (opts ++ [("size=" ++ Big.Text (Api.SizeBytes o) 10)%string]
                                ++ [("mode=" ++ Big.Text (Api.Mode o) 8)%string])%list
              | None => Ok opts
              end
            with
            | Fail err => (s, Some err)
            | Ok opts =>
                match MergeTmpfsOptions cl (opts ++ [readWrite (Api.ReadOnly m)])%list with
                | Fail err => (s, Some err)
                | Ok opts =>
                    addMounts cl rest
                      {| Specs.Mounts :=
                           (Specs.Mounts s
                            ++ [{| Specs.Destination := Api.Target m;
                                   Specs.Type_ := "tmpfs";
                                   Specs.Source := "tmpfs";
                                   Specs.Options := opts |}])%list;
                         Specs.ProcessArgs := Specs.ProcessArgs s;
                         Specs.ProcessTerminal := Specs.ProcessTerminal s |}
                end
            end
        | Api.MountTypeVolume =>
            (s, Some ("volume mounts not implemented, ignoring " ++ formatMount cl m)%string)
        | Api.MountTypeBind =>
            let propagation :=
              match Api.BindOptions m with
              | Some b =>
                  match mountPropagationReverseMap (Api.Propagation b) with
                  | Some p => p
                  | None => "rprivate"%string
                  end
              | None => "rprivate"%string
              end in
            addMounts cl rest
              {| Specs.Mounts :=
                   (Specs.Mounts s
                    ++ [{| Specs.Destination := Api.Target m;
                           Specs.Type_ := "bind";
                           Specs.Source := Api.Source m;
                           Specs.Options :=
                             ["rbind"%string; readWrite (Api.ReadOnly m); propagation] |}])%list;
                 Specs.ProcessArgs := Specs.ProcessArgs s;
                 Specs.ProcessTerminal := Specs.ProcessTerminal s |}
        | Api.MountTypeOther _ => addMounts cl rest s
        end
  end.

(** [withMounts(ctx, ms)]: the mounts are sorted when the option is
    made, and added when it is applied. *)
Definition withMounts (cl : Client) (ms : list Api.Mount)
  : Specs.Spec -> Specs.Spec * option error :=
  addMounts cl (Sort cl ms).

Definition isSome {A} (o : option A) : bool :=
  match o with Some _ => true | None => false end.

Definition isPrepared (c : containerAdapter) : bool :=
  isSome (container c) && isSome (task c).

(** [c.prepare(ctx)], with the package variable [devNull] as it is before
    and after the call.  [sort.Sort] works in place, so the mounts of the
    container specification are left sorted. *)
Definition prepare (cl : Client) (devNull : option FileHandle) (c : containerAdapter)
  : list Call * option FileHandle * containerAdapter * option error :=
  if isPrepared c then ([], devNull, c, Some "adapter already prepared")
  else
    match image c with
    | None => ([], devNull, c, Some "image has not been pulled")
    | Some img =>
        let sorted := Sort cl (Api.Mounts (spec c)) in
        let spec' :=
          {| Api.Image := Api.Image (spec c); Api.Command := Api.Command (spec c);
             Api.Args := Api.Args (spec c); Api.Mounts := sorted |} in
        let adapter container task :=
          {| spec := spec'; name := name c; image := image c;
             container := container; task := task;
             deleteResponse := deleteResponse c |} in
        let specOpts :=
          [WithImageConfig img; withMountsOpt sorted;
           if (0 <? List.length (Api.Command (spec c)))%nat
           then WithProcessArgs (Api.Command (spec c) ++ Api.Args (spec c))%list
           else appendProcessArgs (Api.Args (spec c))] in
        match GenerateSpec cl specOpts with
        | Fail err =>
            ([CallGenerateSpec specOpts], devNull, adapter (container c) (task c), Some err)
        | Ok spec =>
            let '(opening, opened) :=
              match devNull with
              | Some f => ([], Ok f)
              | None => ([CallOpenDevNull], OpenDevNull cl)
              end in
            match opened with
            | Fail err =>
                ((CallGenerateSpec specOpts :: opening)%list, None,
                 adapter (container c) (task c),
                 Some (Wrap err "opening null device"))
            | Ok null =>
                match NewContainer cl (name c) spec img with
                | Fail err =>
                    ((CallGenerateSpec specOpts :: opening
                      ++ [CallNewContainer (name c)])%list,
                     Some null, adapter None (task c),
                     Some (Wrap err "creating container"))
                | Ok created =>
                    match NewTask cl created null (Specs.ProcessTerminal spec) with
                    | Fail err =>
                        ((CallGenerateSpec specOpts :: opening
                          ++ [CallNewContainer (name c); CallNewTask created;
                              CallContainerDelete created])%list,
                         Some null, adapter None None,
                         Some (Wrap err "creating task"))
                    | Ok started =>
                        ((CallGenerateSpec specOpts :: opening
                          ++ [CallNewContainer (name c); CallNewTask created])%list,
                         Some null, adapter (Some created) (Some started), None)
                    end
                end
            end
        end
    end.

Definition start (cl : Client) (c : containerAdapter) : list Call * option error :=
  if negb (isPrepared c) then ([], Some errAdapterNotPrepared)
  else ([CallTasksStart (name c)], TasksStart cl (name c)).

(** [c.events(ctx)] up to the start of its goroutine. *)
Definition events (cl : Client) (c : containerAdapter) : list Call * option error :=
  if negb (isPrepared c) then ([], Some errAdapterNotPrepared)
  else ([CallTasksEvents], TasksEvents cl).

(** What the goroutine of [events] meets: [cl.Recv()] returns an error or
    an event, and for an event of this container the [select] sends it or
    finds the context done. *)
Inductive Received :=
| RecvError (err : error)
| RecvEvent (evt : taskEvent) (contextDone : bool).

(** The goroutine over what it receives: the events sent on [eventsq],
    and whether it has returned (and so closed [closed]). *)
Fixpoint forward (c : containerAdapter) (stream : list Received)
  : list taskEvent * bool :=
  match stream with
  | [] => ([], false)
  | RecvError _ :: _ => ([], true)
  | RecvEvent evt contextDone :: rest =>
      if negb (String.eqb (ID evt) (name c)) then forward c rest
      else if contextDone then ([], true)
      else let (sent, returned) := forward c rest in (evt :: sent, returned)
  end.

Definition inspect (cl : Client) (c : containerAdapter)
  : list Call * result taskTask :=
  if negb (isPrepared c) then ([], Fail errAdapterNotPrepared)
  else ([CallTasksInfo (name c)], TasksInfo cl (name c)).

Definition shutdown (cl : Client) (c : containerAdapter)
  : list Call * containerAdapter * (Z * option error) :=
  if negb (isPrepared c) then ([], c, (0, Some errAdapterNotPrepared))
  else
    match deleteResponse c with
    | Some rsp => ([], c, (ExitStatus rsp, None))
    | None =>
        match TasksDelete cl (name c) with
        | Fail err => ([CallTasksDelete (name c)], c, (0, Some err))
        | Ok rsp =>
            ([CallTasksDelete (name c); CallContainersDelete (name c)],
             {| spec := spec c; name := name c; image := image c;
                container := container c; task := task c;
                deleteResponse := Some rsp |},
             (ExitStatus rsp, None))
        end
    end.

Definition terminate (c : containerAdapter) : option error :=
  if negb (isPrepared c) then Some errAdapterNotPrepared
  else Some "terminate not implemented"%string.

Definition remove (c : containerAdapter) : option error :=
  if negb (isPrepared c) then Some errAdapterNotPrepared
  else None.

(** [strings.SplitN(s, sep, n)] for a one-byte separator and [n >= 0]: at
    most [n] pieces, the last of them the unsplit rest. *)
Fixpoint SplitN (s : string) (sep : ascii) (n : nat) {struct s} : list string :=
  match n with
  | O => []
  | S O => [s]
  | S (S _ as n') =>
      match s with
      | EmptyString => [EmptyString]
      | String c rest =>
          if Ascii.eqb c sep then EmptyString :: SplitN rest sep n'
          else match SplitN rest sep n with
               | piece :: pieces => String c piece :: pieces
               | [] => [String c EmptyString]
               end
      end
  end.

(** The double quote. *)
Definition quote : ascii := "034".

(** [isContainerCreateNameConflict(err)] on the message of the error;
    [None] is the panic of an index out of range. *)
Definition isContainerCreateNameConflict (err : error) : option bool :=
  let splits := SplitN err quote 3 in
  match nth_error splits 0 with
  | None => None
  | Some first =>
      if String.eqb first "container " then
        match nth_error splits 2 with
        | None => None
        | Some third => Some (String.eqb third " already exists")
        end
      else Some false
  end.

(** [strings.Contains(s, substr)]. *)
Fixpoint Contains (s substr : string) : bool :=
  if String.prefix substr s then true
  else match s with
       | EmptyString => false
       | String _ rest => Contains rest substr
       end.

Definition isUnknownContainer (err : error) : bool :=
  Contains err "container does not exist".

(** The operations that change the adapter, and the adapters a program
    can hold: the one [newContainerAdapter] returns, and whatever the
    operations make of it, with any client. *)
Inductive Reachable : containerAdapter -> Prop :=
| ReachableNew (cl : Client) (taskSpec : option Api.ContainerSpec)
    (taskName : string) (c : containerAdapter) :
    fst (newContainerAdapter cl taskSpec taskName) = Some c -> Reachable c
| ReachablePull (cl : Client) (c : containerAdapter) :
    Reachable c -> Reachable (snd (fst (pullImage cl c)))
| ReachablePrepare (cl : Client) (devNull : option FileHandle) (c : containerAdapter) :
    Reachable c -> Reachable (snd (fst (prepare cl devNull c)))
| ReachableShutdown (cl : Client) (c : containerAdapter) :
    Reachable c -> Reachable (snd (fst (shutdown cl c))).

Definition noQuote (s : string) : bool :=
  allBytes (fun ch => negb (Ascii.eqb ch quote)) s.

(** A client whose every call succeeds. *)
Definition obliging : Client :=
  {| Pull := fun ref => Ok (PulledImage ref);
     GenerateSpec := fun _ =>
       Ok {| Specs.Mounts := []; Specs.ProcessArgs := []; Specs.ProcessTerminal := false |};
     OpenDevNull := Ok (OpenedFile 3);
     NewContainer := fun id _ _ => Ok (CreatedContainer id);
     NewTask := fun _ _ _ => Ok (CreatedTask "task" 42);
     ContainerDelete := fun _ => None;
     TasksStart := fun _ => None;
     TasksInfo := fun id => Ok {| TaskID := id; TaskPid := 42; Status := 1 |};
     TasksDelete := fun _ => Ok {| ExitStatus := 7 |};
     ContainersDelete := fun _ => Some "container is gone"%string;
     TasksEvents := None;
     Sort := fun ms => ms;
     MergeTmpfsOptions := fun opts => Ok opts;
     formatMount := fun m => Api.Target m;
     ErrRuntimeUnsupported := "exec: unsupported runtime" |}.

(** The same client with tasks that cannot be created. *)
Definition withoutTasks : Client :=
  {| Pull := Pull obliging; GenerateSpec := GenerateSpec obliging;
     OpenDevNull := OpenDevNull obliging; NewContainer := NewContainer obliging;
     NewTask := fun _ _ _ => Fail "no such runtime";
     ContainerDelete := ContainerDelete obliging;
     TasksStart := TasksStart obliging; TasksInfo := TasksInfo obliging;
     TasksDelete := TasksDelete obliging;
     ContainersDelete := ContainersDelete obliging;
     TasksEvents := TasksEvents obliging; Sort := Sort obliging;
     MergeTmpfsOptions := MergeTmpfsOptions obliging;
     formatMount := formatMount obliging;
     ErrRuntimeUnsupported := ErrRuntimeUnsupported obliging |}.

Definition sampleSpec : Api.ContainerSpec :=
  {| Api.Image := "docker.io/library/redis:latest";
     Api.Command := ["redis-server"%string]; Api.Args := [];
     Api.Mounts :=
       [{| Api.Type_ := Api.MountTypeBind; Api.Source := "/srv/data";
           Api.Target := "/data"; Api.ReadOnly := false;
           Api.BindOptions := Some {| Api.Propagation := Api.MountPropagationRSlave |};
           Api.TmpfsOptions := None |};
        {| Api.Type_ := Api.MountTypeTmpfs; Api.Source := "";
           Api.Target := "/run"; Api.ReadOnly := true;
           Api.BindOptions := None;
           Api.TmpfsOptions := Some {| Api.SizeBytes := 65536; Api.Mode := 493 |} |}] |}.

Definition fresh : containerAdapter :=
  {| spec := sampleSpec; name := "redis.1.abc"; image := None;
     container := None; task := None; deleteResponse := None |}.

Definition pulled : containerAdapter := snd (fst (pullImage obliging fresh)).

Definition prepared : containerAdapter := snd (fst (prepare obliging None pulled)).

Definition emptySpec : Specs.Spec :=
  {| Specs.Mounts := []; Specs.ProcessArgs := []; Specs.ProcessTerminal := false |}.

End Containerd.

(** ** Vocabulary for binary64 values

    The statements about [float64] computations bound the value of a
    float between two numbers of a binary grid. *)

Module Float64.

(** What a location leaves open above the mantissa it comes with: nothing
    when the mantissa is exact, less than one unit otherwise. *)
Definition slack (l : location) : Z :=
  match l with loc_Exact => 0 | loc_Inexact _ => 1 end.

(** [x] is zero or a positive finite float, on the grid of step [2 ^ g]
    or a finer one, and its value lies between [A * 2 ^ g] and
    [B * 2 ^ g]. *)
Definition between (g A B : Z) (x : spec_float) : Prop :=
  match x with
  | S754_zero _ => A <= 0 <= B
  | S754_finite false m e =>
      e <= g /\ A * 2 ^ (g - e) <= Zpos m <= B * 2 ^ (g - e)
  | _ => False
  end.

(** Some bit was shifted out of the mantissa of the record. *)
Definition inexact (mrs : shr_record) : bool := shr_r mrs || shr_s mrs.

(** [float64(60 * 1000000000)], by which [Minutes] divides. *)
Definition perMinute : spec_float := S754_finite false 7864320000000000 (-17).

End Float64.

(** ** Part II: properties *)

(** *** Strings *)

Section StringFacts.
Import GoStrings.

Lemma string_length_app (s t : string) :
  String.length (s ++ t) = (String.length s + String.length t)%nat.
Proof. induction s as [|c s IH]; simpl; [reflexivity | now rewrite IH]. Qed.

Lemma length_repeatByte (c : ascii) (n : nat) :
  String.length (repeatByte c n) = n.
Proof. induction n as [|n IH]; simpl; [reflexivity | now rewrite IH]. Qed.

Lemma allBytes_app (p : ascii -> bool) (s t : string) :
  allBytes p (s ++ t) = allBytes p s && allBytes p t.
Proof.
  induction s as [|c s IH]; simpl; [reflexivity|].
  now rewrite IH, andb_assoc.
Qed.

Lemma allBytes_repeatByte (p : ascii -> bool) (c : ascii) (n : nat) :
  p c = true -> allBytes p (repeatByte c n) = true.
Proof. intros Hc; induction n as [|n IH]; simpl; [reflexivity | now rewrite Hc, IH]. Qed.

Lemma allBytes_impl (p q : ascii -> bool) (s : string) :
  (forall c, p c = true -> q c = true) ->
  allBytes p s = true -> allBytes q s = true.
Proof.
  intros Hpq; induction s as [|c s IH]; simpl; [reflexivity|].
  intros H; apply andb_true_iff in H as [Hc Hs].
  now rewrite (Hpq _ Hc), IH.
Qed.

Lemma substring_all (s : string) : substring 0 (String.length s) s = s.
Proof. induction s as [|c s IH]; simpl; [reflexivity | now rewrite IH]. Qed.

(** A piece without separator in front of a separator is the first piece
    of the split. *)
Lemma Split_piece (a b : string) :
  TokenSpec.noDash a = true ->
  Split (a ++ String "-" b) "-" = a :: Split b "-".
Proof.
  unfold TokenSpec.noDash.
  induction a as [|c a IH]; simpl; intros H; [reflexivity|].
  apply andb_true_iff in H as [Hc Ha].
  destruct (Ascii.eqb c "-"); [discriminate|].
  now rewrite (IH Ha).
Qed.

Lemma Split_last (a : string) :
  TokenSpec.noDash a = true -> Split a "-" = [a].
Proof.
  unfold TokenSpec.noDash.
  induction a as [|c a IH]; simpl; intros H; [reflexivity|].
  apply andb_true_iff in H as [Hc Ha].
  destruct (Ascii.eqb c "-"); [discriminate|].
  now rewrite (IH Ha).
Qed.

End StringFacts.

(** *** Digits and numbers *)

Section DigitFacts.
Import GoStrings Big TokenSpec.

Ltac each_ascii c := destruct c as [[] [] [] [] [] [] [] []].

Lemma digitChar_digitVal (c : ascii) :
  isLowerAlnum c = true -> digitChar (digitVal c) = c.
Proof. each_ascii c; vm_compute; intros H; solve [reflexivity | discriminate H]. Qed.

Lemma digitVal_nonneg (c : ascii) : 0 <= digitVal c.
Proof. each_ascii c; vm_compute; discriminate. Qed.

Lemma digit_not_dash (base : Z) (c : ascii) :
  isDigitOf base c = true -> negb (Ascii.eqb c "-") = true.
Proof.
  unfold isDigitOf; intros H; apply andb_true_iff in H as [H _]; revert H.
  each_ascii c; vm_compute; intros H; solve [reflexivity | discriminate H].
Qed.

Lemma digit_is_hex (c : ascii) :
  isDigitOf 16 c = true -> Digest.isHex c = true.
Proof. each_ascii c; vm_compute; intros H; solve [reflexivity | discriminate H]. Qed.

Lemma digitChar_small (n : nat) :
  (n < 36)%nat ->
  digitVal (digitChar (Z.of_nat n)) = Z.of_nat n
  /\ isLowerAlnum (digitChar (Z.of_nat n)) = true.
Proof.
  intros Hn.
  do 36 (destruct n as [|n]; [vm_compute; split; reflexivity|]).
  lia.
Qed.

Lemma digitVal_digitChar (base d : Z) :
  base <= 36 -> 0 <= d < base ->
  digitVal (digitChar d) = d /\ isDigitOf base (digitChar d) = true.
Proof.
  intros Hb Hd.
  destruct (digitChar_small (Z.to_nat d)) as [Hv Ha]; [lia|].
  rewrite Z2Nat.id in Hv, Ha by lia.
  split; [exact Hv|].
  unfold isDigitOf; rewrite Ha, Hv; simpl.
  apply Z.ltb_lt; lia.
Qed.

Lemma isDigitOf_val (base : Z) (c : ascii) :
  isDigitOf base c = true -> 0 <= digitVal c < base.
Proof.
  unfold isDigitOf; intros H; apply andb_true_iff in H as [_ H].
  apply Z.ltb_lt in H. pose proof (digitVal_nonneg c). lia.
Qed.

(** A string of digits is scanned to its end. *)
Lemma scanDigits_digits (base : Z) (s : string) (acc : Z) (count : nat) :
  allBytes (isDigitOf base) s = true ->
  scanDigits base s acc count
  = (valueFrom base s acc, (count + String.length s)%nat, EmptyString).
Proof.
  revert acc count; induction s as [|c s IH]; simpl; intros acc count H.
  - now rewrite Nat.add_0_r.
  - apply andb_true_iff in H as [Hc Hs].
    apply isDigitOf_val in Hc.
    destruct (base <=? digitVal c) eqn:E; [apply Z.leb_le in E; lia|].
    rewrite (IH _ _ Hs). now rewrite Nat.add_succ_r.
Qed.

Lemma SetString_digits (base : Z) (s : string) :
  allBytes (isDigitOf base) s = true -> s <> EmptyString ->
  SetString s base = (valueFrom base s 0, true).
Proof.
  intros H Hne. destruct s as [|c s]; [congruence|].
  unfold SetString, scanSign.
  assert (Hc : isDigitOf base c = true)
    by (simpl in H; now apply andb_true_iff in H as [Hc _]).
  assert (Hd : Ascii.eqb c "-" = false).
  { apply digit_not_dash in Hc. now destruct (Ascii.eqb c "-"). }
  assert (Hp : Ascii.eqb c "+" = false).
  { unfold isDigitOf in Hc; apply andb_true_iff in Hc as [Hc _]; revert Hc.
    clear; each_ascii c; vm_compute; intros H; solve [reflexivity | discriminate H]. }
  rewrite Hd, Hp, (scanDigits_digits _ _ _ _ H). reflexivity.
Qed.

(** The value is positional: continuing from [acc] shifts [acc] by the
    number of digits. *)
Lemma valueFrom_shift (base : Z) (s : string) (acc : Z) :
  valueFrom base s acc
  = acc * base ^ Z.of_nat (String.length s) + valueFrom base s 0.
Proof.
  revert acc; induction s as [|c s IH]; intros acc.
  - simpl; lia.
  - cbn [valueFrom String.length].
    rewrite (IH (acc * base + digitVal c)), (IH (0 * base + digitVal c)).
    rewrite Nat2Z.inj_succ, Z.pow_succ_r by lia. ring.
Qed.

Lemma valueFrom_bound (base : Z) (s : string) :
  1 <= base -> allBytes (isDigitOf base) s = true ->
  0 <= valueFrom base s 0 < base ^ Z.of_nat (String.length s).
Proof.
  intros Hb; induction s as [|c s IH]; intros H.
  - simpl; lia.
  - cbn [allBytes] in H; apply andb_true_iff in H as [Hc Hs].
    apply isDigitOf_val in Hc. specialize (IH Hs).
    cbn [valueFrom String.length].
    rewrite valueFrom_shift, Nat2Z.inj_succ, Z.pow_succ_r by lia.
    assert (0 < base ^ Z.of_nat (String.length s)) by (apply Z.pow_pos_nonneg; lia).
    nia.
Qed.

(** Two digit strings of one length that denote one number are equal. *)
Lemma valueFrom_inj (base : Z) (s t : string) :
  1 <= base ->
  String.length s = String.length t ->
  allBytes (isDigitOf base) s = true -> allBytes (isDigitOf base) t = true ->
  valueFrom base s 0 = valueFrom base t 0 -> s = t.
Proof.
  intros Hb; revert t; induction s as [|c s IH]; intros [|d t] Hlen Hs Ht Hv;
    try discriminate Hlen; [reflexivity|].
  cbn [allBytes] in Hs, Ht.
  apply andb_true_iff in Hs as [Hc Hs]; apply andb_true_iff in Ht as [Hd Ht].
  injection Hlen as Hlen.
  cbn [valueFrom] in Hv.
  rewrite (valueFrom_shift base s), (valueFrom_shift base t), <- Hlen in Hv.
  pose proof (valueFrom_bound base s Hb Hs) as Bs.
  pose proof (valueFrom_bound base t Hb Ht) as Bt.
  rewrite <- Hlen in Bt.
  pose proof (isDigitOf_val _ _ Hc) as Vc; pose proof (isDigitOf_val _ _ Hd) as Vd.
  assert (digitVal c = digitVal d /\ valueFrom base s 0 = valueFrom base t 0) as [Ec Ev].
  { apply (Z.div_mod_unique (base ^ Z.of_nat (String.length s))); [left; lia | left; lia | lia]. }
  f_equal.
  - unfold isDigitOf in Hc, Hd.
    apply andb_true_iff in Hc as [Hc _]; apply andb_true_iff in Hd as [Hd _].
    rewrite <- (digitChar_digitVal c Hc), <- (digitChar_digitVal d Hd). now rewrite Ec.
  - now apply IH.
Qed.

End DigitFacts.

(** *** Printing a number and reading it back *)

Section TextFacts.
Import GoStrings Big TokenSpec.

Variable base : Z.
Hypothesis base_lo : 2 <= base.
Hypothesis base_hi : base <= 36.

Lemma utoa_digits (fuel : nat) (n : Z) (acc : string) :
  0 <= n -> allBytes (isDigitOf base) acc = true ->
  allBytes (isDigitOf base) (utoa fuel base n acc) = true.
Proof.
  revert n acc; induction fuel as [|f IH]; intros n acc Hn Hacc; [exact Hacc|].
  cbn [utoa].
  assert (Hd : isDigitOf base (digitChar (n mod base)) = true).
  { apply digitVal_digitChar; [lia | apply Z.mod_pos_bound; lia]. }
  destruct (n / base =? 0).
  - cbn [allBytes]. now rewrite Hd, Hacc.
  - apply IH; [apply Z.div_pos; lia|]. cbn [allBytes]. now rewrite Hd, Hacc.
Qed.

Lemma utoa_value (fuel : nat) (n : Z) (acc : string) :
  0 <= n < 2 ^ Z.of_nat fuel ->
  valueFrom base (utoa fuel base n acc) 0 = valueFrom base acc n.
Proof.
  revert n acc; induction fuel as [|f IH]; intros n acc Hn.
  - simpl in Hn. assert (n = 0) by lia. now subst.
  - cbn [utoa].
    pose proof (Z.mod_pos_bound n base ltac:(lia)) as Hm.
    pose proof (Z.div_mod n base ltac:(lia)) as Hdm.
    destruct (digitVal_digitChar base (n mod base) base_hi Hm) as [Hv _].
    destruct (n / base =? 0) eqn:E.
    + apply Z.eqb_eq in E. cbn [valueFrom]. rewrite Hv. f_equal. lia.
    + rewrite IH.
      * cbn [valueFrom]. rewrite Hv. f_equal. lia.
      * split; [apply Z.div_pos; lia|].
        apply Z.div_lt_upper_bound; [lia|].
        rewrite Nat2Z.inj_succ, Z.pow_succ_r in Hn by lia.
        assert (0 < 2 ^ Z.of_nat f) by (apply Z.pow_pos_nonneg; lia). nia.
Qed.

Lemma utoa_length (fuel : nat) (n : Z) (acc : string) (k : nat) :
  0 < n < base ^ Z.of_nat k ->
  (String.length (utoa fuel base n acc) <= k + String.length acc)%nat.
Proof.
  revert n acc k; induction fuel as [|f IH]; intros n acc k Hn; [simpl; lia|].
  cbn [utoa].
  destruct k as [|k]; [simpl in Hn; lia|].
  destruct (n / base =? 0) eqn:E; [simpl; lia|].
  apply Z.eqb_neq in E.
  assert (0 <= n / base) by (apply Z.div_pos; lia).
  specialize (IH (n / base) (String (digitChar (n mod base)) acc) k).
  cbn [String.length] in IH.
  rewrite Nat2Z.inj_succ, Z.pow_succ_r in Hn by lia.
  assert (n / base < base ^ Z.of_nat k) by (apply Z.div_lt_upper_bound; lia).
  specialize (IH ltac:(lia)). lia.
Qed.

Lemma digitsFuel_enough (n : Z) : 0 < n -> n < 2 ^ Z.of_nat (digitsFuel n).
Proof.
  intros Hn. unfold digitsFuel.
  rewrite Nat2Z.inj_succ, Z2Nat.id by apply Z.log2_nonneg.
  apply Z.log2_spec; exact Hn.
Qed.

(** [Text] of a natural number: digits of the base, the number as their
    value, and no more digits than the number needs. *)
Lemma Text_digits (n : Z) :
  0 <= n -> allBytes (isDigitOf base) (Text n base) = true.
Proof.
  intros Hn. unfold Text.
  destruct (n =? 0) eqn:E.
  - cbn [allBytes]. rewrite andb_true_r. apply (digitVal_digitChar base 0); lia.
  - apply Z.eqb_neq in E.
    destruct (n <? 0) eqn:L; [apply Z.ltb_lt in L; lia|].
    now apply utoa_digits.
Qed.

Lemma Text_value (n : Z) : 0 <= n -> valueFrom base (Text n base) 0 = n.
Proof.
  intros Hn. unfold Text.
  destruct (n =? 0) eqn:E.
  - apply Z.eqb_eq in E; subst. reflexivity.
  - apply Z.eqb_neq in E.
    destruct (n <? 0) eqn:L; [apply Z.ltb_lt in L; lia|].
    rewrite utoa_value; [reflexivity|].
    pose proof (digitsFuel_enough n); lia.
Qed.

Lemma Text_length (n : Z) (k : nat) :
  0 <= n < base ^ Z.of_nat k -> (0 < k)%nat ->
  (String.length (Text n base) <= k)%nat.
Proof.
  intros Hn Hk. unfold Text.
  destruct (n =? 0) eqn:E; [simpl; lia|].
  apply Z.eqb_neq in E.
  destruct (n <? 0) eqn:L; [apply Z.ltb_lt in L; lia|].
  pose proof (utoa_length (digitsFuel n) n EmptyString k ltac:(lia)) as H.
  cbn [String.length] in H. now rewrite Nat.add_0_r in H.
Qed.

(** Zero padding keeps the digits and the value, and fills the width. *)
Lemma SprintfPad0_digits (w : Z) (s : string) :
  allBytes (isDigitOf base) s = true ->
  allBytes (isDigitOf base) (SprintfPad0 w s) = true.
Proof.
  intros H. unfold SprintfPad0. rewrite allBytes_app, H, andb_true_r.
  apply allBytes_repeatByte. apply (digitVal_digitChar base 0); lia.
Qed.

Lemma valueFrom_zeros (k : nat) (s : string) :
  valueFrom base (repeatByte "0" k ++ s) 0 = valueFrom base s 0.
Proof. induction k as [|k IH]; [reflexivity | exact IH]. Qed.

Lemma SprintfPad0_value (w : Z) (s : string) :
  valueFrom base (SprintfPad0 w s) 0 = valueFrom base s 0.
Proof. apply valueFrom_zeros. Qed.

Lemma SprintfPad0_length (w : nat) (s : string) :
  (String.length s <= w)%nat ->
  String.length (SprintfPad0 (Z.of_nat w) s) = w.
Proof.
  intros H. unfold SprintfPad0. rewrite string_length_app, length_repeatByte. lia.
Qed.

(** A number below [base ^ w] printed and padded to [w] digits: [w] digits
    of the base that read back as the number. *)
Lemma pad_Text (n : Z) (w : nat) :
  0 <= n < base ^ Z.of_nat w -> (0 < w)%nat ->
  let s := SprintfPad0 (Z.of_nat w) (Text n base) in
  String.length s = w
  /\ allBytes (isDigitOf base) s = true
  /\ SetString s base = (n, true).
Proof.
  intros Hn Hw s.
  assert (Hl : String.length s = w)
    by (apply SprintfPad0_length, Text_length; assumption).
  assert (Hd : allBytes (isDigitOf base) s = true)
    by (apply SprintfPad0_digits, Text_digits; lia).
  repeat split; try assumption.
  rewrite SetString_digits; [|exact Hd|].
  - unfold s. rewrite SprintfPad0_value, Text_value by lia. reflexivity.
  - intros E. rewrite E in Hl. simpl in Hl. lia.
Qed.

(** Printing the value of [w] digits and padding to [w] gives the digits
    back, leading zeros included. *)
Lemma pad_Text_valueFrom (s : string) :
  allBytes (isDigitOf base) s = true -> s <> EmptyString ->
  SprintfPad0 (Z.of_nat (String.length s)) (Text (valueFrom base s 0) base) = s.
Proof.
  intros Hd Hne.
  pose proof (valueFrom_bound base s ltac:(lia) Hd) as Hb.
  assert (Hw : (0 < String.length s)%nat) by (destruct s; [congruence | simpl; lia]).
  destruct (pad_Text _ _ Hb Hw) as (Hl & Hd' & _).
  apply (valueFrom_inj base); try assumption; [lia|].
  rewrite SprintfPad0_value, Text_value by lia. reflexivity.
Qed.

End TextFacts.

(** *** Join tokens *)

Section TokenFacts.
Import GoStrings Big TokenSpec Token.

Lemma SetBytes_from (buf : list byte) (acc : Z) :
  0 <= acc ->
  0 <= fold_left (fun a b => a * 256 + Z.of_N (Byte.to_N b)) buf acc
    < (acc + 1) * 256 ^ Z.of_nat (List.length buf).
Proof.
  revert acc; induction buf as [|b buf IH]; intros acc Hacc.
  - simpl; lia.
  - cbn [fold_left List.length].
    pose proof (Byte.to_N_bounded b) as Hb.
    specialize (IH (acc * 256 + Z.of_N (Byte.to_N b)) ltac:(lia)).
    rewrite Nat2Z.inj_succ, Z.pow_succ_r by lia.
    assert (0 < 256 ^ Z.of_nat (List.length buf)) by (apply Z.pow_pos_nonneg; lia).
    nia.
Qed.

Lemma SetBytes_bound (buf : list byte) :
  0 <= SetBytes buf < 256 ^ Z.of_nat (List.length buf).
Proof.
  pose proof (SetBytes_from buf 0 ltac:(lia)) as H.
  unfold SetBytes. lia.
Qed.

Lemma Hex_sha256 (hex : string) : Digest.Hex ("sha256:" ++ hex) = Some hex.
Proof.
  unfold Digest.Hex. simpl. now rewrite Nat.sub_0_r, substring_all.
Qed.

Lemma Validate_sha256 (hex : string) :
  isSHA256Hex hex = true -> Digest.Validate ("sha256:" ++ hex) = None.
Proof.
  unfold isSHA256Hex. intros H; apply andb_true_iff in H as [Hl Hd].
  apply Nat.eqb_eq in Hl.
  assert (Hh : allBytes Digest.isHex hex = true)
    by (revert Hd; apply allBytes_impl, digit_is_hex).
  unfold Digest.Validate, Digest.DigestRegexpAnchored.
  simpl. rewrite Nat.sub_0_r, substring_all, Hh, Hl. reflexivity.
Qed.

(** What [GenerateJoinToken] returns for a digest in canonical form. *)
Lemma GenerateJoinToken_canonical (secretBytes : list byte) (rootCA : CA.RootCA)
    (hex : string) :
  CA.Digest rootCA = ("sha256:" ++ hex)%string ->
  GenerateJoinToken secretBytes rootCA
  = Some ("SWMTKN-1-"
          ++ SprintfPad0 50 (Text (fst (SetString hex 16)) 36)
          ++ "-"
          ++ SprintfPad0 25 (Text (SetBytes secretBytes) 36))%string.
Proof. intros H. unfold GenerateJoinToken. now rewrite H, Hex_sha256. Qed.

Lemma pow_16_64_lt_36_50 : 16 ^ 64 < 36 ^ 50.
Proof. reflexivity. Qed.

Lemma pow_256_16_lt_36_25 : 256 ^ 16 < 36 ^ 25.
Proof. reflexivity. Qed.

Lemma SetString_hex64 (hex : string) :
  isSHA256Hex hex = true ->
  SetString hex 16 = (valueFrom 16 hex 0, true)
  /\ 0 <= valueFrom 16 hex 0 < 16 ^ 64.
Proof.
  unfold isSHA256Hex. intros H; apply andb_true_iff in H as [Hl Hd].
  apply Nat.eqb_eq in Hl. split.
  - apply SetString_digits; [exact Hd|]. intros E; now rewrite E in Hl.
  - pose proof (valueFrom_bound 16 hex ltac:(lia) Hd) as Hb.
    now rewrite Hl in Hb.
Qed.

(** Claim C1: for every root CA whose digest is a SHA-256 digest in the
    canonical form, whatever its hex digits (leading zeros included) and
    whatever the random secret, [GenerateJoinToken] returns a token that
    [getCAHashFromToken] decodes without error to exactly that digest. *)
Theorem join_token_digest_roundtrip (secretBytes : list byte) (rootCA : CA.RootCA) :
  canonicalDigest (CA.Digest rootCA) ->
  exists token,
    GenerateJoinToken secretBytes rootCA = Some token
    /\ getCAHashFromToken token = (CA.Digest rootCA, None).
Proof.
  intros (hex & Hdigest & Hhex).
  rewrite (GenerateJoinToken_canonical _ _ _ Hdigest), Hdigest.
  eexists; split; [reflexivity|].
  destruct (SetString_hex64 hex Hhex) as [-> Hn]. cbn [fst].
  set (n := valueFrom 16 hex 0) in *.
  destruct (pad_Text 36 ltac:(lia) ltac:(lia) n 50
              ltac:(pose proof pow_16_64_lt_36_50; simpl Z.of_nat; lia) ltac:(lia))
    as (_ & Hd & Hset).
  pose proof (SetBytes_bound secretBytes) as Hs.
  assert (Hsec : noDash (SprintfPad0 25 (Text (SetBytes secretBytes) 36)) = true).
  { apply (allBytes_impl (isDigitOf 36)); [apply digit_not_dash|].
    apply SprintfPad0_digits, Text_digits; lia. }
  assert (Hdig : noDash (SprintfPad0 50 (Text n 36)) = true).
  { revert Hd. simpl Z.of_nat. apply allBytes_impl, digit_not_dash. }
  unfold getCAHashFromToken.
  change ("SWMTKN-1-" ++ ?x)%string with ("SWMTKN" ++ String "-" ("1" ++ String "-" x))%string.
  rewrite Split_piece by reflexivity.
  rewrite Split_piece by reflexivity.
  change (?a ++ "-" ++ ?b)%string with (a ++ String "-" b)%string.
  rewrite Split_piece by exact Hdig.
  rewrite Split_last by exact Hsec.
  cbn [String.eqb negb orb]. simpl (_ || _).
  simpl Z.of_nat in Hset. unfold joinTokenBase. rewrite Hset. cbn [fst].
  unfold isSHA256Hex in Hhex. apply andb_true_iff in Hhex as [Hl Hd16].
  apply Nat.eqb_eq in Hl.
  pose proof (pad_Text_valueFrom 16 ltac:(lia) ltac:(lia) hex Hd16) as Hback.
  rewrite Hl in Hback. simpl Z.of_nat in Hback. fold n in Hback.
  rewrite Hback by (intros E; now rewrite E in Hl).
  unfold Digest.ParseDigest. rewrite Validate_sha256; [reflexivity|].
  unfold isSHA256Hex. now rewrite Hl, Hd16.
Qed.

Lemma join_token_digest_roundtrip_witness :
  canonicalDigest (CA.Digest CASamples.root)
  /\ exists token,
       GenerateJoinToken Samples.secret CASamples.root = Some token
       /\ getCAHashFromToken token = (CA.Digest CASamples.root, None).
Proof.
  assert (H : canonicalDigest (CA.Digest CASamples.root))
    by (eexists; split; [reflexivity | vm_compute; reflexivity]).
  split; [exact H | exact (join_token_digest_roundtrip Samples.secret CASamples.root H)].
Defined.

(** Claim C2 (evaluation of the code at the failing input): a token whose
    digest segment is the single byte [!], which is no base-36 digit,
    is decoded without error, to the digest of 64 zeros.  [SetString]
    reports the failure and [getCAHashFromToken] drops the report. *)
Theorem token_with_bad_digest_segment_is_accepted :
  Big.SetString "!" joinTokenBase = (0, false)
  /\ getCAHashFromToken "SWMTKN-1-!-x"
     = ("sha256:0000000000000000000000000000000000000000000000000000000000000000",
        None).
Proof. split; vm_compute; reflexivity. Qed.

(** Claim C3, as stated, fails: the token generated for the sample digest
    and secret has the two segments of 50 and 25 characters, and is 85
    characters long, not 83. *)
Lemma join_token_is_not_83_long :
  canonicalDigest (CA.Digest CASamples.root)
  /\ List.length Samples.secret = 16%nat
  /\ GenerateJoinToken Samples.secret CASamples.root
     = Some "SWMTKN-1-00kehup0t9bj9qmxvkobedab79cs9i2wwdx0a09kfdmh1v851r-000avh9he7dy896m08s18ue4f"
  /\ String.length
       "SWMTKN-1-00kehup0t9bj9qmxvkobedab79cs9i2wwdx0a09kfdmh1v851r-000avh9he7dy896m08s18ue4f"
     = 85%nat
  /\ 85%nat <> 83%nat.
Proof.
  split; [eexists; split; [reflexivity | vm_compute; reflexivity]|].
  repeat split; try (vm_compute; reflexivity). discriminate.
Qed.

(** Claim C3, amended: for a canonical digest and sixteen secret bytes
    the token is [SWMTKN-1-<digest>-<secret>] with a digest segment of
    exactly 50 and a secret segment of exactly 25 lower-case base-36
    digits, and the whole token is exactly 85 characters long. *)
Theorem join_token_shape (secretBytes : list byte) (rootCA : CA.RootCA) :
  canonicalDigest (CA.Digest rootCA) ->
  List.length secretBytes = Z.to_nat generatedSecretEntropyBytes ->
  exists dseg sseg,
    GenerateJoinToken secretBytes rootCA
    = Some ("SWMTKN-1-" ++ dseg ++ "-" ++ sseg)%string
    /\ String.length dseg = 50%nat /\ allBytes (isDigitOf 36) dseg = true
    /\ String.length sseg = 25%nat /\ allBytes (isDigitOf 36) sseg = true
    /\ String.length ("SWMTKN-1-" ++ dseg ++ "-" ++ sseg)%string = 85%nat.
Proof.
  intros (hex & Hdigest & Hhex) Hlen.
  rewrite (GenerateJoinToken_canonical _ _ _ Hdigest).
  destruct (SetString_hex64 hex Hhex) as [-> Hn]. cbn [fst].
  pose proof (SetBytes_bound secretBytes) as Hs. rewrite Hlen in Hs.
  destruct (pad_Text 36 ltac:(lia) ltac:(lia) (valueFrom 16 hex 0) 50
              ltac:(pose proof pow_16_64_lt_36_50; simpl Z.of_nat; lia) ltac:(lia))
    as (Hl1 & Hd1 & _).
  destruct (pad_Text 36 ltac:(lia) ltac:(lia) (SetBytes secretBytes) 25
              ltac:(pose proof pow_256_16_lt_36_25; simpl Z.of_nat in *; lia) ltac:(lia))
    as (Hl2 & Hd2 & _).
  simpl Z.of_nat in *.
  do 2 eexists. split; [reflexivity|].
  repeat split; try assumption.
  cbn [append String.length]. rewrite string_length_app, Hl1. cbn [append String.length]. now rewrite Hl2.
Qed.

Lemma join_token_shape_witness :
  exists dseg sseg,
    GenerateJoinToken Samples.secret CASamples.root
    = Some ("SWMTKN-1-" ++ dseg ++ "-" ++ sseg)%string
    /\ String.length dseg = 50%nat /\ allBytes (isDigitOf 36) dseg = true
    /\ String.length sseg = 25%nat /\ allBytes (isDigitOf 36) sseg = true
    /\ String.length ("SWMTKN-1-" ++ dseg ++ "-" ++ sseg)%string = 85%nat.
Proof.
  apply (join_token_shape Samples.secret CASamples.root).
  - eexists; split; [reflexivity | vm_compute; reflexivity].
  - reflexivity.
Defined.

End TokenFacts.

(** *** The root CA slot *)

Section RootSlotFacts.
Import CA GoTime.

Variable RoleAuthorizations : Type.
Variable NewRootCA :
  list byte -> list byte -> Duration -> list (string * RoleAuthorizations) ->
  RootCA * option error.

(** Claim C10: when constructing the new root CA fails, [UpdateRootCA]
    returns that error and leaves the security configuration, and so what
    [RootCA()] returns afterwards, exactly as it was; hence the root is
    replaced only when the construction succeeds. *)
Theorem UpdateRootCA_atomic_on_error (s : SecurityConfig) (cert key : list byte)
    (certExpiry : Duration) (auths : list (string * RoleAuthorizations)) (e : error) :
  snd (NewRootCA cert key certExpiry auths) = Some e ->
  UpdateRootCA RoleAuthorizations NewRootCA s cert key certExpiry auths = (s, Some e)
  /\ RootCA_ (fst (UpdateRootCA RoleAuthorizations NewRootCA s cert key certExpiry auths))
     = RootCA_ s.
Proof.
  intros H. unfold UpdateRootCA.
  destruct (NewRootCA cert key certExpiry auths) as [newRoot err].
  simpl in H. subst err. split; reflexivity.
Qed.

(** When the construction succeeds the new root is installed and the
    other three fields are kept. *)
Lemma UpdateRootCA_installs (s : SecurityConfig) (cert key : list byte)
    (certExpiry : Duration) (auths : list (string * RoleAuthorizations)) :
  snd (NewRootCA cert key certExpiry auths) = None ->
  let s' := fst (UpdateRootCA RoleAuthorizations NewRootCA s cert key certExpiry auths) in
  snd (UpdateRootCA RoleAuthorizations NewRootCA s cert key certExpiry auths) = None
  /\ RootCA_ s' = fst (NewRootCA cert key certExpiry auths)
  /\ externalCA s' = externalCA s
  /\ ServerTLSCreds s' = ServerTLSCreds s
  /\ ClientTLSCreds s' = ClientTLSCreds s.
Proof.
  intros H. unfold UpdateRootCA.
  destruct (NewRootCA cert key certExpiry auths) as [newRoot err].
  simpl in H. subst err. simpl. repeat split.
Qed.

End RootSlotFacts.

Lemma UpdateRootCA_atomic_on_error_witness :
  CA.UpdateRootCA unit CASamples.rejectingNewRootCA CASamples.config [] [] 0 []
  = (CASamples.config, Some "failed to decode certificate")
  /\ CA.RootCA_
       (fst (CA.UpdateRootCA unit CASamples.rejectingNewRootCA CASamples.config [] [] 0 []))
     = CA.RootCA_ CASamples.config.
Proof.
  apply (UpdateRootCA_atomic_on_error unit CASamples.rejectingNewRootCA).
  reflexivity.
Defined.

Lemma UpdateRootCA_installs_witness :
  let s' := fst (CA.UpdateRootCA unit CASamples.acceptingNewRootCA CASamples.config
                   [x01] [] 0 []) in
  snd (CA.UpdateRootCA unit CASamples.acceptingNewRootCA CASamples.config [x01] [] 0 [])
  = None
  /\ CA.RootCA_ s' = fst (CASamples.acceptingNewRootCA [x01] [] 0 [])
  /\ CA.externalCA s' = CA.externalCA CASamples.config
  /\ CA.ServerTLSCreds s' = CA.ServerTLSCreds CASamples.config
  /\ CA.ClientTLSCreds s' = CA.ClientTLSCreds CASamples.config.
Proof.
  apply (UpdateRootCA_installs unit CASamples.acceptingNewRootCA).
  reflexivity.
Defined.

(** *** The signing policy *)

Section PolicyFacts.
Import CA GoTime.

Lemma wrap64_small (x : Z) : minDuration <= x <= maxDuration -> wrap64 x = x.
Proof.
  unfold wrap64, minDuration, maxDuration. intros H.
  rewrite Z.mod_small; lia.
Qed.

(** Claim C6, as stated, fails: with a backdate of one hour and a
    requested expiry of 90 days, the certificate issued at instant [now] has
    [NotBefore = now - backdate], but its window is one hour longer than
    the requested expiry. *)
Lemma issued_window_is_longer_than_expiry :
  let expiry := 2160 * Hour in
  let now := 1467331200 * Second in
  let policy :=
    SigningPolicy CASamples.MinNodeCertExpiration
      CASamples.DefaultNodeCertExpiration CASamples.CertBackdate expiry in
  let v := issuedValidity now (Default policy) in
  CASamples.MinNodeCertExpiration <= expiry
  /\ NotBefore v = now - CASamples.CertBackdate
  /\ NotAfter v - NotBefore v = expiry + 1 * Hour
  /\ NotAfter v - NotBefore v <> expiry.
Proof. vm_compute. repeat split; discriminate. Qed.

(** Claim C6, amended: for an expiry of at least [MinNodeCertExpiration]
    (and such that adding the backdate stays within an [int64]), the policy
    carries the backdate and the expiry plus the backdate, so that a
    certificate issued under it at [now] has [NotBefore = now - backdate]
    and [NotAfter - NotBefore = expiry + backdate], that is,
    [NotAfter = now + expiry]. *)
Theorem issued_window_of_SigningPolicy
    (MinNodeCertExpiration DefaultNodeCertExpiration CertBackdate : Duration)
    (now : Time) (expiry : Duration) :
  MinNodeCertExpiration <= expiry ->
  minDuration <= expiry + CertBackdate <= maxDuration ->
  let policy :=
    SigningPolicy MinNodeCertExpiration DefaultNodeCertExpiration CertBackdate expiry in
  let v := issuedValidity now (Default policy) in
  Backdate (Default policy) = CertBackdate
  /\ Expiry (Default policy) = expiry + CertBackdate
  /\ NotBefore v = now - CertBackdate
  /\ NotAfter v - NotBefore v = expiry + CertBackdate
  /\ NotAfter v = now + expiry.
Proof.
  intros Hmin Hfit. cbv zeta. unfold SigningPolicy, issuedValidity. cbn.
  destruct (expiry <? MinNodeCertExpiration) eqn:E;
    [apply Z.ltb_lt in E; lia|].
  rewrite wrap64_small by exact Hfit.
  repeat split; lia.
Qed.

Lemma issued_window_of_SigningPolicy_witness :
  let policy :=
    SigningPolicy CASamples.MinNodeCertExpiration
      CASamples.DefaultNodeCertExpiration CASamples.CertBackdate (2160 * Hour) in
  let v := issuedValidity (1467331200 * Second) (Default policy) in
  Backdate (Default policy) = CASamples.CertBackdate
  /\ Expiry (Default policy) = 2160 * Hour + CASamples.CertBackdate
  /\ NotBefore v = 1467331200 * Second - CASamples.CertBackdate
  /\ NotAfter v - NotBefore v = 2160 * Hour + CASamples.CertBackdate
  /\ NotAfter v = 1467331200 * Second + 2160 * Hour.
Proof.
  apply (issued_window_of_SigningPolicy
           CASamples.MinNodeCertExpiration CASamples.DefaultNodeCertExpiration
           CASamples.CertBackdate (1467331200 * Second) (2160 * Hour));
    vm_compute; try split; discriminate.
Defined.

End PolicyFacts.

(** *** Rounding to nearest in binary64

    Rounding a value that lies between two numbers of a binary grid, on
    which the floats near it lie too, gives a float between the same two
    numbers. *)

Section RoundingFacts.
Import Float64.

Ltac hide_pows :=
  repeat match goal with
         | |- context [2 ^ ?x] =>
             let v := fresh "pw" in set (v := 2 ^ x) in *; clearbody v
         | H : context [2 ^ ?x] |- _ =>
             let v := fresh "pw" in set (v := 2 ^ x) in *; clearbody v
         end.

Lemma digits2_pos_bounds (p : positive) :
  2 ^ (Zpos (digits2_pos p) - 1) <= Zpos p < 2 ^ Zpos (digits2_pos p).
Proof.
  induction p as [p IH|p IH|]; cbn [digits2_pos].
  - rewrite Pos2Z.inj_succ.
    replace (Z.succ (Zpos (digits2_pos p)) - 1) with (Z.succ (Zpos (digits2_pos p) - 1)) by lia.
    rewrite !Z.pow_succ_r by lia. hide_pows. lia.
  - rewrite Pos2Z.inj_succ.
    replace (Z.succ (Zpos (digits2_pos p)) - 1) with (Z.succ (Zpos (digits2_pos p) - 1)) by lia.
    rewrite !Z.pow_succ_r by lia. hide_pows. lia.
  - change (1 <= 1 < 2). lia.
Qed.

Lemma Zdigits2_le (m k : Z) : 0 <= m -> 0 <= k -> m < 2 ^ k -> Zdigits2 m <= k.
Proof.
  intros Hm Hk H. destruct m as [|p|p]; cbn [Zdigits2]; try lia.
  pose proof (digits2_pos_bounds p) as [Hlo _].
  destruct (Z.le_gt_cases (Zpos (digits2_pos p)) k) as [L|L]; [exact L|].
  assert (2 ^ k <= 2 ^ (Zpos (digits2_pos p) - 1)) by (apply Z.pow_le_mono_r; lia).
  lia.
Qed.

Lemma iter_pos_nat {A} (f : A -> A) (p : positive) (x : A) :
  iter_pos f p x = Nat.iter (Pos.to_nat p) f x.
Proof.
  revert x; induction p as [p IH|p IH|]; intros x; cbn [iter_pos].
  - rewrite !IH, Pos2Nat.inj_xI.
    replace (S (2 * Pos.to_nat p)) with (Pos.to_nat p + (Pos.to_nat p + 1))%nat by lia.
    rewrite !Nat.iter_add. reflexivity.
  - rewrite !IH, Pos2Nat.inj_xO.
    replace (2 * Pos.to_nat p)%nat with (Pos.to_nat p + Pos.to_nat p)%nat by lia.
    rewrite Nat.iter_add. reflexivity.
  - reflexivity.
Qed.

Lemma shr_1_spec (mrs : shr_record) :
  0 <= shr_m mrs ->
  shr_m (shr_1 mrs) = shr_m mrs / 2
  /\ inexact (shr_1 mrs) = Z.odd (shr_m mrs) || inexact mrs.
Proof.
  destruct mrs as [m r s]. unfold inexact. cbn [shr_m shr_r shr_s shr_1].
  intros Hm. destruct m as [|[p|p|]|p]; cbn [shr_m shr_r shr_s]; try lia.
  - split; reflexivity.
  - split; [apply (Z.div_unique _ _ _ 1); lia|].
    reflexivity.
  - split; [apply (Z.div_unique _ _ _ 0); lia|].
    reflexivity.
  - split; reflexivity.
Qed.

Lemma shr_iter_spec (n : nat) (mrs : shr_record) :
  0 <= shr_m mrs ->
  shr_m (Nat.iter n shr_1 mrs) = shr_m mrs / 2 ^ Z.of_nat n
  /\ inexact (Nat.iter n shr_1 mrs)
     = negb (shr_m mrs mod 2 ^ Z.of_nat n =? 0) || inexact mrs.
Proof.
  intros Hm. induction n as [|n [IH1 IH2]].
  - cbn. rewrite Z.div_1_r, Z.mod_1_r. split; reflexivity.
  - change (Nat.iter (S n) shr_1 mrs) with (shr_1 (Nat.iter n shr_1 mrs)).
    assert (Hp : 0 < 2 ^ Z.of_nat n) by (apply Z.pow_pos_nonneg; lia).
    assert (H0 : 0 <= shr_m (Nat.iter n shr_1 mrs)).
    { rewrite IH1. apply Z.div_pos; lia. }
    destruct (shr_1_spec _ H0) as [S1 S2].
    rewrite Nat2Z.inj_succ, Z.pow_succ_r by lia. split.
    + rewrite S1, IH1, Z.div_div by lia. f_equal. lia.
    + rewrite S2, IH1, IH2.
      replace (2 * 2 ^ Z.of_nat n) with (2 ^ Z.of_nat n * 2) by lia.
      rewrite Z.rem_mul_r by lia.
      set (q := shr_m mrs / 2 ^ Z.of_nat n).
      pose proof (Z.mod_pos_bound (shr_m mrs) (2 ^ Z.of_nat n) Hp) as Hr.
      set (r := shr_m mrs mod 2 ^ Z.of_nat n) in *.
      rewrite orb_assoc. f_equal.
      rewrite <- Z.negb_even, Zeven_mod.
      pose proof (Z.mod_pos_bound q 2 ltac:(lia)) as Hq.
      destruct (Z.eqb_spec (q mod 2) 0) as [E|E];
        destruct (Z.eqb_spec r 0) as [E'|E'];
        destruct (Z.eqb_spec (r + 2 ^ Z.of_nat n * (q mod 2)) 0) as [E''|E''];
        try reflexivity; exfalso; nia.
Qed.

Lemma loc_of_shr_record_slack (mrs : shr_record) :
  slack (loc_of_shr_record mrs) = if inexact mrs then 1 else 0.
Proof. destruct mrs as [m [] []]; reflexivity. Qed.

Lemma inexact_of_loc (m : Z) (l : location) :
  inexact (shr_record_of_loc m l) = match l with loc_Exact => false | _ => true end
  /\ shr_m (shr_record_of_loc m l) = m.
Proof. destruct l as [|[]]; split; reflexivity. Qed.

Lemma round_nearest_even_spec (m : Z) (l : location) :
  m <= round_nearest_even m l <= m + slack l.
Proof.
  destruct l as [|[]]; cbn [round_nearest_even slack]; try lia.
  destruct (Z.even m); lia.
Qed.

Variables g A B : Z.
Hypothesis g_lo : -1074 <= g.
Hypothesis g_hi : g <= 0.
Hypothesis B_hi : B < 2 ^ 53.

Lemma shr_fexp_between (m e : Z) (l : location) :
  0 <= m -> e <= g ->
  A * 2 ^ (g - e) <= m -> m + slack l <= B * 2 ^ (g - e) ->
  let '(mrs, e') := shr_fexp prec emax m e l in
  e' <= g /\ 0 <= shr_m mrs
  /\ A * 2 ^ (g - e') <= shr_m mrs
  /\ shr_m mrs + slack (loc_of_shr_record mrs) <= B * 2 ^ (g - e').
Proof.
  intros Hm He Hlo Hhi. unfold shr_fexp, shr.
  destruct (inexact_of_loc m l) as [Hin Hsm].
  assert (Hsl : slack l = if inexact (shr_record_of_loc m l) then 1 else 0)
    by (rewrite Hin; now destruct l).
  destruct (fexp prec emax (Zdigits2 m + e) - e) as [|n|n] eqn:En.
  - rewrite loc_of_shr_record_slack, <- Hsl, Hsm. repeat split; assumption.
  - set (e' := e + Zpos n).
    assert (He' : e' = fexp prec emax (Zdigits2 m + e)) by (unfold e'; lia).
    assert (Hpow : 0 < 2 ^ (g - e)) by (apply Z.pow_pos_nonneg; lia).
    assert (Hslack : 0 <= slack l) by (destruct l; cbn; lia).
    assert (Hdig : Zdigits2 m <= 53 + g - e).
    { apply Zdigits2_le; [lia | lia |].
      replace (53 + g - e) with (53 + (g - e)) by lia.
      rewrite Z.pow_add_r by lia. nia. }
    assert (Heg : e' <= g).
    { rewrite He'. unfold fexp, emin, prec, emax. lia. }
    rewrite iter_pos_nat.
    destruct (shr_iter_spec (Pos.to_nat n) (shr_record_of_loc m l)) as [S1 S2];
      [rewrite Hsm; exact Hm|].
    rewrite positive_nat_Z, Hsm in S1, S2.
    set (mrs := Nat.iter (Pos.to_nat n) shr_1 (shr_record_of_loc m l)) in *.
    assert (Hn : 0 < 2 ^ Zpos n) by (apply Z.pow_pos_nonneg; lia).
    assert (Hsplit : 2 ^ (g - e) = 2 ^ (g - e') * 2 ^ Zpos n).
    { rewrite <- Z.pow_add_r by lia. f_equal. lia. }
    assert (Hpow' : 0 < 2 ^ (g - e')) by (apply Z.pow_pos_nonneg; lia).
    split; [exact Heg|].
    split; [rewrite S1; apply Z.div_pos; lia|].
    split.
    + rewrite S1. apply Z.div_le_lower_bound; [lia|]. rewrite Hsplit in Hlo. lia.
    + rewrite loc_of_shr_record_slack.
      pose proof (Z.div_mod m (2 ^ Zpos n) ltac:(lia)) as Hdm.
      pose proof (Z.mod_pos_bound m (2 ^ Zpos n) Hn) as Hmod.
      rewrite <- S1 in Hdm. rewrite Hsplit in Hhi.
      destruct (inexact mrs) eqn:Ei.
      * rewrite Hsl in Hhi.
        assert (shr_m mrs * 2 ^ Zpos n < B * 2 ^ (g - e') * 2 ^ Zpos n).
        { destruct (inexact (shr_record_of_loc m l)).
          - lia.
          - rewrite orb_false_r in S2. symmetry in S2.
            apply negb_true_iff, Z.eqb_neq in S2. lia. }
        apply Z.mul_lt_mono_pos_r in H; lia.
      * assert (shr_m mrs * 2 ^ Zpos n <= B * 2 ^ (g - e') * 2 ^ Zpos n) by lia.
        apply Z.mul_le_mono_pos_r in H; lia.
  - rewrite loc_of_shr_record_slack, <- Hsl, Hsm. repeat split; assumption.
Qed.


Lemma binary_round_aux_between (m e : Z) (l : location) :
  0 <= m -> e <= g ->
  A * 2 ^ (g - e) <= m -> m + slack l <= B * 2 ^ (g - e) ->
  between g A B (binary_round_aux prec emax false m e l).
Proof.
  intros Hm He Hlo Hhi. unfold binary_round_aux.
  pose proof (shr_fexp_between m e l Hm He Hlo Hhi) as H1.
  destruct (shr_fexp prec emax m e l) as [mrs' e'].
  destruct H1 as (He' & Hm' & Hlo' & Hhi').
  pose proof (round_nearest_even_spec (shr_m mrs') (loc_of_shr_record mrs')) as Hr.
  set (m2 := round_nearest_even (shr_m mrs') (loc_of_shr_record mrs')) in *.
  pose proof (shr_fexp_between m2 e' loc_Exact ltac:(lia) He' ltac:(lia)
                ltac:(cbn [slack]; lia)) as H2.
  destruct (shr_fexp prec emax m2 e' loc_Exact) as [mrs2 e2].
  destruct H2 as (He2 & Hm2 & Hlo2 & Hhi2).
  assert (Hp : 0 < 2 ^ (g - e2)) by (apply Z.pow_pos_nonneg; lia).
  assert (Hs : 0 <= slack (loc_of_shr_record mrs2))
    by (destruct (loc_of_shr_record mrs2); cbn; lia).
  destruct (shr_m mrs2) as [|p|p] eqn:Ep.
  - cbn [between]. split; [|]; nia.
  - replace (e2 <=? emax - prec) with true
      by (symmetry; apply Z.leb_le; unfold emax, prec; lia).
    cbn [between]. split; [exact He2|]. lia.
  - lia.
Qed.

Lemma shl_align_spec (mx : positive) (ex ex' : Z) :
  snd (shl_align mx ex ex') <= ex
  /\ Zpos (fst (shl_align mx ex ex'))
     = Zpos mx * 2 ^ (ex - snd (shl_align mx ex ex')).
Proof.
  unfold shl_align. destruct (ex' - ex) as [|d|d] eqn:E; cbn [fst snd].
  - rewrite Z.sub_diag. split; lia.
  - rewrite Z.sub_diag. split; lia.
  - split; [lia|].
    replace (ex - ex') with (Zpos d) by lia.
    change (Pos.iter xO mx d) with (shift_pos d mx).
    rewrite shift_pos_correct, Z.pow_pos_fold. lia.
Qed.

Lemma binary_normalize_between (m e : Z) :
  0 <= m -> e <= g ->
  A * 2 ^ (g - e) <= m <= B * 2 ^ (g - e) ->
  between g A B (binary_normalize prec emax m e false).
Proof.
  intros Hm He [Hlo Hhi].
  assert (Hp : 0 < 2 ^ (g - e)) by (apply Z.pow_pos_nonneg; lia).
  destruct m as [|p|p]; cbn [binary_normalize]; [| |lia].
  - cbn [between]. nia.
  - unfold binary_round.
    destruct (shl_align_spec p e (fexp prec emax (Zpos (digits2_pos p) + e)))
      as [Hle Hval].
    destruct (shl_align p e (fexp prec emax (Zpos (digits2_pos p) + e))) as [mz ez].
    cbn [fst snd] in Hle, Hval.
    assert (Hsplit : 2 ^ (g - ez) = 2 ^ (g - e) * 2 ^ (e - ez)).
    { rewrite <- Z.pow_add_r by lia. f_equal. lia. }
    assert (Hq : 0 < 2 ^ (e - ez)) by (apply Z.pow_pos_nonneg; lia).
    apply binary_round_aux_between; [lia | lia | |].
    + rewrite Hsplit, Hval. nia.
    + cbn [slack]. rewrite Hsplit, Hval. nia.
Qed.

End RoundingFacts.

(** *** The operations of [Minutes] and of the two bounds *)

Section OperationFacts.
Import Float64.

Lemma between_weaken (g A B A' B' : Z) (x : spec_float) :
  A' <= A -> B <= B' -> between g A B x -> between g A' B' x.
Proof.
  intros HA HB. destruct x as [s|s| |[] m e]; cbn [between]; try tauto; try lia.
  intros (He & Hlo & Hhi).
  assert (0 <= 2 ^ (g - e)) by (apply Z.pow_nonneg; lia).
  split; [exact He|]. nia.
Qed.

Lemma SFadd_between (g A1 B1 A2 B2 : Z) (x y : spec_float) :
  -1074 <= g -> g <= 0 -> B1 + B2 < 2 ^ 53 ->
  between g A1 B1 x -> between g A2 B2 y ->
  between g (A1 + A2) (B1 + B2) (SFadd prec emax x y).
Proof.
  intros Hg1 Hg2 HB Hx Hy.
  destruct x as [sx|sx| |[] mx ex]; cbn [between] in Hx; try contradiction;
    destruct y as [sy|sy| |[] my ey]; cbn [between] in Hy; try contradiction;
    cbn [SFadd].
  - destruct sx, sy; cbn [between]; lia.
  - apply (between_weaken g A2 B2); [lia | lia | exact Hy].
  - apply (between_weaken g A1 B1); [lia | lia | exact Hx].
  - destruct Hx as (Hex & Hxl & Hxh), Hy as (Hey & Hyl & Hyh).
    set (ez := Z.min ex ey).
    pose proof (shl_align_spec mx ex ez) as [Sx Vx].
    pose proof (shl_align_spec my ey ez) as [Sy Vy].
    assert (Ex : snd (shl_align mx ex ez) = ez).
    { unfold shl_align, ez. destruct (Z.min ex ey - ex) eqn:E; cbn [snd]; lia. }
    assert (Ey : snd (shl_align my ey ez) = ez).
    { unfold shl_align, ez. destruct (Z.min ex ey - ey) eqn:E; cbn [snd]; lia. }
    rewrite Ex in Vx. rewrite Ey in Vy.
    cbn [cond_Zopp]. rewrite Vx, Vy.
    assert (Px : 2 ^ (g - ez) = 2 ^ (g - ex) * 2 ^ (ex - ez))
      by (rewrite <- Z.pow_add_r by lia; f_equal; lia).
    assert (Py : 2 ^ (g - ez) = 2 ^ (g - ey) * 2 ^ (ey - ez))
      by (rewrite <- Z.pow_add_r by lia; f_equal; lia).
    assert (0 < 2 ^ (ex - ez)) by (apply Z.pow_pos_nonneg; lia).
    assert (0 < 2 ^ (ey - ez)) by (apply Z.pow_pos_nonneg; lia).
    apply binary_normalize_between; try lia.
    split.
    + rewrite Z.mul_add_distr_r. rewrite Px at 1. rewrite Py. nia.
    + rewrite Z.mul_add_distr_r. rewrite Px at 1. rewrite Py. nia.
Qed.

Lemma between_coarsen (g g' A B A' B' : Z) (x : spec_float) :
  g <= g' -> A' * 2 ^ (g' - g) <= A -> B <= B' * 2 ^ (g' - g) ->
  between g A B x -> between g' A' B' x.
Proof.
  intros Hg HA HB.
  assert (Pg : 0 < 2 ^ (g' - g)) by (apply Z.pow_pos_nonneg; lia).
  destruct x as [s|s| |[] m e]; cbn [between]; try tauto.
  - nia.
  - intros (He & Hlo & Hhi).
    assert (Pe : 0 < 2 ^ (g - e)) by (apply Z.pow_pos_nonneg; lia).
    assert (Ps : 2 ^ (g' - e) = 2 ^ (g' - g) * 2 ^ (g - e))
      by (rewrite <- Z.pow_add_r by lia; f_equal; lia).
    split; [lia|]. rewrite Ps. nia.
Qed.

Lemma between_refine (g g' A B : Z) (x : spec_float) :
  SpecFloat.valid_binary prec emax x = true ->
  -1074 <= g' -> g' <= g -> B * 2 ^ (g - g') < 2 ^ 53 ->
  between g A B x ->
  between g' (A * 2 ^ (g - g')) (B * 2 ^ (g - g')) x.
Proof.
  intros Hv Hg1 Hg2 HB.
  assert (Pg : 0 < 2 ^ (g - g')) by (apply Z.pow_pos_nonneg; lia).
  destruct x as [s|s| |[] m e]; cbn [between]; try tauto.
  - nia.
  - intros (He & Hlo & Hhi).
    assert (Pe : 0 < 2 ^ (g - e)) by (apply Z.pow_pos_nonneg; lia).
    assert (He' : e <= g').
    { destruct (Z.le_gt_cases e g') as [L|L]; [exact L|]. exfalso.
      cbn [SpecFloat.valid_binary] in Hv. unfold bounded, canonical_mantissa in Hv.
      apply andb_true_iff in Hv as [Hc _]. apply Z.eqb_eq in Hc.
      unfold fexp, emin, prec, emax in Hc.
      assert (Hd : Zpos (digits2_pos m) = 53) by lia.
      pose proof (digits2_pos_bounds m) as [Hm _]. rewrite Hd in Hm.
      change (2 ^ (53 - 1)) with 4503599627370496 in Hm.
      change (2 ^ 53) with 9007199254740992 in HB.
      assert (Ps : 2 ^ (g - g') = 2 ^ (g - e) * 2 ^ (e - g'))
        by (rewrite <- Z.pow_add_r by lia; f_equal; lia).
      assert (P2 : 2 <= 2 ^ (e - g')).
      { change 2 with (2 ^ 1) at 1. apply Z.pow_le_mono_r; lia. }
      nia. }
    assert (Ps : 2 ^ (g - e) = 2 ^ (g - g') * 2 ^ (g' - e))
      by (rewrite <- Z.pow_add_r by lia; f_equal; lia).
    split; [exact He'|]. rewrite <- !Z.mul_assoc, <- Ps. lia.
Qed.

Lemma SFmul_between (g0 g A B A' B' : Z) (x : spec_float) (mk : positive) (ek : Z) :
  -1074 <= g -> g <= 0 -> g0 + ek <= g -> B' < 2 ^ 53 -> 0 <= A ->
  A' * 2 ^ (g - g0 - ek) <= A * Zpos mk ->
  B * Zpos mk <= B' * 2 ^ (g - g0 - ek) ->
  between g0 A B x ->
  between g A' B' (SFmul prec emax x (S754_finite false mk ek)).
Proof.
  intros Hg1 Hg2 Hek HB HA Hlo Hhi Hx.
  assert (Pk : 0 < 2 ^ (g - g0 - ek)) by (apply Z.pow_pos_nonneg; lia).
  destruct x as [sx|sx| |[] mx ex]; cbn [between] in Hx; try contradiction;
    cbn [SFmul].
  - cbn [between]. nia.
  - destruct Hx as (Hex & Hxl & Hxh). cbn [xorb].
    assert (Px : 0 < 2 ^ (g0 - ex)) by (apply Z.pow_pos_nonneg; lia).
    assert (Ps : 2 ^ (g - (ex + ek)) = 2 ^ (g - g0 - ek) * 2 ^ (g0 - ex))
      by (rewrite <- Z.pow_add_r by lia; f_equal; lia).
    apply binary_round_aux_between; try lia.
    + rewrite Ps, Pos2Z.inj_mul. nia.
    + cbn [slack]. rewrite Ps, Pos2Z.inj_mul. nia.
Qed.

End OperationFacts.

Section ValidityFacts.
Import GoTime CA Float64.

Lemma Prim2SF_float64OfInt (n : Z) :
  0 <= n < 2 ^ 63 ->
  Prim2SF (float64OfInt n) = binary_normalize prec emax n 0 false.
Proof.
  intros Hn. unfold float64OfInt. apply Prim2SF_SF2Prim.
  replace n with (Uint63.to_Z (Uint63.of_Z n)).
  - rewrite <- of_uint63_spec. apply Prim2SF_valid.
  - rewrite Uint63.of_Z_spec. apply Z.mod_small. exact Hn.
Qed.

Lemma float64OfInt_between (n : Z) :
  0 <= n < 2 ^ 53 -> between 0 n n (Prim2SF (float64OfInt n)).
Proof.
  intros Hn. rewrite Prim2SF_float64OfInt by lia.
  apply binary_normalize_between; try lia.
Qed.

Lemma Prim2SF_perMinute :
  Prim2SF (float64OfInt (60 * 1000000000)) = perMinute.
Proof. rewrite Prim2SF_float64OfInt by lia. vm_compute. reflexivity. Qed.

Lemma SFdiv_perMinute (n : Z) (x : spec_float) :
  0 <= n < 60000000000 -> between 0 n n x ->
  between (-36) 0 (2 ^ 36 - 1) (SFdiv prec emax x perMinute).
Proof.
  intros Hn Hx. unfold perMinute. change (2 ^ 36 - 1) with 68719476735.
  destruct x as [sx|sx| |[] mx ex]; cbn [between] in Hx; try contradiction;
    cbn [SFdiv].
  - cbn [between]. lia.
  - destruct Hx as (Hex & Hxl & Hxh). rewrite Z.sub_0_l in Hxl, Hxh.
    assert (Px : 0 < 2 ^ (- ex)) by (apply Z.pow_pos_nonneg; lia).
    assert (Hmx : Zpos mx = n * 2 ^ (- ex)) by lia.
    unfold SFdiv_core_binary.
    change (Zdigits2 7864320000000000) with 53.
    set (d1 := Zdigits2 (Zpos mx)).
    assert (Hd1 : d1 + ex <= 36).
    { assert (d1 <= 36 - ex); [|lia].
      apply Zdigits2_le; [lia | lia |].
      replace (36 - ex) with (36 + - ex) by lia. rewrite Z.pow_add_r by lia.
      rewrite Hmx. change (2 ^ 36) with 68719476736. nia. }
    set (e' := Z.min (fexp prec emax (d1 + ex - (53 + -17))) (ex - -17)).
    assert (He' : e' <= -53 /\ e' <= ex + 17).
    { unfold e', fexp, emin, prec, emax. lia. }
    set (s := ex - -17 - e').
    assert (Hs : 0 <= s) by (unfold s; lia).
    set (m' := match s with
               | 0 => Zpos mx
               | Zpos _ => Z.shiftl (Zpos mx) s
               | Zneg _ => 0
               end).
    assert (Hm' : m' = Zpos mx * 2 ^ s).
    { unfold m'. destruct s as [|p|p] eqn:Es; [lia | | lia].
      rewrite Z.shiftl_mul_pow2 by lia. reflexivity. }
    pose proof (Z_div_mod m' 7864320000000000 ltac:(lia)) as Hdiv.
    destruct (Z.div_eucl m' 7864320000000000) as [q r].
    destruct Hdiv as [Hq Hr].
    cbn [xorb].
    set (P := 2 ^ (-36 - e')).
    assert (PP : 0 < P) by (apply Z.pow_pos_nonneg; lia).
    assert (Hval : m' = n * 131072 * (68719476736 * P)).
    { rewrite Hm', Hmx. unfold P.
      change 131072 with (2 ^ 17). change 68719476736 with (2 ^ 36).
      rewrite <- !Z.mul_assoc, <- !Z.pow_add_r by lia.
      do 2 f_equal. unfold s. lia. }
    assert (Hslack : slack (new_location 7864320000000000 r) <= 1)
      by (destruct (new_location 7864320000000000 r); cbn; lia).
    assert (Hps : 0 < Zpos mx * 2 ^ s)
      by (apply Z.mul_pos_pos; [lia | apply Z.pow_pos_nonneg; lia]).
    apply binary_round_aux_between; try lia.
    fold P.
    assert (q < 68719476735 * P); [|lia].
    apply (Z.mul_lt_mono_pos_l 7864320000000000); [lia|].
    nia.
Qed.

Lemma intOfFloat64_between (g A B : Z) (f : float) :
  -1074 <= g -> g <= 0 -> 0 <= A -> B < 2 ^ 53 ->
  between g A B (Prim2SF f) ->
  A / 2 ^ (- g) <= intOfFloat64 f <= B / 2 ^ (- g).
Proof.
  intros Hg1 Hg2 HA HB Hf. unfold intOfFloat64.
  assert (Pg : 0 < 2 ^ (- g)) by (apply Z.pow_pos_nonneg; lia).
  destruct (Prim2SF f) as [s|s| |[] m e]; cbn [between] in Hf; try contradiction.
  - replace A with 0 by lia. rewrite Z.div_0_l by lia.
    split; [lia | apply Z.div_pos; lia].
  - destruct Hf as (He & Hlo & Hhi).
    assert (Pe : 0 < 2 ^ (g - e)) by (apply Z.pow_pos_nonneg; lia).
    assert (Hmag : (if 0 <=? e then Z.shiftl (Zpos m) e else Z.shiftr (Zpos m) (- e))
                   = Zpos m / 2 ^ (- e)).
    { destruct (Z.leb_spec 0 e) as [L|L].
      - replace e with 0 by lia. rewrite Z.shiftl_0_r. cbn. now rewrite Z.div_1_r.
      - apply Z.shiftr_div_pow2. lia. }
    rewrite Hmag.
    assert (Hsplit : 2 ^ (- e) = 2 ^ (g - e) * 2 ^ (- g))
      by (rewrite <- Z.pow_add_r by lia; f_equal; lia).
    rewrite Hsplit, <- Z.div_div by lia.
    assert (H1 : A <= Zpos m / 2 ^ (g - e)) by (apply Z.div_le_lower_bound; lia).
    assert (H2 : Zpos m / 2 ^ (g - e) <= B).
    { apply Z.div_le_upper_bound; lia. }
    set (v := Zpos m / 2 ^ (g - e)) in *.
    assert (H3 : A / 2 ^ (- g) <= v / 2 ^ (- g)) by (apply Z.div_le_mono; lia).
    assert (H4 : v / 2 ^ (- g) <= B / 2 ^ (- g)) by (apply Z.div_le_mono; lia).
    assert (H5 : 0 <= A / 2 ^ (- g)) by (apply Z.div_pos; lia).
    assert (H6 : B / 2 ^ (- g) <= B).
    { apply Z.div_le_upper_bound; [lia|]. nia. }
    cbn [negb].
    replace ((minDuration <=? v / 2 ^ (- g)) && (v / 2 ^ (- g) <=? maxDuration)) with true.
    + lia.
    + symmetry. apply andb_true_iff. unfold minDuration, maxDuration.
      split; apply Z.leb_le; lia.
Qed.

End ValidityFacts.

(** *** The bounds of the renewal in whole minutes *)

Section ValidityBounds.
Import GoTime CA Float64.

Lemma whole_minutes (d : Duration) :
  0 <= d <= maxDuration ->
  Z.quot d Minute = d / Minute /\ Z.rem d Minute = d mod Minute
  /\ 0 <= d / Minute <= maxMinutes /\ 0 <= d mod Minute < 60000000000.
Proof.
  intros Hd. unfold maxDuration, Minute, Second, maxMinutes in *.
  rewrite Z.quot_div_nonneg, Z.rem_mod_nonneg by lia.
  split; [reflexivity|]. split; [reflexivity|].
  pose proof (Z.mod_pos_bound d (60 * 1000000000) ltac:(lia)).
  pose proof (Z.div_mod d (60 * 1000000000) ltac:(lia)).
  change (2 ^ 63 - 1) with 9223372036854775807 in Hd.
  lia.
Qed.

Lemma quotient_between (d : Duration) :
  0 <= d <= maxDuration ->
  between (-36) 0 (2 ^ 36 - 1)
    (SF64div (Prim2SF (float64OfInt (d mod Minute))) perMinute).
Proof.
  intros Hd. destruct (whole_minutes d Hd) as (_ & _ & _ & HN).
  apply (SFdiv_perMinute (d mod Minute)); [lia|].
  apply float64OfInt_between. lia.
Qed.

Lemma Minutes_between (d : Duration) :
  0 <= d <= maxDuration ->
  between 0 (d / Minute) (d / Minute + 1) (Prim2SF (Minutes d)).
Proof.
  intros Hd. destruct (whole_minutes d Hd) as (Hq & Hr & HD & HN).
  unfold maxMinutes in HD.
  unfold Minutes. cbv zeta. rewrite add_spec, div_spec, Hq, Hr, Prim2SF_perMinute.
  apply (between_weaken 0 (d / Minute + 0) (d / Minute + 1)); [lia | lia |].
  apply SFadd_between; try lia.
  - apply float64OfInt_between. lia.
  - apply (between_coarsen (-36) 0 0 (2 ^ 36 - 1)); try lia.
    apply quotient_between. exact Hd.
Qed.

(** Below 2^17 minutes the sum of the whole minutes and the fraction is
    strictly less than the next whole minute. *)
Lemma Minutes_between_fine (d : Duration) :
  0 <= d <= maxDuration -> d / Minute + 1 <= 2 ^ 17 ->
  between (-36) (d / Minute * 2 ^ 36) ((d / Minute + 1) * 2 ^ 36 - 1)
    (Prim2SF (Minutes d)).
Proof.
  intros Hd Hsmall. destruct (whole_minutes d Hd) as (Hq & Hr & HD & HN).
  change (2 ^ 17) with 131072 in Hsmall. change (2 ^ 36) with 68719476736.
  unfold Minutes. cbv zeta. rewrite add_spec, div_spec, Hq, Hr, Prim2SF_perMinute.
  apply (between_weaken (-36) (d / Minute * 68719476736 + 0)
           (d / Minute * 68719476736 + (2 ^ 36 - 1)));
    [lia | change (2 ^ 36) with 68719476736; lia |].
  apply SFadd_between; try lia.
  - change 68719476736 with (2 ^ (0 - -36)).
    apply between_refine; try lia.
    + apply Prim2SF_valid.
    + apply float64OfInt_between. lia.
  - apply quotient_between. exact Hd.
Qed.

Lemma minValidity_bounds (d : Duration) :
  0 <= d <= maxDuration ->
  d / Minute / 2 <= minValidity d <= (d / Minute + 1) / 2.
Proof.
  intros Hd. destruct (whole_minutes d Hd) as (_ & _ & HD & _).
  unfold maxMinutes in HD.
  unfold minValidity.
  apply (intOfFloat64_between (-1)); try lia.
  rewrite mul_spec.
  change (Prim2SF CertLowerRotationRange) with (S754_finite false 4503599627370496 (-53)).
  apply (SFmul_between 0 (-1) (d / Minute) (d / Minute + 1)); try lia.
  apply Minutes_between. exact Hd.
Qed.

Lemma minValidity_exact (d : Duration) :
  0 <= d <= maxDuration -> d / Minute + 1 <= 2 ^ 17 ->
  minValidity d = d / Minute / 2.
Proof.
  intros Hd Hsmall. pose proof (minValidity_bounds d Hd) as [Hlo _].
  destruct (whole_minutes d Hd) as (_ & _ & HD & _).
  pose proof (Minutes_between_fine d Hd Hsmall) as HM.
  change (2 ^ 17) with 131072 in Hsmall. change (2 ^ 36) with 68719476736 in HM.
  set (D := d / Minute) in *.
  assert (H : D * 68719476736 / 2 ^ (- -37) <= minValidity d
              <= ((D + 1) * 68719476736 - 1) / 2 ^ (- -37)).
  { unfold minValidity.
    apply (intOfFloat64_between (-37)); try lia.
    rewrite mul_spec.
    change (Prim2SF CertLowerRotationRange)
      with (S754_finite false 4503599627370496 (-53)).
    apply (SFmul_between (-36) (-37) (D * 68719476736)
             ((D + 1) * 68719476736 - 1)); try lia.
    exact HM. }
  change (2 ^ (- -37)) with 137438953472 in H.
  destruct H as [_ H]. apply Z.le_antisymm; [|exact Hlo].
  etransitivity; [exact H|]. Z.div_mod_to_equations. lia.
Qed.

Lemma maxValidity_bounds (d : Duration) :
  0 <= d <= maxDuration ->
  4 * (d / Minute) / 5 <= maxValidity d <= 4 * (d / Minute + 1) / 5.
Proof.
  intros Hd. destruct (whole_minutes d Hd) as (_ & _ & HD & _).
  unfold maxMinutes in HD.
  set (D := d / Minute) in *.
  pose proof (Z.div_mod (32 * D) 5 ltac:(lia)) as E1.
  pose proof (Z.mod_pos_bound (32 * D) 5 ltac:(lia)) as R1.
  pose proof (Z.div_mod (32 * (D + 1)) 5 ltac:(lia)) as E2.
  pose proof (Z.mod_pos_bound (32 * (D + 1)) 5 ltac:(lia)) as R2.
  set (lo := 32 * D / 5) in *. set (hi := 32 * (D + 1) / 5) in *.
  assert (H : lo / 2 ^ (- -3) <= maxValidity d <= (hi + 1) / 2 ^ (- -3)).
  { unfold maxValidity.
    apply (intOfFloat64_between (-3)); try lia.
    rewrite mul_spec.
    change (Prim2SF CertUpperRotationRange)
      with (S754_finite false 7205759403792794 (-53)).
    apply (SFmul_between 0 (-3) D (D + 1)); try lia.
    apply Minutes_between. exact Hd. }
  change (2 ^ (- -3)) with 8 in H.
  destruct H as [H1 H2]. split.
  - etransitivity; [|exact H1]. Z.div_mod_to_equations. lia.
  - etransitivity; [exact H2|]. Z.div_mod_to_equations. lia.
Qed.

End ValidityBounds.

(** *** The renewal instant *)

Section ExpiryFacts.
Import CA GoTime Float64.

Lemma Sub_exact (t u : Time) :
  minDuration <= t - u <= maxDuration -> Sub t u = t - u.
Proof.
  intros H. unfold Sub.
  destruct (maxDuration <? t - u) eqn:E1; [apply Z.ltb_lt in E1; lia|].
  destruct (t - u <? minDuration) eqn:E2; [apply Z.ltb_lt in E2; lia|].
  reflexivity.
Qed.

(** Claim C5, as stated, fails: a certificate valid for three minutes,
    read at the start of its validity.  The two bounds are 1 and 2 whole
    minutes, the renewal is set one minute after [validFrom], and no target
    between [validFrom + 0.5 d] and [validFrom + 0.8 d] gives that
    duration. *)
Lemma renewal_target_before_half_of_validity :
  let validFrom := 1467331200 * Second in
  let validUntil := validFrom + 3 * Minute in
  let now := validFrom in
  let Intn := fun _ : Z => 0 in
  let d := validUntil - validFrom in
  validFrom < validUntil /\ now < validUntil
  /\ (forall n, 0 < n -> 0 <= Intn n < n)
  /\ minValidity (Sub validUntil validFrom) = 1
  /\ maxValidity (Sub validUntil validFrom) = 2
  /\ calculateRandomExpiry now Intn validFrom validUntil = 1 * Minute
  /\ ~ (exists target,
          2 * validFrom + d <= 2 * target
          /\ 5 * target <= 5 * validFrom + 4 * d
          /\ calculateRandomExpiry now Intn validFrom validUntil
             = Z.max 0 (target - now)).
Proof.
  cbv zeta.
  assert (E : calculateRandomExpiry (1467331200 * Second) (fun _ : Z => 0)
                (1467331200 * Second) (1467331200 * Second + 3 * Minute)
              = 60000000000) by (vm_compute; reflexivity).
  split; [vm_compute; reflexivity|].
  split; [vm_compute; reflexivity|].
  split; [intros n Hn; lia|].
  split; [vm_compute; reflexivity|].
  split; [vm_compute; reflexivity|].
  split; [vm_compute; reflexivity|].
  intros (target & H1 & H2 & H3). rewrite E in H3.
  unfold Minute, Second in *. lia.
Qed.

Lemma Sub_range (t u : Time) :
  u < t -> 0 < Sub t u <= maxDuration.
Proof.
  intros H. unfold Sub, maxDuration, minDuration.
  destruct (2 ^ 63 - 1 <? t - u) eqn:E1; [lia|]. apply Z.ltb_ge in E1.
  destruct (t - u <? - 2 ^ 63) eqn:E2; [apply Z.ltb_lt in E2; lia|]. lia.
Qed.

(** Claim C5, amended: for [validFrom < validUntil], with [d] the
    validity and [D] its whole minutes, the two bounds the code computes
    in [float64] and truncates are [D / 2] or [(D + 1) / 2] whole minutes
    for the lower one and between [4 * D / 5] and [4 * (D + 1) / 5] for
    the upper one.  The renewal is set a whole number [m] of minutes after
    [validFrom], with [minValidity <= m], and [m < maxValidity] unless
    [maxValidity - minValidity < 1], when [m = minValidity] whatever the
    random source.  The duration returned is [max 0 (target - now)] for
    [target = validFrom + m] minutes, and is never negative.  The target
    is later than [validFrom + 0.5 d - 1 minute] and not later than
    [validFrom + 0.8 d]; it may come before [validFrom + 0.5 d]. *)
Theorem calculateRandomExpiry_whole_minutes
    (now : Time) (Intn : Z -> Z) (validFrom validUntil : Time) :
  validFrom < validUntil ->
  (forall n, 0 < n -> 0 <= Intn n < n) ->
  let d := Sub validUntil validFrom in
  let D := d / Minute in
  let lo := minValidity d in
  let hi := maxValidity d in
  D / 2 <= lo <= (D + 1) / 2
  /\ 4 * D / 5 <= hi <= 4 * (D + 1) / 5
  /\ exists m,
       lo <= m
       /\ (m < hi \/ m = lo)
       /\ (hi - lo < 1 -> m = lo)
       /\ calculateRandomExpiry now Intn validFrom validUntil
          = Z.max 0 (Sub (Add validFrom (m * Minute)) now)
       /\ 0 <= calculateRandomExpiry now Intn validFrom validUntil
       /\ d - 2 * Minute < 2 * (m * Minute)
       /\ 5 * (m * Minute) <= 4 * d.
Proof.
  intros Horder HIntn d D lo hi.
  pose proof (Sub_range validUntil validFrom Horder) as Hd. fold d in Hd.
  assert (Hd' : 0 <= d <= maxDuration) by lia.
  pose proof (minValidity_bounds d Hd') as Hlo. fold D lo in Hlo.
  pose proof (maxValidity_bounds d Hd') as Hhi. fold D hi in Hhi.
  destruct (whole_minutes d Hd') as (_ & _ & HD & HN). fold D in HD.
  unfold maxMinutes in HD.
  pose proof (Z.div_mod d Minute ltac:(unfold Minute, Second; lia)) as Hdm.
  fold D in Hdm.
  split; [exact Hlo|]. split; [exact Hhi|].
  assert (Hfinal : forall m, 0 <= m <= 153722867 ->
            (if Sub (Add validFrom (wrap64 (m * Minute))) now <? 0 then 0
             else Sub (Add validFrom (wrap64 (m * Minute))) now)
            = Z.max 0 (Sub (Add validFrom (m * Minute)) now)).
  { intros m Hm.
    rewrite wrap64_small
      by (unfold minDuration, maxDuration, Minute, Second; lia).
    destruct (Sub (Add validFrom (m * Minute)) now <? 0) eqn:E;
      [apply Z.ltb_lt in E | apply Z.ltb_ge in E]; lia. }
  assert (Hlo' : 0 <= lo <= 153722867).
  { split; [apply Z.le_trans with (D / 2); [apply Z.div_pos; lia | lia]|].
    apply Z.le_trans with ((D + 1) / 2); [lia|].
    apply Z.div_le_upper_bound; lia. }
  assert (Hhi' : 0 <= hi <= 153722867).
  { split; [apply Z.le_trans with (4 * D / 5); [apply Z.div_pos; lia | lia]|].
    apply Z.le_trans with (4 * (D + 1) / 5); [lia|].
    apply Z.div_le_upper_bound; lia. }
  assert (Hhalf : 2 * (D / 2) >= D - 1) by (Z.div_mod_to_equations; lia).
  assert (Hhalf' : 2 * ((D + 1) / 2) <= D + 1) by (Z.div_mod_to_equations; lia).
  assert (Hhalf2 : 2 * (D / 2) <= D) by (Z.div_mod_to_equations; lia).
  assert (Hfifth : 5 * (4 * (D + 1) / 5) <= 4 * (D + 1)) by (Z.div_mod_to_equations; lia).
  assert (Hfifth' : 5 * (4 * D / 5) >= 4 * D - 4) by (Z.div_mod_to_equations; lia).
  unfold calculateRandomExpiry. fold d lo hi.
  rewrite (wrap64_small (hi - lo)) by (unfold minDuration, maxDuration; lia).
  destruct (hi - lo <? 1) eqn:E.
  - apply Z.ltb_lt in E.
    exists lo. rewrite Hfinal by lia.
    assert (Hsmall : D + 1 <= 2 ^ 17).
    { change (2 ^ 17) with 131072.
      destruct (Z.le_gt_cases (D + 1) 131072) as [L|L]; [exact L|]. exfalso. lia. }
    pose proof (minValidity_exact d Hd' Hsmall) as Hex. fold D lo in Hex.
    assert (Hmin : 0 <= D * Minute <= d /\ d < D * Minute + Minute)
      by (unfold Minute, Second in *; lia).
    unfold Minute, Second in *. repeat split; lia.
  - apply Z.ltb_ge in E.
    pose proof (HIntn (hi - lo) ltac:(lia)) as Hr.
    rewrite (wrap64_small (Intn (hi - lo) + lo))
      by (unfold minDuration, maxDuration; lia).
    exists (Intn (hi - lo) + lo). rewrite Hfinal by lia.
    assert (Hmin : 0 <= D * Minute <= d /\ d < D * Minute + Minute)
      by (unfold Minute, Second in *; lia).
    unfold Minute, Second in *. repeat split; lia.
Qed.

Lemma calculateRandomExpiry_whole_minutes_witness :
  let now := 1467331200 * Second in
  let Intn := fun n => n - 1 in
  let validFrom := 1467331200 * Second in
  let validUntil := 1467331200 * Second + 2160 * Hour in
  let d := Sub validUntil validFrom in
  let D := d / Minute in
  let lo := minValidity d in
  let hi := maxValidity d in
  D / 2 <= lo <= (D + 1) / 2
  /\ 4 * D / 5 <= hi <= 4 * (D + 1) / 5
  /\ exists m,
       lo <= m
       /\ (m < hi \/ m = lo)
       /\ (hi - lo < 1 -> m = lo)
       /\ calculateRandomExpiry now Intn validFrom validUntil
          = Z.max 0 (Sub (Add validFrom (m * Minute)) now)
       /\ 0 <= calculateRandomExpiry now Intn validFrom validUntil
       /\ d - 2 * Minute < 2 * (m * Minute)
       /\ 5 * (m * Minute) <= 4 * d.
Proof.
  refine (calculateRandomExpiry_whole_minutes (1467331200 * Second) (fun n => n - 1)
           (1467331200 * Second) (1467331200 * Second + 2160 * Hour) _ _).
  - vm_compute; reflexivity.
  - intros n Hn; lia.
Defined.

End ExpiryFacts.

(** *** The renewal loop *)

Section RenewalFacts.
Import CA Renewal.

(** Claim C4 (evaluation of the code at the failing inputs).  In a round
    where the request for new certificates is answered and only the
    server credentials refuse the new configuration, the loop publishes
    the error and then, in the same iteration, the success update.  In a
    round where the client credentials refuse it, the error is published
    and the remaining steps (the external CA, the server credentials) are
    carried out all the same, and the success update follows.  Only the
    failed request has a [continue]. *)
Theorem renewal_continues_after_failed_swap :
  published (fst (fst (iteration CASamples.config Scripted.serverSwapFails)))
  = [ {| Role := ""; Err := Some Scripted.swapError |};
      {| Role := WorkerRole; Err := None |} ]
  /\ snd (iteration CASamples.config Scripted.serverSwapFails) = NextIteration
  /\ (exists retry clientCfg externalCfg serverCfg,
        fst (fst (iteration CASamples.config Scripted.clientSwapFails))
        = [ Wait retry;
            CallRequestAndSave;
            CallLoadClient (Some clientCfg);
            Publish {| Role := ""; Err := Some Scripted.swapError |};
            CallUpdateExternalCA externalCfg;
            CallLoadServer (Some serverCfg);
            Publish {| Role := WorkerRole; Err := None |} ]).
Proof.
  split; [vm_compute; reflexivity|].
  split; [vm_compute; reflexivity|].
  do 4 eexists. vm_compute. reflexivity.
Qed.

(** Without a root pool neither configuration can be built: both
    errors are published, and the iteration then panics on the [nil]
    client configuration, which ends the goroutine. *)
Example renewal_panics_without_root_pool :
  published (fst (fst (iteration CASamples.configWithoutPool Scripted.serverSwapFails)))
  = [ {| Role := ""; Err := Some "valid root CA pool required" |};
      {| Role := ""; Err := Some "valid root CA pool required" |} ]
  /\ snd (iteration CASamples.configWithoutPool Scripted.serverSwapFails) = Panicked
  /\ snd (RenewTLSConfig CASamples.configWithoutPool
            [Scripted.serverSwapFails; Scripted.serverSwapFails]) = Panicked.
Proof. repeat split; vm_compute; reflexivity. Qed.

(** The one step that ends the iteration: when the request for new
    certificates fails, its error is the only update of the iteration and
    nothing is installed. *)
Lemma renew_failed_request (s : SecurityConfig) (r : Round) (err : error) :
  issued r = Fail err ->
  renew s r = ([CallRequestAndSave; Publish (errorUpdate err)], s, NextIteration).
Proof. intros H. unfold renew. now rewrite H. Qed.

Lemma renew_failed_request_witness :
  renew CASamples.config Scripted.requestFails
  = ([CallRequestAndSave; Publish (errorUpdate Scripted.remoteError)],
     CASamples.config, NextIteration).
Proof.
  apply (renew_failed_request CASamples.config Scripted.requestFails Scripted.remoteError).
  reflexivity.
Defined.

End RenewalFacts.

(** *** The credential loader *)

Section LoaderFacts.
Import CA.

Variable Join : string -> string -> string.
Variables Dir Base : string -> string.
Variable X509Certificate : Type.
Variable ReadFile : string -> result (list byte).
Variable pemDecode : list byte -> option (list byte).
Variable ParseCertificate : list byte -> result X509Certificate.
Variable Verify : X509Certificate -> option CertPool -> option error.
Variable X509KeyPair : list byte -> list byte -> result tlsCertificate.
Variable NewMutableTLS : option tlsConfig -> result MutableTLSCreds.

Local Abbreviation load :=
  (LoadTLSCreds Join Dir Base X509Certificate ReadFile pemDecode
     ParseCertificate Verify X509KeyPair NewMutableTLS).

(** Claim C7, amended: on a disk where both primary files can be read,
    the certificate parses and verifies under the root pool, and the
    primary key does not pair with it: if the hidden sibling key can be
    read and pairs with the certificate, [LoadTLSCreds] goes on with the
    sibling key, and returns the credentials built from that pair
    whenever they can be built (the error of the construction
    otherwise); if the sibling cannot be read or does not pair either,
    [LoadTLSCreds] returns the error of the first pairing. *)
Theorem LoadTLSCreds_falls_back_to_sibling_key
    (rootCA : RootCA) (paths : CertPaths)
    (cert key block : list byte) (x509Cert : X509Certificate) (err : error) :
  ReadFile (CertPath paths) = Ok cert ->
  ReadFile (KeyPath paths) = Ok key ->
  pemDecode cert = Some block ->
  ParseCertificate block = Ok x509Cert ->
  Verify x509Cert (Pool rootCA) = None ->
  X509KeyPair cert key = Fail err ->
  let sibling := KeyPath (genTempPaths Join Dir Base paths) in
  (forall siblingKey keyPair,
      ReadFile sibling = Ok siblingKey ->
      X509KeyPair cert siblingKey = Ok keyPair ->
      load rootCA paths
      = match NewServerTLSCredentials NewMutableTLS rootCA keyPair with
        | Fail e => Fail e
        | Ok serverTLSCreds =>
            match NewClientTLSCredentials NewMutableTLS rootCA keyPair ManagerRole with
            | Fail e => Fail e
            | Ok clientTLSCreds => Ok (clientTLSCreds, serverTLSCreds)
            end
        end)
  /\ (forall e, ReadFile sibling = Fail e -> load rootCA paths = Fail err)
  /\ (forall siblingKey e,
        ReadFile sibling = Ok siblingKey ->
        X509KeyPair cert siblingKey = Fail e ->
        load rootCA paths = Fail err).
Proof.
  intros Hc Hk Hp Hx Hv Hpair sibling. unfold LoadTLSCreds.
  rewrite Hc, Hk, Hp, Hx, Hv, Hpair. fold sibling.
  split; [|split].
  - intros siblingKey keyPair Hs Hpair'. now rewrite Hs, Hpair'.
  - intros e Hs. now rewrite Hs.
  - intros siblingKey e Hs Hpair'. now rewrite Hs, Hpair'.
Qed.

End LoaderFacts.

Section LoaderInstances.
Import CA.

(** Claim C7, as stated, fails: the certificate parses and verifies, the
    primary key file is absent (so there is no key that pairs with the
    certificate at the primary path), the hidden sibling key can be read
    and pairs with the certificate, and the credentials can be built from
    that pair; [LoadTLSCreds] returns the error of reading the primary
    key and never looks at the sibling. *)
Lemma absent_primary_key_is_not_recovered :
  let paths := Node Scripted.paths in
  let disk := Scripted.disk None (Some Scripted.newKey) in
  let sibling := KeyPath (genTempPaths Scripted.Join Scripted.Dir Scripted.Base paths) in
  disk (CertPath paths) = Ok Scripted.cert
  /\ Scripted.pemDecode Scripted.cert = Some Scripted.cert
  /\ Scripted.ParseCertificate Scripted.cert = Ok Scripted.cert
  /\ Scripted.Verify Scripted.cert (Pool CASamples.root) = None
  /\ disk (KeyPath paths) = Fail Scripted.noSuchFile
  /\ disk sibling = Ok Scripted.newKey
  /\ (exists keyPair server client,
        Scripted.X509KeyPair Scripted.cert Scripted.newKey = Ok keyPair
        /\ NewServerTLSCredentials Scripted.NewMutableTLS CASamples.root keyPair
           = Ok server
        /\ NewClientTLSCredentials Scripted.NewMutableTLS CASamples.root keyPair
             ManagerRole
           = Ok client)
  /\ Scripted.LoadTLSCreds None (Some Scripted.newKey) CASamples.root paths
     = Fail Scripted.noSuchFile.
Proof.
  cbv zeta. repeat (split; [vm_compute; reflexivity|]).
  split; [|vm_compute; reflexivity].
  do 3 eexists. repeat split; vm_compute; reflexivity.
Qed.

Lemma LoadTLSCreds_falls_back_to_sibling_key_witness :
  let paths := Node Scripted.paths in
  let sibling := KeyPath (genTempPaths Scripted.Join Scripted.Dir Scripted.Base paths) in
  let disk := Scripted.disk (Some Scripted.oldKey) (Some Scripted.newKey) in
  let load := Scripted.LoadTLSCreds (Some Scripted.oldKey) (Some Scripted.newKey) in
  (forall siblingKey keyPair,
      disk sibling = Ok siblingKey ->
      Scripted.X509KeyPair Scripted.cert siblingKey = Ok keyPair ->
      load CASamples.root paths
      = match NewServerTLSCredentials Scripted.NewMutableTLS CASamples.root keyPair with
        | Fail e => Fail e
        | Ok serverTLSCreds =>
            match NewClientTLSCredentials Scripted.NewMutableTLS CASamples.root
                    keyPair ManagerRole with
            | Fail e => Fail e
            | Ok clientTLSCreds => Ok (clientTLSCreds, serverTLSCreds)
            end
        end)
  /\ (forall e, disk sibling = Fail e -> load CASamples.root paths = Fail Scripted.keyMismatch)
  /\ (forall siblingKey e,
        disk sibling = Ok siblingKey ->
        Scripted.X509KeyPair Scripted.cert siblingKey = Fail e ->
        load CASamples.root paths = Fail Scripted.keyMismatch).
Proof.
  exact (LoadTLSCreds_falls_back_to_sibling_key
           Scripted.Join Scripted.Dir Scripted.Base (list byte)
           (Scripted.disk (Some Scripted.oldKey) (Some Scripted.newKey))
           Scripted.pemDecode Scripted.ParseCertificate Scripted.Verify
           Scripted.X509KeyPair Scripted.NewMutableTLS
           CASamples.root (Node Scripted.paths)
           Scripted.cert Scripted.oldKey Scripted.cert Scripted.cert
           Scripted.keyMismatch
           eq_refl eq_refl eq_refl eq_refl eq_refl eq_refl).
Defined.

(** On the scripted disk of a rotation that stopped half-way (the old key
    at the primary path, the new key at the sibling) the loader succeeds
    with the sibling key. *)
Example crash_mid_rotation_loads_sibling_key :
  exists client server,
    Scripted.LoadTLSCreds (Some Scripted.oldKey) (Some Scripted.newKey)
      CASamples.root (Node Scripted.paths) = Ok (client, server)
    /\ Certificates (installed client)
       = [{| certificatePEM := Scripted.cert; privateKeyPEM := Scripted.newKey |}].
Proof. do 2 eexists. split; vm_compute; reflexivity. Qed.

End LoaderInstances.

(** *** The bootstrap coordinator *)

Section BootstrapFacts.
Import CA Bootstrap.

Variable Join : string -> string -> string.
Variables Dir Base : string -> string.
Variable X509Certificate : Type.
Variable ReadFile : string -> result (list byte).
Variable pemDecode : list byte -> option (list byte).
Variable ParseCertificate : list byte -> result X509Certificate.
Variable Verify : X509Certificate -> option CertPool -> option error.
Variable X509KeyPair : list byte -> list byte -> result tlsCertificate.
Variable NewMutableTLS : option tlsConfig -> result MutableTLSCreds.
Variable ErrNoLocalRootCA : error.
Variable GetLocalRootCA : string -> result RootCA.
Variable GetRemoteCA : nat -> string -> result RootCA.
Variable saveRootCA : RootCA -> CertPaths -> option error.
Variable NewID : nat -> string.
Variable IssueAndSaveNewCertificates :
  RootCA -> CertPaths -> string -> string -> string -> result tlsCertificate.
Variable RequestAndSaveNewCertificates :
  RootCA -> CertPaths -> string -> option MutableTLSCreds -> result tlsCertificate.

Local Abbreviation run :=
  (LoadOrCreateSecurityConfig Join Dir Base X509Certificate ReadFile pemDecode
     ParseCertificate Verify X509KeyPair NewMutableTLS ErrNoLocalRootCA
     GetLocalRootCA GetRemoteCA saveRootCA NewID IssueAndSaveNewCertificates
     RequestAndSaveNewCertificates).

Lemma fst_bind {A B} (m : M A) (k : A -> M B) :
  fst (bind m k)
  = (fst m ++ match snd m with Ok a => fst (k a) | Fail _ => [] end)%list.
Proof.
  destruct m as [events [a|e]]; simpl.
  - now destruct (k a).
  - now rewrite app_nil_r.
Qed.

Lemma snd_bind {A B} (m : M A) (k : A -> M B) :
  snd (bind m k) = match snd m with Ok a => snd (k a) | Fail e => Fail e end.
Proof.
  destruct m as [events [a|e]]; simpl; [now destruct (k a) | reflexivity].
Qed.

Lemma count_app (p : Event -> bool) (l1 l2 : list Event) :
  count p (l1 ++ l2) = (count p l1 + count p l2)%nat.
Proof. unfold count. now rewrite filter_app, List.length_app. Qed.

Lemma count_fetches (d : string) (n : nat) :
  count isFetch (repeat (CallGetRemoteCA d) n) = n
  /\ count isIssuance (repeat (CallGetRemoteCA d) n) = 0%nat
  /\ count isSave (repeat (CallGetRemoteCA d) n) = 0%nat.
Proof.
  unfold count. induction n as [|n (IH1 & IH2 & IH3)]; simpl; [auto|].
  now rewrite IH1, IH2, IH3.
Qed.

(** The pin the fetch loop is given. *)
Lemma pin_of_token (token : string) :
  token = "" \/ snd (Token.getCAHashFromToken token) = None ->
  (if String.eqb token "" then ret ""
   else let (d, err) := Token.getCAHashFromToken token in check err ;;; ret d)
  = ret (if String.eqb token "" then "" else fst (Token.getCAHashFromToken token)).
Proof.
  intros [-> | H]; [reflexivity|].
  destruct (String.eqb token ""); [reflexivity|].
  destruct (Token.getCAHashFromToken token) as [d err]. simpl in H. subst err.
  reflexivity.
Qed.

(** The fetch loop of five: as many attempts as [attemptsFrom] counts,
    one after the other, and the result of the last of them. *)
Lemma fetch_five (d : string) (err : error) :
  let outcome := fun i => succeeds (GetRemoteCA i d) in
  let n := attemptsFrom outcome 5 0 in
  fst (fetchRemoteCA GetRemoteCA 5 0 d err) = repeat (CallGetRemoteCA d) n
  /\ (1 <= n <= 5)%nat
  /\ (forall j, (j < n - 1)%nat -> outcome j = false)
  /\ (n < 5 -> outcome (n - 1)%nat = true)%nat
  /\ snd (fetchRemoteCA GetRemoteCA 5 0 d err) = GetRemoteCA (n - 1) d
  /\ (outcome (n - 1)%nat = false -> n = 5%nat).
Proof.
  cbv zeta. cbn [fetchRemoteCA attemptsFrom].
  unfold bind, emit, ret, lift, succeeds.
  destruct (GetRemoteCA 0 d) eqn:E0;
    [|destruct (GetRemoteCA 1 d) eqn:E1;
      [|destruct (GetRemoteCA 2 d) eqn:E2;
        [|destruct (GetRemoteCA 3 d) eqn:E3;
          [|destruct (GetRemoteCA 4 d) eqn:E4]]]];
    cbn [fst snd app repeat Nat.sub];
    (split; [reflexivity|]); (split; [lia|]);
    (split; [intros j Hj;
             repeat (destruct j as [|j]; [ first [rewrite E0 | rewrite E1 | rewrite E2 | rewrite E3]; reflexivity |]);
             lia|]);
    (split; [intros Hn; first [reflexivity | rewrite E0 | rewrite E1 | rewrite E2 | rewrite E3 | lia]; try reflexivity|]);
    (split; [first [now rewrite E0 | now rewrite E1 | now rewrite E2 | now rewrite E3 | now rewrite E4]|]);
    intros H; first [reflexivity | rewrite E0 in H | rewrite E1 in H | rewrite E2 in H | rewrite E3 in H]; try discriminate H.
Qed.

Lemma bind_ret {A B} (a : A) (k : A -> M B) : bind (ret a) k = k a.
Proof. unfold bind, ret. now destruct (k a). Qed.

(** What [LoadOrCreateSecurityConfig] does once it holds a root CA. *)
Local Abbreviation afterRootCA paths token proposedRole nodeInfo :=
  (fun rootCA =>
     match LoadTLSCreds Join Dir Base X509Certificate ReadFile pemDecode
             ParseCertificate Verify X509KeyPair NewMutableTLS rootCA (Node paths) with
     | Fail _ =>
         tlsKeyPair <-
           (if CanSign rootCA then
              let cn := NewID 0 in
              let org := NewID 1 in
              (if nodeInfo then emit (SendNodeInfo cn) else ret tt) ;;;
              emit (CallIssueAndSave cn proposedRole org) ;;;
              lift (IssueAndSaveNewCertificates rootCA (Node paths) cn proposedRole org)
            else
              emit (CallRequestAndSave token) ;;;
              lift (RequestAndSaveNewCertificates rootCA (Node paths) token None)) ;;
         serverTLSCreds <- lift (NewServerTLSCredentials NewMutableTLS rootCA tlsKeyPair) ;;
         clientTLSCreds <-
           lift (NewClientTLSCredentials NewMutableTLS rootCA tlsKeyPair ManagerRole) ;;
         ret (NewSecurityConfig rootCA clientTLSCreds serverTLSCreds)
     | Ok (clientTLSCreds, serverTLSCreds) =>
         (if nodeInfo then emit (SendNodeInfo (subjectNodeID clientTLSCreds)) else ret tt) ;;;
         ret (NewSecurityConfig rootCA clientTLSCreds serverTLSCreds)
     end).

(** Its events hold no fetch, no save of the root CA and at most one
    issuance. *)
Lemma after_root_CA (rootCA : RootCA) (paths : SecurityConfigPaths)
    (token proposedRole : string) (nodeInfo : bool) :
  count isFetch (fst (afterRootCA paths token proposedRole nodeInfo rootCA)) = 0%nat
  /\ (count isIssuance (fst (afterRootCA paths token proposedRole nodeInfo rootCA)) <= 1)%nat
  /\ count isSave (fst (afterRootCA paths token proposedRole nodeInfo rootCA)) = 0%nat.
Proof.
  cbv beta.
  destruct (LoadTLSCreds _ _ _ _ _ _ _ _ _ _ _ _) as [[client server]|e].
  - destruct nodeInfo; cbv; repeat split; lia.
  - destruct (CanSign rootCA), nodeInfo;
      cbv [bind emit lift ret];
      repeat match goal with
             | |- context [IssueAndSaveNewCertificates ?a ?b ?c ?d ?e] =>
                 destruct (IssueAndSaveNewCertificates a b c d e)
             | |- context [RequestAndSaveNewCertificates ?a ?b ?c ?d] =>
                 destruct (RequestAndSaveNewCertificates a b c d)
             | |- context [NewServerTLSCredentials ?a ?b ?c] =>
                 destruct (NewServerTLSCredentials a b c)
             | |- context [NewClientTLSCredentials ?a ?b ?c ?d] =>
                 destruct (NewClientTLSCredentials a b c d)
             end;
      cbv; repeat split; lia.
Qed.

(** Claim C8: when no root CA is on disk (and the token, if there is one,
    decodes), [LoadOrCreateSecurityConfig] starts with [n] consecutive
    calls of [GetRemoteCA] and makes no other: [n] is between 1 and 5,
    every attempt before the last one failed, and the loop stops before
    the fifth attempt only on a success.  When the last attempt failed
    too, there were five, the error of the fifth is returned, and nothing
    else happened: the root CA was not saved.  In every run there is at
    most one issuance request. *)
Theorem bootstrap_fetches_remote_CA_at_most_five_times
    (baseCertDir token proposedRole : string) (nodeInfo : bool) :
  GetLocalRootCA baseCertDir = Fail ErrNoLocalRootCA ->
  token = "" \/ snd (Token.getCAHashFromToken token) = None ->
  let d := if String.eqb token "" then "" else fst (Token.getCAHashFromToken token) in
  let outcome := fun i => succeeds (GetRemoteCA i d) in
  let n := attemptsFrom outcome 5 0 in
  let events := fst (run baseCertDir token proposedRole nodeInfo) in
  (1 <= n <= 5)%nat
  /\ (forall j, (j < n - 1)%nat -> outcome j = false)
  /\ (n < 5 -> outcome (n - 1)%nat = true)%nat
  /\ (exists rest,
        events = (repeat (CallGetRemoteCA d) n ++ rest)%list
        /\ count isFetch rest = 0%nat
        /\ (outcome (n - 1)%nat = false ->
            n = 5%nat /\ rest = []
            /\ exists e, GetRemoteCA 4 d = Fail e
                         /\ snd (run baseCertDir token proposedRole nodeInfo) = Fail e))
  /\ count isFetch events = n
  /\ (outcome (n - 1)%nat = false -> count isSave events = 0%nat)
  /\ (count isIssuance events <= 1)%nat.
Proof.
  intros Hlocal Htok. cbv zeta.
  set (d := if String.eqb token "" then "" else fst (Token.getCAHashFromToken token)).
  destruct (fetch_five d ErrNoLocalRootCA) as (Hev & Hn & Hbefore & Hearly & Hres & Hfive).
  set (n := attemptsFrom (fun i => succeeds (GetRemoteCA i d)) 5 0) in *.
  set (paths := NewConfigPaths Join baseCertDir).
  assert (Hrun :
    run baseCertDir token proposedRole nodeInfo
    = bind (bind (fetchRemoteCA GetRemoteCA 5 0 d ErrNoLocalRootCA)
              (fun rootCA =>
                 emit (CallSaveRootCA rootCA (RootCAPaths paths)) ;;;
                 check (saveRootCA rootCA (RootCAPaths paths)) ;;;
                 ret rootCA))
        (afterRootCA paths token proposedRole nodeInfo)).
  { unfold LoadOrCreateSecurityConfig. cbv zeta.
    rewrite Hlocal, String.eqb_refl, (pin_of_token _ Htok), bind_ret.
    reflexivity. }
  rewrite Hrun. clear Hrun.
  destruct (fetchRemoteCA GetRemoteCA 5 0 d ErrNoLocalRootCA) as [fetches r].
  cbn [fst snd] in Hev, Hres. subst fetches r.
  destruct (count_fetches d n) as (Cf & Ci & Cs).
  repeat (split; [assumption|]).
  destruct (GetRemoteCA (n - 1) d) as [root|e] eqn:Elast.
  - pose proof (after_root_CA root paths token proposedRole nodeInfo) as (Kf & Ki & Ks).
    cbv beta zeta in Kf, Ki, Ks.
    assert (Hinner :
      bind (repeat (CallGetRemoteCA d) n, Ok root)
        (fun rootCA =>
           emit (CallSaveRootCA rootCA (RootCAPaths paths)) ;;;
           check (saveRootCA rootCA (RootCAPaths paths)) ;;;
           ret rootCA)
      = ((repeat (CallGetRemoteCA d) n ++ [CallSaveRootCA root (RootCAPaths paths)])%list,
         match saveRootCA root (RootCAPaths paths) with
         | Some e => Fail e
         | None => Ok root
         end)).
    { unfold bind, emit, check, ret.
      destruct (saveRootCA root (RootCAPaths paths)); reflexivity. }
    rewrite Hinner, fst_bind. clear Hinner.
    assert (Hsucc : succeeds (Ok root) = false -> False) by discriminate.
    destruct (saveRootCA root (RootCAPaths paths)) as [e|];
      cbn [fst snd]; cbv beta zeta;
      match type of Kf with count isFetch ?l = _ => set (kev := l) in * end.
    + rewrite app_nil_r.
      split; [|split; [|split]].
      * exists [CallSaveRootCA root (RootCAPaths paths)].
        split; [reflexivity|]. split; [reflexivity|]. intros H; destruct (Hsucc H).
      * rewrite count_app, Cf. cbn. lia.
      * intros H; destruct (Hsucc H).
      * rewrite count_app, Ci. cbn. lia.
    + rewrite <- app_assoc.
      split; [|split; [|split]].
      * eexists. split; [reflexivity|].
        split; [|intros H; destruct (Hsucc H)].
        change (CallSaveRootCA root (RootCAPaths paths) :: ?l)
          with ([CallSaveRootCA root (RootCAPaths paths)] ++ l)%list.
        rewrite count_app, Kf. reflexivity.
      * rewrite !count_app, Cf, Kf. cbn. lia.
      * intros H; destruct (Hsucc H).
      * rewrite !count_app, Ci. cbn [app].
        change (CallSaveRootCA root (RootCAPaths paths) :: ?l)
          with ([CallSaveRootCA root (RootCAPaths paths)] ++ l)%list.
        rewrite count_app. cbn. lia.
  - cbn [bind fst snd].
    split; [|split; [|split]].
    + exists []. rewrite app_nil_r. split; [reflexivity|]. split; [reflexivity|].
      intros _. pose proof (Hfive eq_refl) as H5.
      split; [exact H5|]. split; [reflexivity|].
      exists e. split; [|reflexivity].
      rewrite H5 in Elast. exact Elast.
    + exact Cf.
    + intros _. exact Cs.
    + rewrite Ci. lia.
Qed.

End BootstrapFacts.

Section BootstrapInstances.
Import CA Bootstrap.

Lemma bootstrap_fetches_remote_CA_at_most_five_times_witness :
  let run := Scripted.LoadOrCreateSecurityConfig 7 Scripted.baseCertDir "" WorkerRole true in
  let outcome := fun i => succeeds (Scripted.GetRemoteCA 7 i "") in
  let n := attemptsFrom outcome 5 0 in
  let events := fst run in
  (1 <= n <= 5)%nat
  /\ (forall j, (j < n - 1)%nat -> outcome j = false)
  /\ (n < 5 -> outcome (n - 1)%nat = true)%nat
  /\ (exists rest,
        events = (repeat (CallGetRemoteCA "") n ++ rest)%list
        /\ count isFetch rest = 0%nat
        /\ (outcome (n - 1)%nat = false ->
            n = 5%nat /\ rest = []
            /\ exists e, Scripted.GetRemoteCA 7 4 "" = Fail e /\ snd run = Fail e))
  /\ count isFetch events = n
  /\ (outcome (n - 1)%nat = false -> count isSave events = 0%nat)
  /\ (count isIssuance events <= 1)%nat.
Proof.
  exact (bootstrap_fetches_remote_CA_at_most_five_times
           Scripted.Join Scripted.Dir Scripted.Base (list byte)
           (Scripted.disk None None) Scripted.pemDecode Scripted.ParseCertificate
           Scripted.Verify Scripted.X509KeyPair Scripted.NewMutableTLS
           Scripted.ErrNoLocalRootCA Scripted.GetLocalRootCA (Scripted.GetRemoteCA 7)
           Scripted.saveRootCA Scripted.NewID Scripted.Issue Scripted.Request
           Scripted.baseCertDir "" WorkerRole true eq_refl (or_introl eq_refl)).
Defined.

(** Two runs of the scripted bootstrap: a remote CA that never answers is
    asked five times and the run fails with nothing saved; one that
    answers at the third attempt is asked three times, and the run goes on
    to save the root and request a certificate, once. *)
Example five_failed_fetches :
  Scripted.LoadOrCreateSecurityConfig 7 Scripted.baseCertDir "" WorkerRole true
  = (repeat (CallGetRemoteCA "") 5, Fail Scripted.remoteError).
Proof. vm_compute. reflexivity. Qed.

Example fetch_stops_at_first_success :
  exists root paths config,
    Scripted.LoadOrCreateSecurityConfig 2 Scripted.baseCertDir "" WorkerRole true
    = ([CallGetRemoteCA ""; CallGetRemoteCA ""; CallGetRemoteCA "";
        CallSaveRootCA root paths; CallRequestAndSave ""],
       Ok config).
Proof. do 3 eexists. vm_compute. reflexivity. Qed.

End BootstrapInstances.

(** *** Bytes, runes and letter case *)

(** Boolean tests among the hypotheses, as propositions. *)
Ltac bool_hyps :=
  repeat match goal with
         | H : (_ && _) = true |- _ => apply andb_true_iff in H as [? ?]
         | H : (_ <=? _) = true |- _ => apply Z.leb_le in H
         | H : (_ <? _) = true |- _ => apply Z.ltb_lt in H
         | H : (_ <? _) = false |- _ => apply Z.ltb_ge in H
         | H : (_ =? _) = true |- _ => apply Z.eqb_eq in H
         | H : (_ =? _) = false |- _ => apply Z.eqb_neq in H
         end.

Section UnicodeFacts.
Import GoStrings GoUnicode.

Lemma byteOf_range (c : ascii) : 0 <= byteOf c < 256.
Proof.
  unfold byteOf. pose proof (N_ascii_bounded c). lia.
Qed.

Lemma byte_byteOf (c : ascii) : byte (byteOf c) = c.
Proof. unfold byte, byteOf. now rewrite N2Z.id, ascii_N_embedding. Qed.

Lemma byteOf_byte (x : Z) : 0 <= x < 256 -> byteOf (byte x) = x.
Proof.
  intros H. unfold byte, byteOf.
  rewrite N_ascii_embedding by lia. lia.
Qed.

Lemma byteOf_inj (a b : ascii) : byteOf a = byteOf b -> a = b.
Proof.
  intros H. rewrite <- (byte_byteOf a), <- (byte_byteOf b). now rewrite H.
Qed.

Lemma lowerASCII_byte (c : ascii) :
  byteOf c < 128 ->
  byte (if (65 <=? byteOf c) && (byteOf c <=? 90) then byteOf c + 32 else byteOf c)
  = lowerASCII c.
Proof.
  intros _. unfold lowerASCII.
  destruct ((65 <=? byteOf c) && (byteOf c <=? 90)); [reflexivity | apply byte_byteOf].
Qed.

(** An ASCII byte is a rune of width one. *)
Lemma DecodeRune_ascii (c : ascii) (t : string) :
  byteOf c < 128 -> DecodeRune (String c t) = (byteOf c, 1%nat).
Proof.
  intros H. unfold DecodeRune.
  destruct (byteOf c <? 128) eqn:E; [reflexivity | apply Z.ltb_ge in E; lia].
Qed.

(** A byte outside ASCII starts a rune outside ASCII; the rune U+0130 is
    read from its two bytes only, and U+212A from its three bytes only. *)
Lemma DecodeRune_nonascii (c : ascii) (t : string) (r : Z) (size : nat) :
  128 <= byteOf c ->
  DecodeRune (String c t) = (r, size) ->
  128 <= r
  /\ (r = 304 -> size = 2%nat /\ exists t2, String c t = (dottedI ++ t2)%string)
  /\ (r = 8490 -> size = 3%nat /\ exists t3, String c t = (kelvinSign ++ t3)%string).
Proof.
  intros Hc. unfold DecodeRune, isContinuation, RuneError.
  pose proof (byteOf_range c) as Rc.
  destruct (byteOf c <? 128) eqn:E0; [apply Z.ltb_lt in E0; lia|].
  assert (Herr : forall n : nat, (65533, n) = (r, size) ->
            128 <= r /\ (r = 304 -> size = 2%nat /\ exists t2, String c t = (dottedI ++ t2)%string)
            /\ (r = 8490 -> size = 3%nat /\ exists t3, String c t = (kelvinSign ++ t3)%string)).
  { intros n H; injection H as <- <-. repeat split; lia. }
  destruct ((194 <=? byteOf c) && (byteOf c <=? 223)) eqn:E2.
  { destruct t as [|c1 t1]; [apply Herr|].
    pose proof (byteOf_range c1) as R1.
    destruct ((128 <=? byteOf c1) && (byteOf c1 <=? 191)) eqn:C1; [|apply Herr].
    intros Heq; injection Heq as <- <-. bool_hyps.
    split; [|split].
    - Z.div_mod_to_equations. lia.
    - intros Hrune. split; [reflexivity|]. exists t1.
      assert (byteOf c = 196 /\ byteOf c1 = 176) as [Hb0 Hb1]
        by (Z.div_mod_to_equations; lia).
      unfold dottedI. cbn [append].
      f_equal; [apply byteOf_inj; rewrite Hb0; reflexivity|].
      f_equal. apply byteOf_inj; rewrite Hb1; reflexivity.
    - intros Hrune. exfalso. Z.div_mod_to_equations. lia. }
  destruct ((224 <=? byteOf c) && (byteOf c <=? 239)) eqn:E3.
  { destruct t as [|c1 [|c2 t2]]; try apply Herr.
    pose proof (byteOf_range c1) as R1. pose proof (byteOf_range c2) as R2.
    destruct (((if byteOf c =? 224 then 160 else 128) <=? byteOf c1)
              && (byteOf c1 <=? (if byteOf c =? 237 then 159 else 191))
              && ((128 <=? byteOf c2) && (byteOf c2 <=? 191))) eqn:C; [|apply Herr].
    intros Heq; injection Heq as <- <-. bool_hyps.
    destruct (byteOf c =? 224) eqn:E224; destruct (byteOf c =? 237) eqn:E237; bool_hyps;
      (split; [|split]);
      try (Z.div_mod_to_equations; lia);
      try (intros Hrune; exfalso; Z.div_mod_to_equations; lia).
    intros Hrune. split; [reflexivity|]. exists t2.
    assert (byteOf c = 226 /\ byteOf c1 = 132 /\ byteOf c2 = 170) as (Hb0 & Hb1 & Hb2)
      by (Z.div_mod_to_equations; lia).
    unfold kelvinSign. cbn [append].
    f_equal; [apply byteOf_inj; rewrite Hb0; reflexivity|].
    f_equal; [apply byteOf_inj; rewrite Hb1; reflexivity|].
    f_equal. apply byteOf_inj; rewrite Hb2; reflexivity. }
  destruct ((240 <=? byteOf c) && (byteOf c <=? 244)) eqn:E4; [|apply Herr].
  destruct t as [|c1 [|c2 [|c3 t3]]]; try apply Herr.
  pose proof (byteOf_range c1) as R1. pose proof (byteOf_range c2) as R2.
  pose proof (byteOf_range c3) as R3.
  destruct (((if byteOf c =? 240 then 144 else 128) <=? byteOf c1)
            && (byteOf c1 <=? (if byteOf c =? 244 then 143 else 191))
            && ((128 <=? byteOf c2) && (byteOf c2 <=? 191))
            && ((128 <=? byteOf c3) && (byteOf c3 <=? 191))) eqn:C; [|apply Herr].
  intros Heq; injection Heq as <- <-. bool_hyps.
  destruct (byteOf c =? 240) eqn:E240; destruct (byteOf c =? 244) eqn:E244; bool_hyps;
    (split; [|split]);
    try (Z.div_mod_to_equations; lia);
    try (intros Hrune; exfalso; Z.div_mod_to_equations; lia).
Qed.

(** A rune outside ASCII is written with a first byte outside ASCII. *)
Lemma EncodeRune_nonascii (r : Z) :
  128 <= r ->
  exists c t, EncodeRune r = String c t /\ 128 <= byteOf c.
Proof.
  intros Hr. unfold EncodeRune, encode3, MaxRune, RuneError.
  destruct ((0 <=? r) && (r <=? 127)) eqn:E1; [bool_hyps; lia|].
  destruct ((0 <=? r) && (r <=? 2047)) eqn:E2.
  { bool_hyps. do 2 eexists. split; [reflexivity|].
    rewrite byteOf_byte; Z.div_mod_to_equations; lia. }
  destruct ((r <? 0) || (1114111 <? r) || ((55296 <=? r) && (r <=? 57343))) eqn:E3.
  { do 2 eexists. split; [reflexivity|]. vm_compute. discriminate. }
  apply orb_false_iff in E3 as [E3 _]. apply orb_false_iff in E3 as [_ E3].
  bool_hyps.
  destruct (r <=? 65535) eqn:E4.
  - apply Z.leb_le in E4. do 2 eexists. split; [reflexivity|].
    rewrite byteOf_byte; Z.div_mod_to_equations; lia.
  - do 2 eexists. split; [reflexivity|].
    rewrite byteOf_byte; Z.div_mod_to_equations; lia.
Qed.

End UnicodeFacts.

Section LowerFacts.
Import GoStrings GoUnicode.

Variable caseRanges : Z -> Z.

Hypothesis table : staysOutsideASCII caseRanges.

Local Abbreviation lower := (ToLowerRune caseRanges).

(** One ASCII byte of input gives its lower case as one byte of output. *)
Lemma mapLoop_ascii (c : ascii) (t : string) (changed copy : bool) :
  byteOf c < 128 ->
  mapLoop lower (String c t) 0 changed copy
  = String (lowerASCII c)
      (mapLoop lower t 0 (changed || isUpperASCII c) (negb (changed || isUpperASCII c))).
Proof.
  intros Hc. pose proof (byteOf_range c) as Rc.
  cbn [mapLoop]. rewrite (DecodeRune_ascii c t Hc).
  unfold ToLowerRune, lowerASCII, isUpperASCII.
  destruct (byteOf c <=? 127) eqn:E; [|apply Z.leb_gt in E; lia].
  destruct ((65 <=? byteOf c) && (byteOf c <=? 90)) eqn:U.
  - bool_hyps.
    replace (byteOf c + 32 =? byteOf c) with false by (symmetry; apply Z.eqb_neq; lia).
    rewrite andb_false_r, orb_true_r. cbn [negb Nat.sub].
    destruct (0 <=? byteOf c + 32) eqn:P; [|apply Z.leb_gt in P; lia].
    unfold EncodeRune.
    replace ((0 <=? byteOf c + 32) && (byteOf c + 32 <=? 127)) with true
      by (symmetry; apply andb_true_iff; split; apply Z.leb_le; lia).
    reflexivity.
  - rewrite Z.eqb_refl, andb_true_r, orb_false_r. cbn [Nat.sub].
    destruct changed; cbn [negb].
    + destruct (0 <=? byteOf c) eqn:P; [|apply Z.leb_gt in P; lia].
      unfold EncodeRune.
      replace ((0 <=? byteOf c) && (byteOf c <=? 127)) with true
        by (symmetry; apply andb_true_iff; split; apply Z.leb_le; lia).
      cbn [append]. now rewrite byte_byteOf.
    + reflexivity.
Qed.

(** The Kelvin sign gives [k], the dotted capital I gives [i]. *)
Lemma mapLoop_kelvin (t : string) (changed copy : bool) :
  mapLoop lower (kelvinSign ++ t) 0 changed copy
  = String "k" (mapLoop lower t 0 true false).
Proof. destruct changed; reflexivity. Qed.

Lemma mapLoop_dottedI (t : string) (changed copy : bool) :
  mapLoop lower (dottedI ++ t) 0 changed copy
  = String "i" (mapLoop lower t 0 true false).
Proof. destruct changed; reflexivity. Qed.

(** Any other rune outside ASCII gives a first byte outside ASCII. *)
Lemma mapLoop_nonascii (c : ascii) (t : string) (changed copy : bool) :
  128 <= byteOf c ->
  (exists t2, String c t = (dottedI ++ t2)%string)
  \/ (exists t3, String c t = (kelvinSign ++ t3)%string)
  \/ (exists c' out, mapLoop lower (String c t) 0 changed copy = String c' out
                     /\ 128 <= byteOf c').
Proof.
  intros Hc. cbn [mapLoop].
  destruct (DecodeRune (String c t)) as [r size] eqn:D.
  destruct (DecodeRune_nonascii c t r size Hc D) as (Hr & H304 & H8490).
  destruct (Z.eq_dec r 304) as [E1|N1]; [left; now apply H304|].
  destruct (Z.eq_dec r 8490) as [E2|N2]; [right; left; now apply H8490|].
  right; right.
  assert (Hl : lower r = caseRanges r).
  { unfold ToLowerRune.
    destruct (r <=? 127) eqn:E; [apply Z.leb_le in E; lia|].
    destruct (r =? 304) eqn:E'; [apply Z.eqb_eq in E'; lia|].
    destruct (r =? 8490) eqn:E''; [apply Z.eqb_eq in E''; lia|].
    reflexivity. }
  pose proof (table r Hr N1 N2) as Hout. rewrite Hl.
  destruct (negb changed && (caseRanges r =? r)).
  - do 2 eexists. split; [reflexivity | exact Hc].
  - destruct (0 <=? caseRanges r) eqn:P; [|apply Z.leb_gt in P; lia].
    destruct (EncodeRune_nonascii (caseRanges r) Hout) as (c' & out & -> & Hc').
    cbn [append]. do 2 eexists. split; [reflexivity | exact Hc'].
Qed.

(** The output of the loop is [name] exactly when the input spells
    [name]. *)
Lemma mapLoop_spelling (name : string) :
  allBytes isASCII name = true ->
  forall (s : string) (changed copy : bool),
    mapLoop lower s 0 changed copy = name <-> spellingOf name s = true.
Proof.
  induction name as [|n name' IH]; intros Hname s changed copy.
  - destruct s as [|c t]; [split; reflexivity|].
    split; [|discriminate].
    destruct (Z_lt_le_dec (byteOf c) 128) as [Hc|Hc].
    + rewrite mapLoop_ascii by exact Hc. discriminate.
    + destruct (mapLoop_nonascii c t changed copy Hc)
        as [[t2 E]|[[t3 E]|(c' & out & E & _)]].
      * rewrite E, mapLoop_dottedI. discriminate.
      * rewrite E, mapLoop_kelvin. discriminate.
      * rewrite E. discriminate.
  - cbn [allBytes] in Hname. apply andb_true_iff in Hname as [Hn Hname'].
    unfold isASCII in Hn. apply Z.ltb_lt in Hn.
    destruct s as [|c t]; [split; discriminate|].
    destruct (Z_lt_le_dec (byteOf c) 128) as [Hc|Hc].
    + (* an ASCII byte *)
      rewrite mapLoop_ascii by exact Hc. cbn [spellingOf].
      assert (Hk : Ascii.eqb c "226" = false).
      { apply Ascii.eqb_neq. intros ->. revert Hc. vm_compute. intros H; discriminate H. }
      assert (Hi : Ascii.eqb c "196" = false).
      { apply Ascii.eqb_neq. intros ->. revert Hc. vm_compute. intros H; discriminate H. }
      replace (isASCII c) with true by (symmetry; apply Z.ltb_lt; exact Hc).
      rewrite Hk, Hi. cbn [andb].
      match goal with
      | |- context [(?a || ?m)%bool] =>
          replace m with false by (destruct t; rewrite ?andb_false_r; reflexivity)
      end.
      rewrite orb_false_r.
      split.
      * intros H; injection H as H1 H2.
        apply andb_true_iff; split; [apply Ascii.eqb_eq; exact H1|].
        exact (proj1 (IH Hname' _ _ _) H2).
      * intros H; apply andb_true_iff in H as [H1 H2].
        apply Ascii.eqb_eq in H1. rewrite H1. f_equal.
        exact (proj2 (IH Hname' _ _ _) H2).
    + (* a byte outside ASCII *)
      assert (Hascii : isASCII c = false) by (apply Z.ltb_ge; exact Hc).
      destruct (mapLoop_nonascii c t changed copy Hc)
        as [[t2 E]|[[t3 E]|(c' & out & E & Hc')]].
      * rewrite E, mapLoop_dottedI.
        unfold dottedI. cbn [append spellingOf].
        change (isASCII "196") with false.
        change (Ascii.eqb "196" "226") with false.
        change (Ascii.eqb "196" "196") with true.
        change (Ascii.eqb "176" "176") with true.
        rewrite !andb_false_r, !andb_true_r. cbn [orb andb].
        split.
        -- intros H; injection H as H1 H2. subst n.
           cbn [Ascii.eqb Bool.eqb andb]. exact (proj1 (IH Hname' _ _ _) H2).
        -- intros H; apply andb_true_iff in H as [H1 H2].
           apply Ascii.eqb_eq in H1. rewrite H1. f_equal.
           exact (proj2 (IH Hname' _ _ _) H2).
      * rewrite E, mapLoop_kelvin.
        unfold kelvinSign. cbn [append spellingOf].
        change (isASCII "226") with false.
        change (Ascii.eqb "226" "226") with true.
        change (Ascii.eqb "132" "132") with true.
        change (Ascii.eqb "170" "170") with true.
        change (Ascii.eqb "226" "196") with false.
        rewrite !andb_false_r, !andb_true_r. cbn [orb andb].
        rewrite orb_false_r.
        split.
        -- intros H; injection H as H1 H2. subst n.
           cbn [Ascii.eqb Bool.eqb andb]. exact (proj1 (IH Hname' _ _ _) H2).
        -- intros H; apply andb_true_iff in H as [H1 H2].
           apply Ascii.eqb_eq in H1. rewrite H1. f_equal.
           exact (proj2 (IH Hname' _ _ _) H2).
      * rewrite E. split.
        -- intros H; injection H as H1 H2. subst c'. lia.
        -- intros H. exfalso. cbn [spellingOf] in H. rewrite Hascii in H.
           cbn [andb orb] in H.
           destruct t as [|c1 t2]; [discriminate H|].
           apply orb_true_iff in H as [H|H].
           ++ apply andb_true_iff in H as [H H2].
              apply andb_true_iff in H as [H H1].
              apply andb_true_iff in H as [_ H0].
              apply Ascii.eqb_eq in H0, H1. subst c c1.
              destruct t2 as [|c2 t3]; [discriminate H2|].
              apply andb_true_iff in H2 as [H2 _]. apply Ascii.eqb_eq in H2. subst c2.
              change (String "226" (String "132" (String "170" t3)))
                with (kelvinSign ++ t3)%string in E.
              rewrite mapLoop_kelvin in E. injection E as E1 E2. subst c'.
              revert Hc'. vm_compute. intros H; now apply H.
           ++ apply andb_true_iff in H as [H _].
              apply andb_true_iff in H as [H H1].
              apply andb_true_iff in H as [_ H0].
              apply Ascii.eqb_eq in H0, H1. subst c c1.
              change (String "196" (String "176" t2))
                with (dottedI ++ t2)%string in E.
              rewrite mapLoop_dottedI in E. injection E as E1 E2. subst c'.
              revert Hc'. vm_compute. intros H; now apply H.
Qed.

(** [strings.ToLower(s)] is [name] exactly when [s] spells [name]. *)
Lemma ToLower_spelling (name s : string) :
  allBytes isASCII name = true ->
  String.eqb (ToLower caseRanges s) name = spellingOf name s.
Proof.
  intros Hname. unfold ToLower, Map.
  destruct (spellingOf name s) eqn:E.
  - apply String.eqb_eq. now apply mapLoop_spelling.
  - apply String.eqb_neq. intros H.
    apply (mapLoop_spelling name Hname) in H. congruence.
Qed.

End LowerFacts.

Section CaseFacts.
Import GoStrings GoUnicode.

(** A capitalization is a spelling, and an ASCII spelling is a
    capitalization. *)
Lemma capitalization_is_spelling (name s : string) :
  capitalizationOf name s = true -> spellingOf name s = true.
Proof.
  revert s; induction name as [|n name' IH]; intros [|c t] H;
    try discriminate H; [reflexivity|].
  cbn [capitalizationOf] in H. cbn [spellingOf].
  apply andb_true_iff in H as [H1 H2].
  rewrite H1, (IH t H2). reflexivity.
Qed.

Lemma ascii_spelling_is_capitalization (name s : string) :
  allBytes isASCII s = true ->
  spellingOf name s = capitalizationOf name s.
Proof.
  revert s; induction name as [|n name' IH]; intros [|c t] Hs; try reflexivity.
  cbn [allBytes] in Hs. apply andb_true_iff in Hs as [Hc Ht].
  cbn [spellingOf capitalizationOf]. rewrite (IH t Ht).
  assert (Hk : Ascii.eqb c "226" = false).
  { apply Ascii.eqb_neq. intros ->. discriminate Hc. }
  assert (Hi : Ascii.eqb c "196" = false).
  { apply Ascii.eqb_neq. intros ->. discriminate Hc. }
  rewrite Hk, Hi, !andb_false_r. cbn [andb].
  destruct t as [|c1 t2]; [apply orb_false_r|].
  cbn [orb]. apply orb_false_r.
Qed.

End CaseFacts.

(** *** The role codec *)

Section RoleFacts.
Import GoStrings GoUnicode CA Roles.

Variables NodeRoleWorker NodeRoleManager : Z.
Variable caseRanges : Z -> Z.

Hypothesis roles_differ : NodeRoleWorker <> NodeRoleManager.
Hypothesis table : staysOutsideASCII caseRanges.

Local Abbreviation parse := (ParseRole NodeRoleWorker NodeRoleManager).
Local Abbreviation format := (FormatRole NodeRoleWorker NodeRoleManager caseRanges).

(** [FormatRole] by the spelling of its argument. *)
Lemma FormatRole_spelling (role : string) :
  format role
  = if spellingOf ManagerRole role then (NodeRoleManager, None)
    else if spellingOf WorkerRole role then (NodeRoleWorker, None)
    else (0, Some "failed to parse role").
Proof.
  unfold FormatRole.
  change (ToLower caseRanges ManagerRole) with ManagerRole.
  change (ToLower caseRanges WorkerRole) with WorkerRole.
  rewrite !(ToLower_spelling caseRanges table) by reflexivity.
  reflexivity.
Qed.

(** Claim C9, amended: [ParseRole] and [FormatRole] are inverse to each
    other on the two roles and their two names; [ParseRole] fails on every
    other [NodeRole] and never returns the CA role name; [FormatRole]
    accepts exactly the strings that [strings.ToLower] maps to one of the
    two names, which are their capitalizations and, besides, the spellings
    of [swarm-worker] whose [k] is the Kelvin sign U+212A; on every other
    string ([swarm-ca] among them, and every ASCII string that is not a
    capitalization) it fails. *)
Theorem role_codec :
  (parse NodeRoleManager = (ManagerRole, None)
   /\ parse NodeRoleWorker = (WorkerRole, None)
   /\ format ManagerRole = (NodeRoleManager, None)
   /\ format WorkerRole = (NodeRoleWorker, None))
  /\ (forall a, a <> NodeRoleManager -> a <> NodeRoleWorker ->
        parse a = ("", Some "failed to parse api role"))
  /\ (forall a, fst (parse a) <> CARole)
  /\ (forall s, capitalizationOf ManagerRole s = true -> format s = (NodeRoleManager, None))
  /\ (forall s, capitalizationOf WorkerRole s = true -> format s = (NodeRoleWorker, None))
  /\ (forall s, spellingOf ManagerRole s = true -> format s = (NodeRoleManager, None))
  /\ (forall s, spellingOf WorkerRole s = true -> format s = (NodeRoleWorker, None))
  /\ (forall s, spellingOf ManagerRole s = false -> spellingOf WorkerRole s = false ->
        format s = (0, Some "failed to parse role"))
  /\ (forall s, allBytes isASCII s = true ->
        capitalizationOf ManagerRole s = false -> capitalizationOf WorkerRole s = false ->
        format s = (0, Some "failed to parse role"))
  /\ format CARole = (0, Some "failed to parse role").
Proof.
  assert (Hworker_not_manager :
            forall s, spellingOf WorkerRole s = true -> spellingOf ManagerRole s = false).
  { intros s H.
    destruct (spellingOf ManagerRole s) eqn:E; [|reflexivity].
    apply (mapLoop_spelling caseRanges table ManagerRole eq_refl s false false) in E.
    apply (mapLoop_spelling caseRanges table WorkerRole eq_refl s false false) in H.
    rewrite E in H. discriminate H. }
  split; [|split; [|split; [|split; [|split; [|split; [|split; [|split; [|split]]]]]]]].
  - unfold ParseRole. rewrite !Z.eqb_refl.
    destruct (NodeRoleWorker =? NodeRoleManager) eqn:E;
      [apply Z.eqb_eq in E; contradiction|].
    rewrite !FormatRole_spelling. repeat split.
  - intros a Hm Hw. unfold ParseRole.
    destruct (a =? NodeRoleManager) eqn:E1; [apply Z.eqb_eq in E1; contradiction|].
    destruct (a =? NodeRoleWorker) eqn:E2; [apply Z.eqb_eq in E2; contradiction|].
    reflexivity.
  - intros a. unfold ParseRole.
    destruct (a =? NodeRoleManager); [discriminate|].
    destruct (a =? NodeRoleWorker); discriminate.
  - intros s H. rewrite FormatRole_spelling.
    now rewrite (capitalization_is_spelling _ _ H).
  - intros s H. apply capitalization_is_spelling in H.
    rewrite FormatRole_spelling. now rewrite (Hworker_not_manager s H), H.
  - intros s H. rewrite FormatRole_spelling. now rewrite H.
  - intros s H. rewrite FormatRole_spelling. now rewrite (Hworker_not_manager s H), H.
  - intros s Hm Hw. rewrite FormatRole_spelling. now rewrite Hm, Hw.
  - intros s Hs Hm Hw. rewrite FormatRole_spelling.
    now rewrite !(ascii_spelling_is_capitalization _ s Hs), Hm, Hw.
  - rewrite FormatRole_spelling. reflexivity.
Qed.

End RoleFacts.

Section RoleInstances.
Import GoStrings GoUnicode CA Roles.

(** Claim C9, as stated, fails: with the Kelvin sign for its [k],
    [swarm-worker] is no capitalization of either role name, and
    [FormatRole] accepts it as the worker role. *)
Lemma kelvin_sign_spelling_is_accepted :
  let s := ("swarm-wor" ++ kelvinSign ++ "er")%string in
  0 <> 1
  /\ staysOutsideASCII (fun r => r)
  /\ capitalizationOf ManagerRole s = false
  /\ capitalizationOf WorkerRole s = false
  /\ FormatRole 0 1 (fun r => r) s = (0, None).
Proof.
  cbv zeta. split; [discriminate|]. split; [intros r Hr _ _; exact Hr|].
  repeat split; vm_compute; reflexivity.
Qed.

Lemma role_codec_witness :
  (ParseRole 0 1 1 = (ManagerRole, None)
   /\ ParseRole 0 1 0 = (WorkerRole, None)
   /\ FormatRole 0 1 (fun r => r) ManagerRole = (1, None)
   /\ FormatRole 0 1 (fun r => r) WorkerRole = (0, None))
  /\ (forall a, a <> 1 -> a <> 0 ->
        ParseRole 0 1 a = ("", Some "failed to parse api role"))
  /\ (forall a, fst (ParseRole 0 1 a) <> CARole)
  /\ (forall s, capitalizationOf ManagerRole s = true ->
        FormatRole 0 1 (fun r => r) s = (1, None))
  /\ (forall s, capitalizationOf WorkerRole s = true ->
        FormatRole 0 1 (fun r => r) s = (0, None))
  /\ (forall s, spellingOf ManagerRole s = true ->
        FormatRole 0 1 (fun r => r) s = (1, None))
  /\ (forall s, spellingOf WorkerRole s = true ->
        FormatRole 0 1 (fun r => r) s = (0, None))
  /\ (forall s, spellingOf ManagerRole s = false -> spellingOf WorkerRole s = false ->
        FormatRole 0 1 (fun r => r) s = (0, Some "failed to parse role"))
  /\ (forall s, allBytes isASCII s = true ->
        capitalizationOf ManagerRole s = false -> capitalizationOf WorkerRole s = false ->
        FormatRole 0 1 (fun r => r) s = (0, Some "failed to parse role"))
  /\ FormatRole 0 1 (fun r => r) CARole = (0, Some "failed to parse role").
Proof.
  apply (role_codec 0 1 (fun r => r)).
  - discriminate.
  - intros r Hr _ _. exact Hr.
Defined.

(** Capitalizations the codec accepts, and the CA role it refuses. *)
Example FormatRole_capitalized :
  FormatRole 0 1 (fun r => r) "Swarm-MANAGER" = (1, None)
  /\ FormatRole 0 1 (fun r => r) "SWARM-WORKER" = (0, None)
  /\ FormatRole 0 1 (fun r => r) "swarm-ca" = (0, Some "failed to parse role").
Proof. repeat split; vm_compute; reflexivity. Qed.

End RoleInstances.

(** ** Part III: further properties of the code *)

(** *** Decoding a join token *)

Section TokenDecoding.
Import GoStrings Big TokenSpec TokenDigits Token.

Ltac all_ascii c := destruct c as [[] [] [] [] [] [] [] []].

Lemma scanDigit_not_dash (c : ascii) :
  isScanDigit 36 c = true -> negb (Ascii.eqb c "-") = true.
Proof. all_ascii c; vm_compute; intros H; solve [reflexivity | discriminate H]. Qed.

Lemma scanDigit_not_sign (c : ascii) :
  isScanDigit 36 c = true -> Ascii.eqb c "-" = false /\ Ascii.eqb c "+" = false.
Proof. all_ascii c; vm_compute; intros H; solve [split; reflexivity | discriminate H]. Qed.

Lemma scanDigits_scan_digits (base : Z) (s : string) (acc : Z) (count : nat) :
  allBytes (isScanDigit base) s = true ->
  scanDigits base s acc count
  = (valueFrom base s acc, (count + String.length s)%nat, EmptyString).
Proof.
  revert acc count; induction s as [|c s IH]; simpl; intros acc count H.
  - now rewrite Nat.add_0_r.
  - apply andb_true_iff in H as [Hc Hs].
    unfold isScanDigit in Hc. apply Z.ltb_lt in Hc.
    destruct (base <=? digitVal c) eqn:E; [apply Z.leb_le in E; lia|].
    rewrite (IH _ _ Hs). now rewrite Nat.add_succ_r.
Qed.

Lemma SetString_scan_digits (s : string) :
  allBytes (isScanDigit 36) s = true -> s <> EmptyString ->
  SetString s 36 = (valueFrom 36 s 0, true).
Proof.
  intros H Hne. destruct s as [|c s]; [congruence|].
  unfold SetString, scanSign.
  assert (Hc : isScanDigit 36 c = true)
    by (simpl in H; now apply andb_true_iff in H as [Hc _]).
  destruct (scanDigit_not_sign c Hc) as [Hd Hp].
  rewrite Hd, Hp, (scanDigits_scan_digits _ _ _ _ H). reflexivity.
Qed.

Lemma valueFrom_nonneg (base : Z) (s : string) (acc : Z) :
  0 <= base -> 0 <= acc -> 0 <= valueFrom base s acc.
Proof.
  intros Hb; revert acc; induction s as [|c s IH]; intros acc Hacc; [exact Hacc|].
  cbn [valueFrom]. apply IH. pose proof (digitVal_nonneg c). nia.
Qed.

(** [utoa] writes in front of [acc], at least one digit more than the
    powers of the base the number reaches. *)
Lemma utoa_keeps_acc (fuel : nat) (base n : Z) (acc : string) :
  (String.length acc <= String.length (utoa fuel base n acc))%nat.
Proof.
  revert n acc; induction fuel as [|f IH]; intros n acc; [simpl; lia|].
  cbn [utoa]. destruct (n / base =? 0); [simpl; lia|].
  specialize (IH (n / base) (String (digitChar (n mod base)) acc)).
  cbn [String.length] in IH. lia.
Qed.

Lemma utoa_length_lower (fuel : nat) (base n : Z) (acc : string) (k : nat) :
  2 <= base -> 0 <= n < 2 ^ Z.of_nat fuel -> base ^ Z.of_nat k <= n ->
  (S k + String.length acc <= String.length (utoa fuel base n acc))%nat.
Proof.
  intros Hb. revert n acc k; induction fuel as [|f IH]; intros n acc k Hn Hk.
  - simpl in Hn. assert (0 < base ^ Z.of_nat k) by (apply Z.pow_pos_nonneg; lia). lia.
  - cbn [utoa].
    assert (Hpos : 0 < base ^ Z.of_nat k) by (apply Z.pow_pos_nonneg; lia).
    destruct (n / base =? 0) eqn:E.
    + apply Z.eqb_eq in E.
      assert (n < base).
      { pose proof (Z.div_mod n base ltac:(lia)).
        pose proof (Z.mod_pos_bound n base ltac:(lia)). nia. }
      destruct k as [|k]; [simpl; lia|].
      rewrite Nat2Z.inj_succ, Z.pow_succ_r in Hk by lia.
      assert (0 < base ^ Z.of_nat k) by (apply Z.pow_pos_nonneg; lia). nia.
    + destruct k as [|k].
      * pose proof (utoa_keeps_acc f base (n / base) (String (digitChar (n mod base)) acc)) as H.
        cbn [String.length] in H. lia.
      * rewrite Nat2Z.inj_succ, Z.pow_succ_r in Hk by lia.
        assert (H1 : base ^ Z.of_nat k <= n / base)
          by (apply Z.div_le_lower_bound; lia).
        assert (H2 : 0 <= n / base < 2 ^ Z.of_nat f).
        { split; [apply Z.div_pos; lia|].
          apply Z.div_lt_upper_bound; [lia|].
          rewrite Nat2Z.inj_succ, Z.pow_succ_r in Hn by lia.
          assert (0 < 2 ^ Z.of_nat f) by (apply Z.pow_pos_nonneg; lia). nia. }
        specialize (IH (n / base) (String (digitChar (n mod base)) acc) k H2 H1).
        cbn [String.length] in IH. lia.
Qed.

Lemma Text_length_lower (base n : Z) (k : nat) :
  2 <= base -> base ^ Z.of_nat k <= n ->
  (k < String.length (Text n base))%nat.
Proof.
  intros Hb Hk.
  assert (Hpos : 0 < base ^ Z.of_nat k) by (apply Z.pow_pos_nonneg; lia).
  unfold Text.
  destruct (n =? 0) eqn:E; [apply Z.eqb_eq in E; lia|].
  destruct (n <? 0) eqn:L; [apply Z.ltb_lt in L; lia|].
  pose proof (utoa_length_lower (digitsFuel n) base n EmptyString k Hb) as H.
  pose proof (digitsFuel_enough n ltac:(lia)).
  specialize (H ltac:(lia) Hk). cbn [String.length] in H. lia.
Qed.

Lemma SprintfPad0_length_max (w : nat) (s : string) :
  String.length (SprintfPad0 (Z.of_nat w) s) = Nat.max w (String.length s).
Proof.
  unfold SprintfPad0. rewrite string_length_app, length_repeatByte. lia.
Qed.

(** [Validate] on a string that starts with [sha256:]. *)
Lemma Validate_sha256_hex (x : string) :
  allBytes Digest.isHex x = true -> x <> EmptyString ->
  Digest.Validate ("sha256:" ++ x)
  = if (String.length x =? 64)%nat then None else Some Digest.ErrDigestInvalidLength.
Proof.
  intros Hh Hne.
  assert (Hl : (String.length x =? 0)%nat = false)
    by (destruct x; [congruence | reflexivity]).
  unfold Digest.Validate, Digest.DigestRegexpAnchored.
  simpl. rewrite Nat.sub_0_r, substring_all, Hh, Hl. simpl.
  destruct x as [|c x]; [congruence|]. cbn [String.length].
  destruct (String.length x) as [|n]; [reflexivity|].
  change (64 =? S (S n))%nat with (63 =? S n)%nat.
  rewrite Nat.eqb_sym. reflexivity.
Qed.

Lemma Validate_sha256_None (x : string) :
  Digest.Validate ("sha256:" ++ x) = None ->
  allBytes Digest.isHex x = true /\ String.length x = 64%nat.
Proof.
  destruct (allBytes Digest.isHex x) eqn:Eh.
  - destruct (string_dec x EmptyString) as [->|Hne]; [vm_compute; discriminate|].
    rewrite (Validate_sha256_hex x Eh Hne).
    destruct (String.length x =? 64)%nat eqn:E; [|discriminate].
    intros _. apply Nat.eqb_eq in E. now split.
  - unfold Digest.Validate, Digest.DigestRegexpAnchored.
    simpl. rewrite Nat.sub_0_r, substring_all, Eh, andb_false_r. discriminate.
Qed.

Lemma negative_Text_not_hex (v : Z) (w : Z) :
  v < 0 -> allBytes Digest.isHex (SprintfPad0 w (Text v 16)) = false.
Proof.
  intros Hv. unfold Text.
  destruct (v =? 0) eqn:E; [apply Z.eqb_eq in E; lia|].
  destruct (v <? 0) eqn:L; [|apply Z.ltb_ge in L; lia].
  unfold SprintfPad0. rewrite allBytes_app. cbn [allBytes].
  change (Digest.isHex "-") with false. cbn [andb]. apply andb_false_r.
Qed.

(** Whatever the token, a decoding without error returns a SHA-256
    digest in canonical form: the token then has the four segments
    [SWMTKN], [1], digest and secret, and the number read from the digest
    segment is below [2 ^ 256]. *)
Theorem decoded_digest_is_canonical (token d : string) :
  getCAHashFromToken token = (d, None) ->
  canonicalDigest d
  /\ exists s2 s3,
       Split token "-" = ["SWMTKN"; "1"; s2; s3]
       /\ 0 <= fst (SetString s2 joinTokenBase) < 2 ^ 256
       /\ d = ("sha256:"
               ++ SprintfPad0 64 (Text (fst (SetString s2 joinTokenBase)) 16))%string.
Proof.
  unfold getCAHashFromToken.
  destruct (Split token "-") as [|s0 [|s1 [|s2 [|s3 [|x l]]]]]; try discriminate.
  destruct (negb (String.eqb s0 "SWMTKN") || negb (String.eqb s1 "1")) eqn:E;
    [discriminate|].
  apply orb_false_iff in E as [E0 E1].
  apply negb_false_iff, String.eqb_eq in E0, E1. subst s0 s1.
  set (v := fst (SetString s2 joinTokenBase)).
  unfold Digest.ParseDigest. intros H. injection H as Hd Hv.
  apply Validate_sha256_None in Hv as [Hh Hl].
  assert (H0 : 0 <= v).
  { destruct (Z.ltb_spec v 0) as [L|L]; [|exact L].
    rewrite (negative_Text_not_hex v 64 L) in Hh. discriminate. }
  assert (H1 : v < 16 ^ 64).
  { destruct (Z.ltb_spec v (16 ^ 64)) as [L|L]; [exact L|].
    pose proof (Text_length_lower 16 v 64 ltac:(lia) L) as Hlong.
    change 64 with (Z.of_nat 64) in Hl. rewrite SprintfPad0_length_max in Hl. lia. }
  destruct (pad_Text 16 ltac:(lia) ltac:(lia) v 64 ltac:(simpl Z.of_nat; lia) ltac:(lia))
    as (Hl' & Hd' & _).
  simpl Z.of_nat in Hl', Hd'.
  split.
  - exists (SprintfPad0 64 (Text v 16)). split; [now symmetry|].
    unfold isSHA256Hex. now rewrite Hl', Hd'.
  - exists s2, s3. split; [reflexivity|]. split; [|now symmetry].
    change (2 ^ 256) with (16 ^ 64). lia.
Qed.

Lemma decoded_digest_is_canonical_witness :
  getCAHashFromToken "SWMTKN-1-zz-secret"
  = ("sha256:000000000000000000000000000000000000000000000000000000000000050f", None)
  /\ canonicalDigest
       "sha256:000000000000000000000000000000000000000000000000000000000000050f".
Proof.
  assert (H : getCAHashFromToken "SWMTKN-1-zz-secret"
              = ("sha256:000000000000000000000000000000000000000000000000000000000000050f",
                 None))
    by (vm_compute; reflexivity).
  split; [exact H | exact (proj1 (decoded_digest_is_canonical _ _ H))].
Defined.

(** A token [SWMTKN-1-<digits>-<secret>] whose digest segment is made of
    base-36 digits of either case: the digest returned is the number the
    digits denote, in hexadecimal and padded to 64 digits, and the
    decoding fails, with the digest length error, exactly when that number
    does not fit 256 bits. *)
Theorem digest_segment_beyond_256_bits (s2 s3 : string) :
  allBytes (isScanDigit 36) s2 = true -> s2 <> EmptyString ->
  noDash s3 = true ->
  getCAHashFromToken ("SWMTKN-1-" ++ s2 ++ "-" ++ s3)
  = (("sha256:" ++ SprintfPad0 64 (Text (valueFrom 36 s2 0) 16))%string,
     if valueFrom 36 s2 0 <? 2 ^ 256 then None
     else Some Digest.ErrDigestInvalidLength).
Proof.
  intros Hd Hne Hs.
  assert (Hdash : noDash s2 = true)
    by (revert Hd; apply allBytes_impl, scanDigit_not_dash).
  unfold getCAHashFromToken.
  change ("SWMTKN-1-" ++ ?x)%string with ("SWMTKN" ++ String "-" ("1" ++ String "-" x))%string.
  rewrite Split_piece by reflexivity.
  rewrite Split_piece by reflexivity.
  change (?a ++ "-" ++ ?b)%string with (a ++ String "-" b)%string.
  rewrite Split_piece by exact Hdash.
  rewrite Split_last by exact Hs.
  cbn [String.eqb negb orb]. simpl (_ || _).
  unfold joinTokenBase. rewrite (SetString_scan_digits s2 Hd Hne). cbn [fst].
  set (v := valueFrom 36 s2 0).
  assert (H0 : 0 <= v) by (apply valueFrom_nonneg; lia).
  unfold Digest.ParseDigest. f_equal.
  assert (Hhex : allBytes Digest.isHex (SprintfPad0 64 (Text v 16)) = true).
  { apply (allBytes_impl (isDigitOf 16)); [apply digit_is_hex|].
    apply SprintfPad0_digits; [lia | lia |]. apply Text_digits; lia. }
  assert (Hnon : SprintfPad0 64 (Text v 16) <> EmptyString).
  { intros E. apply (f_equal String.length) in E.
    change 64 with (Z.of_nat 64) in E. rewrite SprintfPad0_length_max in E.
    cbn [String.length] in E. lia. }
  rewrite (Validate_sha256_hex _ Hhex Hnon).
  change 64 with (Z.of_nat 64) at 1. rewrite SprintfPad0_length_max.
  change (2 ^ 256) with (16 ^ 64).
  destruct (Z.ltb_spec v (16 ^ 64)) as [L|L].
  - pose proof (Text_length 16 ltac:(lia) v 64 ltac:(simpl Z.of_nat; lia) ltac:(lia)).
    replace (Nat.max 64 (String.length (Text v 16))) with 64%nat by lia.
    reflexivity.
  - pose proof (Text_length_lower 16 v 64 ltac:(lia) L).
    destruct (Nat.eqb_spec (Nat.max 64 (String.length (Text v 16))) 64); [lia | reflexivity].
Qed.

Lemma digest_segment_beyond_256_bits_witness :
  getCAHashFromToken
    "SWMTKN-1-ZZZZZZZZZZZZZZZZZZZZZZZZZZZZZZZZZZZZZZZZZZZZZZZZZZ-0a"
  = (("sha256:" ++ SprintfPad0 64
        (Text (valueFrom 36 "ZZZZZZZZZZZZZZZZZZZZZZZZZZZZZZZZZZZZZZZZZZZZZZZZZZ" 0) 16))%string,
     if valueFrom 36 "ZZZZZZZZZZZZZZZZZZZZZZZZZZZZZZZZZZZZZZZZZZZZZZZZZZ" 0 <? 2 ^ 256
     then None else Some Digest.ErrDigestInvalidLength).
Proof.
  apply (digest_segment_beyond_256_bits
           "ZZZZZZZZZZZZZZZZZZZZZZZZZZZZZZZZZZZZZZZZZZZZZZZZZZ" "0a").
  - vm_compute; reflexivity.
  - discriminate.
  - vm_compute; reflexivity.
Defined.

Lemma append_inv_head (s a b : string) : (s ++ a = s ++ b)%string -> a = b.
Proof.
  induction s as [|c s IH]; simpl; intros H; [exact H|].
  injection H as H. now apply IH.
Qed.

Lemma to_N_inj (x y : byte) : Byte.to_N x = Byte.to_N y -> x = y.
Proof.
  intros H. pose proof (Byte.of_to_N x) as Hx. rewrite H, Byte.of_to_N in Hx.
  now injection Hx.
Qed.

Lemma SetBytes_from_inj (l1 l2 : list byte) (a1 a2 : Z) :
  List.length l1 = List.length l2 ->
  fold_left (fun a b => a * 256 + Z.of_N (Byte.to_N b)) l1 a1
  = fold_left (fun a b => a * 256 + Z.of_N (Byte.to_N b)) l2 a2 ->
  a1 = a2 /\ l1 = l2.
Proof.
  revert l2 a1 a2; induction l1 as [|b1 l1 IH]; intros [|b2 l2] a1 a2 Hl;
    try discriminate Hl.
  - simpl. intros H. now split.
  - cbn [fold_left]. intros H. injection Hl as Hl.
    destruct (IH _ _ _ Hl H) as [Ha ->].
    pose proof (Byte.to_N_bounded b1). pose proof (Byte.to_N_bounded b2).
    assert (a1 = a2) by lia. subst a2. split; [reflexivity|].
    f_equal. apply to_N_inj. lia.
Qed.

(** The token determines the secret: for the same root CA, two secrets of
    sixteen bytes that give the same join token are the same secret. *)
Theorem join_token_determines_secret (b1 b2 : list byte) (rootCA : CA.RootCA)
    (token : string) :
  List.length b1 = Z.to_nat generatedSecretEntropyBytes ->
  List.length b2 = Z.to_nat generatedSecretEntropyBytes ->
  GenerateJoinToken b1 rootCA = Some token ->
  GenerateJoinToken b2 rootCA = Some token ->
  b1 = b2.
Proof.
  intros L1 L2. unfold GenerateJoinToken.
  destruct (Digest.Hex (CA.Digest rootCA)) as [hex|]; [|discriminate].
  intros H1 H2. rewrite <- H2 in H1. injection H1 as H.
  apply append_inv_head in H. injection H as H.
  pose proof (SetBytes_bound b1) as B1. rewrite L1 in B1.
  pose proof (SetBytes_bound b2) as B2. rewrite L2 in B2.
  assert (P : forall b, 0 <= SetBytes b < 256 ^ 16 ->
              SetString (SprintfPad0 25 (Text (SetBytes b) 36)) 36 = (SetBytes b, true)).
  { intros b Hb.
    apply (pad_Text 36 ltac:(lia) ltac:(lia) (SetBytes b) 25);
      [pose proof pow_256_16_lt_36_25; simpl Z.of_nat; lia | lia]. }
  pose proof (P b1 B1) as P1. pose proof (P b2 B2) as P2.
  unfold maxGeneratedSecretLength, joinTokenBase in H.
  rewrite H, P2 in P1. injection P1 as P1.
  unfold SetBytes in P1.
  apply (SetBytes_from_inj b1 b2 0 0); congruence.
Qed.

Lemma join_token_determines_secret_witness :
  Samples.secret = Samples.secret.
Proof.
  apply (join_token_determines_secret Samples.secret Samples.secret CASamples.root
           "SWMTKN-1-00kehup0t9bj9qmxvkobedab79cs9i2wwdx0a09kfdmh1v851r-000avh9he7dy896m08s18ue4f");
    vm_compute; reflexivity.
Defined.

End TokenDecoding.

(** *** The signing policy at its edges *)

Section PolicyEdges.
Import CA GoTime.

Variables MinNodeCertExpiration DefaultNodeCertExpiration CertBackdate : Duration.

Local Abbreviation policyOf :=
  (SigningPolicy MinNodeCertExpiration DefaultNodeCertExpiration CertBackdate).

(** Whatever expiry is asked for, the policy never issues for less than
    [MinNodeCertExpiration] once the backdate is taken off (the default is
    not below the minimum, and the sums fit an [int64]); and an expiry
    below the minimum gives the very policy of the default expiry. *)
Theorem SigningPolicy_expiry_floor (certExpiry : Duration) :
  MinNodeCertExpiration <= DefaultNodeCertExpiration ->
  minDuration <= DefaultNodeCertExpiration + CertBackdate <= maxDuration ->
  minDuration <= certExpiry + CertBackdate <= maxDuration ->
  MinNodeCertExpiration
  <= Expiry (Default (policyOf certExpiry)) - Backdate (Default (policyOf certExpiry))
  /\ (certExpiry < MinNodeCertExpiration ->
      policyOf certExpiry = policyOf DefaultNodeCertExpiration).
Proof.
  intros Hmin Hdef Hfit. unfold SigningPolicy. cbn [Default Expiry Backdate].
  destruct (certExpiry <? MinNodeCertExpiration) eqn:E;
    [apply Z.ltb_lt in E | apply Z.ltb_ge in E].
  - split; [rewrite (wrap64_small _ Hdef); lia|]. intros _.
    destruct (DefaultNodeCertExpiration <? MinNodeCertExpiration); reflexivity.
  - rewrite (wrap64_small _ Hfit). split; [lia | intros H; lia].
Qed.

(** An expiry so long that adding the backdate leaves the [int64] range
    wraps around: the policy then carries a negative expiry. *)
Theorem SigningPolicy_expiry_wraps (certExpiry : Duration) :
  MinNodeCertExpiration <= certExpiry <= maxDuration ->
  0 < CertBackdate <= maxDuration ->
  maxDuration < certExpiry + CertBackdate ->
  Expiry (Default (policyOf certExpiry)) = certExpiry + CertBackdate - 2 ^ 64
  /\ Expiry (Default (policyOf certExpiry)) < 0.
Proof.
  intros He Hb Hover. unfold SigningPolicy. cbn [Default Expiry].
  destruct (certExpiry <? MinNodeCertExpiration) eqn:E;
    [apply Z.ltb_lt in E; lia|].
  unfold maxDuration in *.
  assert (Hw : wrap64 (certExpiry + CertBackdate) = certExpiry + CertBackdate - 2 ^ 64).
  { unfold wrap64.
    assert (Hm : (certExpiry + CertBackdate + 2 ^ 63) mod 2 ^ 64
                 = certExpiry + CertBackdate + 2 ^ 63 - 2 ^ 64).
    { symmetry. apply (Z.mod_unique _ _ 1); [left; lia | lia]. }
    rewrite Hm. lia. }
  rewrite Hw. lia.
Qed.

End PolicyEdges.

Section PolicyEdgeInstances.
Import CA GoTime.

Lemma SigningPolicy_expiry_floor_witness :
  let policyOf :=
    SigningPolicy CASamples.MinNodeCertExpiration
      CASamples.DefaultNodeCertExpiration CASamples.CertBackdate in
  CASamples.MinNodeCertExpiration
  <= Expiry (Default (policyOf (30 * Minute))) - Backdate (Default (policyOf (30 * Minute)))
  /\ (30 * Minute < CASamples.MinNodeCertExpiration ->
      policyOf (30 * Minute) = policyOf CASamples.DefaultNodeCertExpiration).
Proof.
  apply (SigningPolicy_expiry_floor CASamples.MinNodeCertExpiration
           CASamples.DefaultNodeCertExpiration CASamples.CertBackdate (30 * Minute));
    vm_compute; try split; discriminate.
Defined.

Lemma SigningPolicy_expiry_wraps_witness :
  let policy :=
    SigningPolicy CASamples.MinNodeCertExpiration
      CASamples.DefaultNodeCertExpiration CASamples.CertBackdate maxDuration in
  Expiry (Default policy) = maxDuration + CASamples.CertBackdate - 2 ^ 64
  /\ Expiry (Default policy) < 0.
Proof.
  apply (SigningPolicy_expiry_wraps CASamples.MinNodeCertExpiration
           CASamples.DefaultNodeCertExpiration CASamples.CertBackdate maxDuration);
    vm_compute; try split; try discriminate; reflexivity.
Defined.

End PolicyEdgeInstances.

(** *** What loaded credentials stand for *)

Section LoaderSoundness.
Import CA.

Variable Join : string -> string -> string.
Variables Dir Base : string -> string.
Variable X509Certificate : Type.
Variable pemDecode : list byte -> option (list byte).
Variable ParseCertificate : list byte -> result X509Certificate.
Variable Verify : X509Certificate -> option CertPool -> option error.
Variable X509KeyPair : list byte -> list byte -> result tlsCertificate.
Variable NewMutableTLS : option tlsConfig -> result MutableTLSCreds.

Local Abbreviation loadFrom ReadFile :=
  (LoadTLSCreds Join Dir Base X509Certificate ReadFile pemDecode
     ParseCertificate Verify X509KeyPair NewMutableTLS).

(** The configurations the two constructors hand to [NewMutableTLS]. *)
Lemma NewServerTLSCredentials_Ok (rca : RootCA) (keyPair : tlsCertificate)
    (creds : MutableTLSCreds) :
  NewServerTLSCredentials NewMutableTLS rca keyPair = Ok creds ->
  exists pool,
    Pool rca = Some pool
    /\ NewMutableTLS
         (Some {| ServerName := ""; Certificates := [keyPair];
                  RootCAs := Some pool; ClientCAs := Some pool;
                  ClientAuth := VerifyClientCertIfGiven;
                  PreferServerCipherSuites := true;
                  MinVersion := VersionTLS12 |})
       = Ok creds.
Proof.
  unfold NewServerTLSCredentials, NewServerTLSConfig.
  destruct (Pool rca) as [pool|]; [|discriminate].
  intros H. now exists pool.
Qed.

Lemma NewClientTLSCredentials_Ok (rca : RootCA) (keyPair : tlsCertificate)
    (serverName : string) (creds : MutableTLSCreds) :
  NewClientTLSCredentials NewMutableTLS rca keyPair serverName = Ok creds ->
  exists pool,
    Pool rca = Some pool
    /\ NewMutableTLS
         (Some {| ServerName := serverName; Certificates := [keyPair];
                  RootCAs := Some pool; ClientCAs := None;
                  ClientAuth := NoClientCert;
                  PreferServerCipherSuites := false;
                  MinVersion := VersionTLS12 |})
       = Ok creds.
Proof.
  unfold NewClientTLSCredentials, NewClientTLSConfig.
  destruct (Pool rca) as [pool|]; [|discriminate].
  intros H. now exists pool.
Qed.

Lemma LoadTLSCreds_Ok_pair (ReadFile : string -> result (list byte))
    (rootCA : RootCA) (paths : CertPaths) (client server : MutableTLSCreds) :
  loadFrom ReadFile rootCA paths = Ok (client, server) ->
  exists keyPair,
    NewServerTLSCredentials NewMutableTLS rootCA keyPair = Ok server
    /\ NewClientTLSCredentials NewMutableTLS rootCA keyPair ManagerRole = Ok client.
Proof.
  unfold LoadTLSCreds.
  destruct (ReadFile (CertPath paths)) as [cert|]; [|discriminate].
  destruct (ReadFile (KeyPath paths)) as [key|]; [|discriminate].
  destruct (pemDecode cert) as [block|]; [|discriminate].
  destruct (ParseCertificate block) as [x509Cert|]; [|discriminate].
  destruct (Verify x509Cert (Pool rootCA)); [discriminate|].
  match goal with
  | |- match ?pair with _ => _ end = _ -> _ =>
      destruct pair as [keyPair|]; [|discriminate]
  end.
  destruct (NewServerTLSCredentials NewMutableTLS rootCA keyPair) as [s|] eqn:Hs;
    [|discriminate].
  destruct (NewClientTLSCredentials NewMutableTLS rootCA keyPair ManagerRole)
    as [c|] eqn:Hc; [|discriminate].
  intros H. injection H as -> ->. now exists keyPair.
Qed.

(** Credentials are loaded only from a certificate that was read, decoded,
    parsed and verified against the pool of the root CA, together with a
    key, at the primary path or at its hidden sibling, that pairs with
    it; the root CA has a pool, and both credentials were built from that
    one pair, the client ones for the server name [swarm-manager]. *)
Theorem loaded_credentials_are_verified (ReadFile : string -> result (list byte))
    (rootCA : RootCA) (paths : CertPaths) (client server : MutableTLSCreds) :
  loadFrom ReadFile rootCA paths = Ok (client, server) ->
  exists cert block x509Cert key keyPair pool,
    ReadFile (CertPath paths) = Ok cert
    /\ pemDecode cert = Some block
    /\ ParseCertificate block = Ok x509Cert
    /\ Verify x509Cert (Pool rootCA) = None
    /\ (ReadFile (KeyPath paths) = Ok key
        \/ ReadFile (KeyPath (genTempPaths Join Dir Base paths)) = Ok key)
    /\ X509KeyPair cert key = Ok keyPair
    /\ Pool rootCA = Some pool
    /\ NewServerTLSCredentials NewMutableTLS rootCA keyPair = Ok server
    /\ NewClientTLSCredentials NewMutableTLS rootCA keyPair ManagerRole = Ok client.
Proof.
  unfold LoadTLSCreds.
  destruct (ReadFile (CertPath paths)) as [cert|] eqn:Hc; [|discriminate].
  destruct (ReadFile (KeyPath paths)) as [key|] eqn:Hk; [|discriminate].
  destruct (pemDecode cert) as [block|] eqn:Hp; [|discriminate].
  destruct (ParseCertificate block) as [x509Cert|] eqn:Hx; [|discriminate].
  destruct (Verify x509Cert (Pool rootCA)) eqn:Hv; [discriminate|].
  assert (Hbuilt : forall keyPair,
    match NewServerTLSCredentials NewMutableTLS rootCA keyPair with
    | Ok serverTLSCreds =>
        match NewClientTLSCredentials NewMutableTLS rootCA keyPair ManagerRole with
        | Ok clientTLSCreds => Ok (clientTLSCreds, serverTLSCreds)
        | Fail err => Fail err
        end
    | Fail err => Fail err
    end = Ok (client, server) ->
    exists pool,
      Pool rootCA = Some pool
      /\ NewServerTLSCredentials NewMutableTLS rootCA keyPair = Ok server
      /\ NewClientTLSCredentials NewMutableTLS rootCA keyPair ManagerRole = Ok client).
  { intros keyPair.
    destruct (NewServerTLSCredentials NewMutableTLS rootCA keyPair) as [s|] eqn:Hs;
      [|discriminate].
    destruct (NewClientTLSCredentials NewMutableTLS rootCA keyPair ManagerRole)
      as [c|] eqn:Hcl; [|discriminate].
    intros H. injection H as -> ->.
    destruct (NewServerTLSCredentials_Ok _ _ _ Hs) as (pool & Hpool & _).
    now exists pool. }
  destruct (X509KeyPair cert key) as [keyPair|e] eqn:Hpair.
  - intros H. destruct (Hbuilt keyPair H) as (pool & Hpool & Hs & Hcl).
    exists cert, block, x509Cert, key, keyPair, pool. repeat split; auto.
  - destruct (ReadFile (KeyPath (genTempPaths Join Dir Base paths)))
      as [key'|] eqn:Hk'; [|discriminate].
    destruct (X509KeyPair cert key') as [keyPair|] eqn:Hpair'; [|discriminate].
    intros H. destruct (Hbuilt keyPair H) as (pool & Hpool & Hs & Hcl).
    exists cert, block, x509Cert, key', keyPair, pool. repeat split; auto.
Qed.

(** The primary key comes first: when the key at the primary path pairs
    with the certificate, nothing else on the disk matters.  Two disks
    that agree on the two primary files give the same result, whatever
    they hold at the hidden sibling. *)
Theorem primary_key_takes_precedence
    (ReadFile1 ReadFile2 : string -> result (list byte))
    (rootCA : RootCA) (paths : CertPaths) (cert key : list byte)
    (keyPair : tlsCertificate) :
  ReadFile1 (CertPath paths) = Ok cert ->
  ReadFile1 (KeyPath paths) = Ok key ->
  ReadFile2 (CertPath paths) = Ok cert ->
  ReadFile2 (KeyPath paths) = Ok key ->
  X509KeyPair cert key = Ok keyPair ->
  loadFrom ReadFile1 rootCA paths = loadFrom ReadFile2 rootCA paths.
Proof.
  intros Hc1 Hk1 Hc2 Hk2 Hpair. unfold LoadTLSCreds.
  rewrite Hc1, Hk1, Hc2, Hk2, Hpair. reflexivity.
Qed.

End LoaderSoundness.

Section LoaderSoundnessInstances.
Import CA.

Lemma loaded_credentials_are_verified_witness :
  exists client server,
    Scripted.LoadTLSCreds (Some Scripted.oldKey) (Some Scripted.newKey)
      CASamples.root (Node Scripted.paths) = Ok (client, server)
    /\ exists cert block x509Cert key keyPair pool,
         Scripted.disk (Some Scripted.oldKey) (Some Scripted.newKey)
           (CertPath (Node Scripted.paths)) = Ok cert
         /\ Scripted.pemDecode cert = Some block
         /\ Scripted.ParseCertificate block = Ok x509Cert
         /\ Scripted.Verify x509Cert (Pool CASamples.root) = None
         /\ (Scripted.disk (Some Scripted.oldKey) (Some Scripted.newKey)
               (KeyPath (Node Scripted.paths)) = Ok key
             \/ Scripted.disk (Some Scripted.oldKey) (Some Scripted.newKey)
                  (KeyPath (genTempPaths Scripted.Join Scripted.Dir Scripted.Base
                              (Node Scripted.paths))) = Ok key)
         /\ Scripted.X509KeyPair cert key = Ok keyPair
         /\ Pool CASamples.root = Some pool
         /\ NewServerTLSCredentials Scripted.NewMutableTLS CASamples.root keyPair
            = Ok server
         /\ NewClientTLSCredentials Scripted.NewMutableTLS CASamples.root keyPair
              ManagerRole
            = Ok client.
Proof.
  do 2 eexists. split; [vm_compute; reflexivity|].
  apply (loaded_credentials_are_verified
           Scripted.Join Scripted.Dir Scripted.Base (list byte)
           Scripted.pemDecode Scripted.ParseCertificate Scripted.Verify
           Scripted.X509KeyPair Scripted.NewMutableTLS
           (Scripted.disk (Some Scripted.oldKey) (Some Scripted.newKey))
           CASamples.root (Node Scripted.paths)).
  vm_compute; reflexivity.
Defined.

Lemma primary_key_takes_precedence_witness :
  Scripted.LoadTLSCreds (Some Scripted.newKey) None CASamples.root (Node Scripted.paths)
  = Scripted.LoadTLSCreds (Some Scripted.newKey) (Some Scripted.oldKey)
      CASamples.root (Node Scripted.paths).
Proof.
  apply (primary_key_takes_precedence
           Scripted.Join Scripted.Dir Scripted.Base (list byte)
           Scripted.pemDecode Scripted.ParseCertificate Scripted.Verify
           Scripted.X509KeyPair Scripted.NewMutableTLS
           (Scripted.disk (Some Scripted.newKey) None)
           (Scripted.disk (Some Scripted.newKey) (Some Scripted.oldKey))
           CASamples.root (Node Scripted.paths) Scripted.cert Scripted.newKey
           {| certificatePEM := Scripted.cert; privateKeyPEM := Scripted.newKey |});
    reflexivity.
Defined.

End LoaderSoundnessInstances.

(** *** The bootstrap, path by path *)

Section BootstrapPaths.
Import CA Bootstrap.

Variable Join : string -> string -> string.
Variables Dir Base : string -> string.
Variable X509Certificate : Type.
Variable ReadFile : string -> result (list byte).
Variable pemDecode : list byte -> option (list byte).
Variable ParseCertificate : list byte -> result X509Certificate.
Variable Verify : X509Certificate -> option CertPool -> option error.
Variable X509KeyPair : list byte -> list byte -> result tlsCertificate.
Variable NewMutableTLS : option tlsConfig -> result MutableTLSCreds.
Variable ErrNoLocalRootCA : error.
Variable GetLocalRootCA : string -> result RootCA.
Variable GetRemoteCA : nat -> string -> result RootCA.
Variable saveRootCA : RootCA -> CertPaths -> option error.
Variable NewID : nat -> string.
Variable IssueAndSaveNewCertificates :
  RootCA -> CertPaths -> string -> string -> string -> result tlsCertificate.
Variable RequestAndSaveNewCertificates :
  RootCA -> CertPaths -> string -> option MutableTLSCreds -> result tlsCertificate.

Local Abbreviation run :=
  (LoadOrCreateSecurityConfig Join Dir Base X509Certificate ReadFile pemDecode
     ParseCertificate Verify X509KeyPair NewMutableTLS ErrNoLocalRootCA
     GetLocalRootCA GetRemoteCA saveRootCA NewID IssueAndSaveNewCertificates
     RequestAndSaveNewCertificates).

Local Abbreviation load :=
  (LoadTLSCreds Join Dir Base X509Certificate ReadFile pemDecode
     ParseCertificate Verify X509KeyPair NewMutableTLS).

(** The request for the node certificate: the root CA signs it when it
    can, a remote CA is asked otherwise. *)
Local Abbreviation obtain paths token proposedRole nodeInfo rootCA :=
  (if CanSign rootCA then
     (if nodeInfo then emit (SendNodeInfo (NewID 0)) else ret tt) ;;;
     emit (CallIssueAndSave (NewID 0) proposedRole (NewID 1)) ;;;
     lift (IssueAndSaveNewCertificates rootCA (Node paths) (NewID 0) proposedRole
             (NewID 1))
   else
     emit (CallRequestAndSave token) ;;;
     lift (RequestAndSaveNewCertificates rootCA (Node paths) token None)).

Local Abbreviation afterRootCA paths token proposedRole nodeInfo :=
  (fun rootCA =>
     match load rootCA (Node paths) with
     | Fail _ =>
         tlsKeyPair <- obtain paths token proposedRole nodeInfo rootCA ;;
         serverTLSCreds <- lift (NewServerTLSCredentials NewMutableTLS rootCA tlsKeyPair) ;;
         clientTLSCreds <-
           lift (NewClientTLSCredentials NewMutableTLS rootCA tlsKeyPair ManagerRole) ;;
         ret (NewSecurityConfig rootCA clientTLSCreds serverTLSCreds)
     | Ok (clientTLSCreds, serverTLSCreds) =>
         (if nodeInfo then emit (SendNodeInfo (subjectNodeID clientTLSCreds)) else ret tt) ;;;
         ret (NewSecurityConfig rootCA clientTLSCreds serverTLSCreds)
     end).

Lemma run_with_local_root (baseCertDir token proposedRole : string) (nodeInfo : bool)
    (root : RootCA) :
  GetLocalRootCA baseCertDir = Ok root ->
  run baseCertDir token proposedRole nodeInfo
  = afterRootCA (NewConfigPaths Join baseCertDir) token proposedRole nodeInfo root.
Proof.
  intros H. unfold LoadOrCreateSecurityConfig. cbv zeta. rewrite H, bind_ret.
  reflexivity.
Qed.

(** The run stops before it calls anyone, with the error at hand, when
    the local root CA cannot be read for another reason than its absence,
    and when it is absent and the join token given does not decode. *)
Theorem bootstrap_stops_before_any_call
    (baseCertDir token proposedRole : string) (nodeInfo : bool) (e : error) :
  (GetLocalRootCA baseCertDir = Fail e /\ String.eqb e ErrNoLocalRootCA = false)
  \/ (GetLocalRootCA baseCertDir = Fail ErrNoLocalRootCA
      /\ token <> EmptyString
      /\ snd (Token.getCAHashFromToken token) = Some e) ->
  run baseCertDir token proposedRole nodeInfo = ([], Fail e).
Proof.
  unfold LoadOrCreateSecurityConfig. cbv zeta.
  intros [[Hl Hne] | (Hl & Htok & Hbad)]; rewrite Hl.
  - rewrite Hne. reflexivity.
  - rewrite String.eqb_refl.
    destruct (String.eqb_spec token EmptyString) as [E|_]; [contradiction|].
    destruct (Token.getCAHashFromToken token) as [d err]. simpl in Hbad. subst err.
    reflexivity.
Qed.

(** With a root CA on disk the run never asks a remote CA for the root
    certificate and never writes one; the configuration it returns, if
    any, is built around the root CA found on disk. *)
Theorem bootstrap_with_local_root_stays_local
    (baseCertDir token proposedRole : string) (nodeInfo : bool) (root : RootCA) :
  GetLocalRootCA baseCertDir = Ok root ->
  count isFetch (fst (run baseCertDir token proposedRole nodeInfo)) = 0%nat
  /\ count isSave (fst (run baseCertDir token proposedRole nodeInfo)) = 0%nat
  /\ (count isIssuance (fst (run baseCertDir token proposedRole nodeInfo)) <= 1)%nat
  /\ (forall config,
        snd (run baseCertDir token proposedRole nodeInfo) = Ok config ->
        rootCA config = root).
Proof.
  intros Hl. rewrite (run_with_local_root _ _ _ _ _ Hl).
  set (paths := NewConfigPaths Join baseCertDir).
  pose proof (after_root_CA Join Dir Base X509Certificate ReadFile pemDecode
                ParseCertificate Verify X509KeyPair NewMutableTLS NewID
                IssueAndSaveNewCertificates RequestAndSaveNewCertificates
                root paths token proposedRole nodeInfo) as (Kf & Ki & Ks).
  cbv beta zeta in Kf, Ki, Ks. cbv beta.
  repeat (split; [assumption|]).
  intros config.
  destruct (load root (Node paths)) as [[client server]|e].
  - destruct nodeInfo; cbv [bind emit ret snd]; intros H; injection H as <-; reflexivity.
  - rewrite !snd_bind.
    match goal with |- match snd ?m with _ => _ end = _ -> _ =>
      destruct (snd m) as [kp|]; [|intros H; cbv beta iota in H; discriminate H] end.
    rewrite !snd_bind. cbv [lift snd].
    destruct (NewServerTLSCredentials NewMutableTLS root kp);
      [|intros H; cbv beta iota in H; discriminate H].
    destruct (NewClientTLSCredentials NewMutableTLS root kp ManagerRole);
      [|intros H; cbv beta iota in H; discriminate H].
    cbv [ret]. intros H; injection H as <-. reflexivity.
Qed.

(** A node that finds its root CA and valid credentials on disk starts
    without a single call: no fetch, no issuance, nothing written.  It
    reports the node identifier of the certificate on disk when it has a
    channel for it, and returns the configuration built from what it
    loaded. *)
Theorem bootstrap_reuses_valid_credentials
    (baseCertDir token proposedRole : string) (nodeInfo : bool) (root : RootCA)
    (client server : MutableTLSCreds) :
  GetLocalRootCA baseCertDir = Ok root ->
  load root (Node (NewConfigPaths Join baseCertDir)) = Ok (client, server) ->
  run baseCertDir token proposedRole nodeInfo
  = ((if nodeInfo then [SendNodeInfo (subjectNodeID client)] else []),
     Ok (NewSecurityConfig root client server)).
Proof.
  intros Hl Hload. rewrite (run_with_local_root _ _ _ _ _ Hl). cbv beta.
  rewrite Hload. destruct nodeInfo; reflexivity.
Qed.

(** Without usable credentials on disk the certificate is obtained in
    exactly one of two ways.  A root CA that can sign issues it, for a
    fresh node identifier that is reported on the channel before the
    certificate is issued, and no remote CA is asked; a root CA that
    cannot sign sends the join token to a remote CA, and nothing is
    reported by the run itself. *)
Theorem bootstrap_issues_locally_iff_CanSign
    (baseCertDir token proposedRole : string) (nodeInfo : bool) (root : RootCA)
    (e : error) :
  GetLocalRootCA baseCertDir = Ok root ->
  load root (Node (NewConfigPaths Join baseCertDir)) = Fail e ->
  fst (run baseCertDir token proposedRole nodeInfo)
  = if CanSign root
    then ((if nodeInfo then [SendNodeInfo (NewID 0)] else [])
          ++ [CallIssueAndSave (NewID 0) proposedRole (NewID 1)])%list
    else [CallRequestAndSave token].
Proof.
  intros Hl Hload. rewrite (run_with_local_root _ _ _ _ _ Hl). cbv beta.
  rewrite Hload.
  set (paths := NewConfigPaths Join baseCertDir).
  destruct (CanSign root), nodeInfo;
    cbv [bind emit lift ret];
    repeat match goal with
           | |- context [IssueAndSaveNewCertificates ?a ?b ?c ?d ?f] =>
               destruct (IssueAndSaveNewCertificates a b c d f)
           | |- context [RequestAndSaveNewCertificates ?a ?b ?c ?d] =>
               destruct (RequestAndSaveNewCertificates a b c d)
           | |- context [NewServerTLSCredentials ?a ?b ?c] =>
               destruct (NewServerTLSCredentials a b c)
           | |- context [NewClientTLSCredentials ?a ?b ?c ?d] =>
               destruct (NewClientTLSCredentials a b c d)
           end;
    reflexivity.
Qed.

(** Every configuration the bootstrap returns, by whichever path, has a
    root CA with a pool, server and client credentials built from one
    and the same key pair over that pool (the client ones for the server
    name [swarm-manager]), and an external CA client that uses the client
    configuration without its server name. *)
Theorem bootstrap_result_is_well_formed
    (baseCertDir token proposedRole : string) (nodeInfo : bool)
    (config : SecurityConfig) :
  snd (run baseCertDir token proposedRole nodeInfo) = Ok config ->
  exists pool keyPair,
    Pool (rootCA config) = Some pool
    /\ NewServerTLSCredentials NewMutableTLS (rootCA config) keyPair
       = Ok (ServerTLSCreds config)
    /\ NewClientTLSCredentials NewMutableTLS (rootCA config) keyPair ManagerRole
       = Ok (ClientTLSCreds config)
    /\ externalTLS (externalCA config)
       = withoutServerName (installed (ClientTLSCreds config)).
Proof.
  unfold LoadOrCreateSecurityConfig. cbv zeta.
  set (paths := NewConfigPaths Join baseCertDir).
  rewrite snd_bind.
  match goal with |- match snd ?m with _ => _ end = _ -> _ =>
    destruct (snd m) as [root|]; [|intros H; cbv beta iota in H; discriminate H] end.
  destruct (load root (Node paths)) as [[client server]|e] eqn:Hload.
  - destruct (LoadTLSCreds_Ok_pair _ _ _ _ _ _ _ _ _ _ _ _ _ _ Hload)
      as (keyPair & Hs & Hc).
    destruct (NewServerTLSCredentials_Ok _ _ _ _ Hs) as (pool & Hpool & _).
    intros H.
    assert (Hcfg : config = NewSecurityConfig root client server)
      by (destruct nodeInfo; cbv [bind emit ret snd] in H; now injection H as <-).
    subst config. exists pool, keyPair. cbn. repeat split; assumption.
  - rewrite !snd_bind.
    match goal with |- match snd ?m with _ => _ end = _ -> _ =>
      destruct (snd m) as [kp|]; [|intros H; cbv beta iota in H; discriminate H] end.
    rewrite !snd_bind. cbv [lift snd].
    destruct (NewServerTLSCredentials NewMutableTLS root kp) as [server|] eqn:Hs;
      [|intros H; cbv beta iota in H; discriminate H].
    destruct (NewClientTLSCredentials NewMutableTLS root kp ManagerRole) as [client|] eqn:Hc;
      [|intros H; cbv beta iota in H; discriminate H].
    cbv [ret]. intros H; injection H as <-.
    destruct (NewServerTLSCredentials_Ok _ _ _ _ Hs) as (pool & Hpool & _).
    exists pool, kp. cbn. repeat split; assumption.
Qed.

End BootstrapPaths.

Section BootstrapPathInstances.
Import CA Bootstrap.

Lemma bootstrap_stops_before_any_call_witness :
  Restarted.LoadOrCreateSecurityConfig Restarted.GetLocalRootCAUnreadable None
    Scripted.baseCertDir "" WorkerRole true
  = ([], Fail Restarted.unreadable).
Proof.
  apply (bootstrap_stops_before_any_call
           Scripted.Join Scripted.Dir Scripted.Base (list byte)
           (Scripted.disk None None) Scripted.pemDecode Scripted.ParseCertificate
           Scripted.Verify Scripted.X509KeyPair Scripted.NewMutableTLS
           Scripted.ErrNoLocalRootCA Restarted.GetLocalRootCAUnreadable
           (Scripted.GetRemoteCA 0) Scripted.saveRootCA Scripted.NewID
           Scripted.Issue Scripted.Request
           Scripted.baseCertDir "" WorkerRole true Restarted.unreadable).
  left. split; reflexivity.
Defined.

Lemma bootstrap_with_local_root_stays_local_witness :
  let run :=
    Restarted.LoadOrCreateSecurityConfig Restarted.GetLocalRootCA None
      Scripted.baseCertDir "" WorkerRole true in
  count isFetch (fst run) = 0%nat
  /\ count isSave (fst run) = 0%nat
  /\ (count isIssuance (fst run) <= 1)%nat
  /\ (forall config, snd run = Ok config -> rootCA config = CASamples.root).
Proof.
  apply (bootstrap_with_local_root_stays_local
           Scripted.Join Scripted.Dir Scripted.Base (list byte)
           (Scripted.disk None None) Scripted.pemDecode Scripted.ParseCertificate
           Scripted.Verify Scripted.X509KeyPair Scripted.NewMutableTLS
           Scripted.ErrNoLocalRootCA Restarted.GetLocalRootCA
           (Scripted.GetRemoteCA 0) Scripted.saveRootCA Scripted.NewID
           Scripted.Issue Scripted.Request
           Scripted.baseCertDir "" WorkerRole true CASamples.root).
  reflexivity.
Defined.

Lemma bootstrap_reuses_valid_credentials_witness :
  exists client server,
    Scripted.LoadTLSCreds (Some Scripted.newKey) None CASamples.root
      (Node (NewConfigPaths Scripted.Join Scripted.baseCertDir))
    = Ok (client, server)
    /\ Restarted.LoadOrCreateSecurityConfig Restarted.GetLocalRootCA
         (Some Scripted.newKey) Scripted.baseCertDir "" WorkerRole true
       = ([SendNodeInfo (subjectNodeID client)],
          Ok (NewSecurityConfig CASamples.root client server)).
Proof.
  do 2 eexists. split; [vm_compute; reflexivity|].
  apply (bootstrap_reuses_valid_credentials
           Scripted.Join Scripted.Dir Scripted.Base (list byte)
           (Scripted.disk (Some Scripted.newKey) None) Scripted.pemDecode
           Scripted.ParseCertificate Scripted.Verify Scripted.X509KeyPair
           Scripted.NewMutableTLS Scripted.ErrNoLocalRootCA Restarted.GetLocalRootCA
           (Scripted.GetRemoteCA 0) Scripted.saveRootCA Scripted.NewID
           Scripted.Issue Scripted.Request
           Scripted.baseCertDir "" WorkerRole true CASamples.root).
  - reflexivity.
  - vm_compute; reflexivity.
Defined.

Lemma bootstrap_issues_locally_iff_CanSign_witness :
  fst (Restarted.LoadOrCreateSecurityConfig Restarted.GetLocalRootCA None
         Scripted.baseCertDir "SWMTKN-1-zz-secret" WorkerRole true)
  = if CanSign CASamples.root
    then ([SendNodeInfo (Scripted.NewID 0)]
          ++ [CallIssueAndSave (Scripted.NewID 0) WorkerRole (Scripted.NewID 1)])%list
    else [CallRequestAndSave "SWMTKN-1-zz-secret"].
Proof.
  apply (bootstrap_issues_locally_iff_CanSign
           Scripted.Join Scripted.Dir Scripted.Base (list byte)
           (Scripted.disk None None) Scripted.pemDecode Scripted.ParseCertificate
           Scripted.Verify Scripted.X509KeyPair Scripted.NewMutableTLS
           Scripted.ErrNoLocalRootCA Restarted.GetLocalRootCA
           (Scripted.GetRemoteCA 0) Scripted.saveRootCA Scripted.NewID
           Scripted.Issue Scripted.Request
           Scripted.baseCertDir "SWMTKN-1-zz-secret" WorkerRole true CASamples.root
           Scripted.noSuchFile).
  - reflexivity.
  - vm_compute; reflexivity.
Defined.

Lemma bootstrap_result_is_well_formed_witness :
  exists config,
    snd (Scripted.LoadOrCreateSecurityConfig 2 Scripted.baseCertDir "" WorkerRole true)
    = Ok config
    /\ exists pool keyPair,
         Pool (rootCA config) = Some pool
         /\ NewServerTLSCredentials Scripted.NewMutableTLS (rootCA config) keyPair
            = Ok (ServerTLSCreds config)
         /\ NewClientTLSCredentials Scripted.NewMutableTLS (rootCA config) keyPair
              ManagerRole
            = Ok (ClientTLSCreds config)
         /\ externalTLS (externalCA config)
            = withoutServerName (installed (ClientTLSCreds config)).
Proof.
  eexists. split; [vm_compute; reflexivity|].
  apply (bootstrap_result_is_well_formed
           Scripted.Join Scripted.Dir Scripted.Base (list byte)
           (Scripted.disk None None) Scripted.pemDecode Scripted.ParseCertificate
           Scripted.Verify Scripted.X509KeyPair Scripted.NewMutableTLS
           Scripted.ErrNoLocalRootCA Scripted.GetLocalRootCA (Scripted.GetRemoteCA 2)
           Scripted.saveRootCA Scripted.NewID Scripted.Issue Scripted.Request
           Scripted.baseCertDir "" WorkerRole true).
  vm_compute; reflexivity.
Defined.

End BootstrapPathInstances.

(** *** The renewal loop, round after round *)

Section RenewalLoop.
Import CA GoTime Renewal.

(** The interval the timer is set to is never negative, and a round that
    cannot read the validity of the certificate, or finds it expired,
    publishes one error and tries again after five minutes. *)
Theorem retry_is_never_negative (r : Round) :
  0 <= snd (schedule r)
  /\ (fst (schedule r) <> [] ->
      snd (schedule r) = 5 * Minute
      /\ exists err, fst (schedule r) = [Publish (errorUpdate err)]).
Proof.
  unfold schedule.
  destruct (certValidity r) as [[validFrom validUntil]|e].
  - destruct (Before validUntil (nowAtCheck r)).
    + cbn [fst snd]. split; [vm_compute; discriminate|].
      intros _. split; [reflexivity | eexists; reflexivity].
    + cbn [fst snd]. split; [|intros H; now destruct H].
      unfold calculateRandomExpiry. cbv zeta.
      match goal with |- 0 <= (if ?x <? 0 then 0 else ?x) =>
        destruct (Z.ltb_spec x 0); lia end.
  - cbn [fst snd]. split; [vm_compute; discriminate|].
    intros _. split; [reflexivity | eexists; reflexivity].
Qed.

Lemma renew_with_pool (s : SecurityConfig) (r : Round) (pool : CertPool) :
  Pool (rootCA s) = Some pool ->
  rootCA (snd (fst (renew s r))) = rootCA s /\ snd (renew s r) = NextIteration.
Proof.
  intros Hp. unfold renew, RootCA_, NewClientTLSConfig, NewServerTLSConfig.
  rewrite Hp.
  destruct (issued r) as [kp|e]; [|now split].
  destruct (clientSwap r) as [[id1 role1]|e1], (serverSwap r) as [[id2 role2]|e2];
    now split.
Qed.

Lemma iteration_with_pool (s : SecurityConfig) (r : Round) (pool : CertPool) :
  Pool (rootCA s) = Some pool ->
  rootCA (snd (fst (iteration s r))) = rootCA s
  /\ snd (iteration s r)
     = match wake r with ContextDone => Returned | _ => NextIteration end.
Proof.
  intros Hp. destruct (renew_with_pool s r pool Hp) as [Hroot Hst].
  unfold iteration. destruct (schedule r) as [pub retry].
  destruct (renew s r) as [[events s'] status]. cbn [fst snd] in Hroot, Hst.
  destruct (wake r); cbn [fst snd]; now split.
Qed.

(** Started on a root CA with a pool, the loop leaves the root CA alone,
    never panics, and returns on cancellation and on nothing else: it has
    returned after the given rounds exactly when the context was done in
    one of them, whatever failed in the others. *)
Theorem renewal_loop_ends_only_on_cancellation
    (s : SecurityConfig) (rounds : list Round) (pool : CertPool) :
  Pool (rootCA s) = Some pool ->
  rootCA (snd (fst (RenewTLSConfig s rounds))) = rootCA s
  /\ snd (RenewTLSConfig s rounds) <> Panicked
  /\ (snd (RenewTLSConfig s rounds) = Returned
      <-> exists r, In r rounds /\ wake r = ContextDone).
Proof.
  revert s; induction rounds as [|r rest IH]; intros s Hp.
  - cbn. split; [reflexivity|]. split; [discriminate|].
    split; [discriminate | intros (r & [] & _)].
  - destruct (iteration_with_pool s r pool Hp) as [Hroot Hst].
    cbn [RenewTLSConfig].
    destruct (iteration s r) as [[events s'] status]. cbn [fst snd] in Hroot, Hst.
    assert (Hp' : Pool (rootCA s') = Some pool) by now rewrite Hroot.
    specialize (IH s' Hp'). destruct IH as (IHroot & IHpanic & IHret).
    destruct (RenewTLSConfig s' rest) as [[events' s''] status'].
    cbn [fst snd] in IHroot, IHpanic, IHret.
    destruct (wake r) eqn:Hw; subst status; cbn [fst snd].
    + split; [congruence|]. split; [assumption|].
      rewrite IHret. split.
      * intros (r' & Hin & Hd). exists r'. split; [now right | assumption].
      * intros (r' & [<- | Hin] & Hd); [congruence|]. now exists r'.
    + split; [congruence|]. split; [assumption|].
      rewrite IHret. split.
      * intros (r' & Hin & Hd). exists r'. split; [now right | assumption].
      * intros (r' & [<- | Hin] & Hd); [congruence|]. now exists r'.
    + split; [assumption|]. split; [discriminate|].
      split; [|reflexivity]. intros _. exists r. split; [now left | assumption].
Qed.

Lemma iteration_does_not_close (s : SecurityConfig) (r : Round) :
  ~ In CloseUpdates (fst (fst (iteration s r))).
Proof.
  unfold iteration, schedule, renew, RootCA_, NewClientTLSConfig, NewServerTLSConfig,
    LoadNewTLSConfig.
  destruct (certValidity r) as [[validFrom validUntil]|e0];
    [destruct (Before validUntil (nowAtCheck r))|];
    destruct (wake r);
    try (cbn; intuition discriminate);
    destruct (issued r) as [kp|e1];
    try (cbn; intuition discriminate);
    destruct (Pool (rootCA s)) as [pool|];
    destruct (clientSwap r) as [[id1 role1]|e2];
    try (cbn; intuition discriminate);
    destruct (serverSwap r) as [[id2 role2]|e3];
    cbn; intuition discriminate.
Qed.

(** The channel of updates is closed when the goroutine ends, once, as the
    last thing it does, and not before: a loop that is still running has
    not closed it. *)
Theorem updates_closed_exactly_at_the_end (s : SecurityConfig) (rounds : list Round) :
  (snd (RenewTLSConfig s rounds) = NextIteration ->
   ~ In CloseUpdates (fst (fst (RenewTLSConfig s rounds))))
  /\ (snd (RenewTLSConfig s rounds) <> NextIteration ->
      exists before,
        fst (fst (RenewTLSConfig s rounds)) = (before ++ [CloseUpdates])%list
        /\ ~ In CloseUpdates before).
Proof.
  revert s; induction rounds as [|r rest IH]; intros s.
  - cbn. split; [intros _ [] | intros H; now destruct H].
  - pose proof (iteration_does_not_close s r) as Hno.
    cbn [RenewTLSConfig].
    destruct (iteration s r) as [[events s'] status]. cbn [fst snd] in Hno.
    destruct status.
    + specialize (IH s'). destruct IH as [IHrun IHend].
      destruct (RenewTLSConfig s' rest) as [[events' s''] status'].
      cbn [fst snd] in *. split.
      * intros H Hin. apply in_app_or in Hin as [Hin|Hin]; [now apply Hno|].
        now apply (IHrun H).
      * intros H. destruct (IHend H) as (before & -> & Hb).
        exists (events ++ before)%list. split; [now rewrite app_assoc|].
        intros Hin. apply in_app_or in Hin as [Hin|Hin]; [now apply Hno | now apply Hb].
    + cbn [fst snd]. split; [discriminate|]. intros _. now exists events.
    + cbn [fst snd]. split; [discriminate|]. intros _. now exists events.
Qed.

(** A round in which everything succeeds installs the new key pair
    everywhere, in the client credentials (for the server name
    [swarm-ca]), in the server credentials and in the external CA client,
    all over the pool of the root CA, and publishes one update: the role
    of the new certificate, without error. *)
Theorem renewal_installs_new_certificate
    (s : SecurityConfig) (r : Round) (pool : CertPool) (keyPair : tlsCertificate)
    (id1 role1 id2 role2 : string) :
  Pool (rootCA s) = Some pool ->
  issued r = Ok keyPair ->
  clientSwap r = Ok (id1, role1) ->
  serverSwap r = Ok (id2, role2) ->
  let s' := snd (fst (renew s r)) in
  installed (ClientTLSCreds s')
  = {| ServerName := CARole; Certificates := [keyPair]; RootCAs := Some pool;
       ClientCAs := None; ClientAuth := NoClientCert;
       PreferServerCipherSuites := false; MinVersion := VersionTLS12 |}
  /\ installed (ServerTLSCreds s')
     = {| ServerName := ""; Certificates := [keyPair]; RootCAs := Some pool;
          ClientCAs := Some pool; ClientAuth := VerifyClientCertIfGiven;
          PreferServerCipherSuites := true; MinVersion := VersionTLS12 |}
  /\ externalTLS (externalCA s')
     = {| ServerName := ""; Certificates := [keyPair]; RootCAs := Some pool;
          ClientCAs := None; ClientAuth := NoClientCert;
          PreferServerCipherSuites := false; MinVersion := VersionTLS12 |}
  /\ subjectRole (ClientTLSCreds s') = role1
  /\ published (fst (fst (renew s r))) = [{| Role := role1; Err := None |}].
Proof.
  intros Hp Hi Hc Hs. cbv zeta.
  unfold renew, RootCA_, NewClientTLSConfig, NewServerTLSConfig, LoadNewTLSConfig.
  rewrite Hp, Hi, Hc, Hs. cbn. repeat split; reflexivity.
Qed.

(** When the client credentials refuse the new configuration the round
    goes on all the same: the client credentials stay as they were, the
    external CA client and (if they accept) the server credentials get
    the new key pair, and after the error an update without error is
    published, carrying the role of the old certificate. *)
Theorem failed_client_swap_is_not_the_end
    (s : SecurityConfig) (r : Round) (pool : CertPool) (keyPair : tlsCertificate)
    (e : error) :
  Pool (rootCA s) = Some pool ->
  issued r = Ok keyPair ->
  clientSwap r = Fail e ->
  let s' := snd (fst (renew s r)) in
  ClientTLSCreds s' = ClientTLSCreds s
  /\ Certificates (externalTLS (externalCA s')) = [keyPair]
  /\ (forall id2 role2, serverSwap r = Ok (id2, role2) ->
      Certificates (installed (ServerTLSCreds s')) = [keyPair])
  /\ exists between,
       published (fst (fst (renew s r)))
       = ([errorUpdate e] ++ between
          ++ [{| Role := subjectRole (ClientTLSCreds s); Err := None |}])%list.
Proof.
  intros Hp Hi Hc. cbv zeta.
  unfold renew, RootCA_, NewClientTLSConfig, NewServerTLSConfig, LoadNewTLSConfig.
  rewrite Hp, Hi, Hc.
  destruct (serverSwap r) as [[id2 role2]|e2]; cbn.
  - repeat split; try reflexivity. now exists [].
  - repeat split; try reflexivity.
    + intros id2 role2 H; discriminate H.
    + now exists [errorUpdate e2].
Qed.

End RenewalLoop.

Section RenewalLoopInstances.
Import CA GoTime Renewal.

Lemma renewal_loop_ends_only_on_cancellation_witness :
  let rounds := [Scripted.requestFails; Scripted.clientSwapFails] in
  rootCA (snd (fst (RenewTLSConfig CASamples.config rounds))) = rootCA CASamples.config
  /\ snd (RenewTLSConfig CASamples.config rounds) <> Panicked
  /\ (snd (RenewTLSConfig CASamples.config rounds) = Returned
      <-> exists r, In r rounds /\ wake r = ContextDone).
Proof.
  apply (renewal_loop_ends_only_on_cancellation CASamples.config
           [Scripted.requestFails; Scripted.clientSwapFails] CASamples.pool).
  reflexivity.
Defined.

Lemma renewal_installs_new_certificate_witness :
  let s' := snd (fst (renew CASamples.config (Scripted.round (Ok ("node-1", ManagerRole))
                                                (Ok ("node-1", ManagerRole))))) in
  let keyPair := {| certificatePEM := Scripted.cert; privateKeyPEM := Scripted.newKey |} in
  installed (ClientTLSCreds s')
  = {| ServerName := CARole; Certificates := [keyPair]; RootCAs := Some CASamples.pool;
       ClientCAs := None; ClientAuth := NoClientCert;
       PreferServerCipherSuites := false; MinVersion := VersionTLS12 |}
  /\ installed (ServerTLSCreds s')
     = {| ServerName := ""; Certificates := [keyPair]; RootCAs := Some CASamples.pool;
          ClientCAs := Some CASamples.pool; ClientAuth := VerifyClientCertIfGiven;
          PreferServerCipherSuites := true; MinVersion := VersionTLS12 |}
  /\ externalTLS (externalCA s')
     = {| ServerName := ""; Certificates := [keyPair]; RootCAs := Some CASamples.pool;
          ClientCAs := None; ClientAuth := NoClientCert;
          PreferServerCipherSuites := false; MinVersion := VersionTLS12 |}
  /\ subjectRole (ClientTLSCreds s') = ManagerRole
  /\ published
       (fst (fst (renew CASamples.config (Scripted.round (Ok ("node-1", ManagerRole))
                                            (Ok ("node-1", ManagerRole))))))
     = [{| Role := ManagerRole; Err := None |}].
Proof.
  apply (renewal_installs_new_certificate CASamples.config
           (Scripted.round (Ok ("node-1", ManagerRole)) (Ok ("node-1", ManagerRole)))
           CASamples.pool
           {| certificatePEM := Scripted.cert; privateKeyPEM := Scripted.newKey |}
           "node-1" ManagerRole "node-1" ManagerRole);
    reflexivity.
Defined.

Lemma failed_client_swap_is_not_the_end_witness :
  let s' := snd (fst (renew CASamples.config Scripted.clientSwapFails)) in
  let keyPair := {| certificatePEM := Scripted.cert; privateKeyPEM := Scripted.newKey |} in
  ClientTLSCreds s' = ClientTLSCreds CASamples.config
  /\ Certificates (externalTLS (externalCA s')) = [keyPair]
  /\ (forall id2 role2, serverSwap Scripted.clientSwapFails = Ok (id2, role2) ->
      Certificates (installed (ServerTLSCreds s')) = [keyPair])
  /\ exists between,
       published (fst (fst (renew CASamples.config Scripted.clientSwapFails)))
       = ([errorUpdate Scripted.swapError] ++ between
          ++ [{| Role := subjectRole (ClientTLSCreds CASamples.config); Err := None |}])%list.
Proof.
  apply (failed_client_swap_is_not_the_end CASamples.config Scripted.clientSwapFails
           CASamples.pool
           {| certificatePEM := Scripted.cert; privateKeyPEM := Scripted.newKey |}
           Scripted.swapError);
    reflexivity.
Defined.

End RenewalLoopInstances.

(** *** The containerd adapter *)

Section AdapterLifecycle.
Import GoStrings Containerd.

Ltac ask_client :=
  repeat match goal with
         | |- context [GenerateSpec ?a ?b] => destruct (GenerateSpec a b) eqn:?
         | |- context [OpenDevNull ?a] => destruct (OpenDevNull a) eqn:?
         | |- context [NewContainer ?a ?b ?c ?d] => destruct (NewContainer a b c d) eqn:?
         | |- context [NewTask ?a ?b ?c ?d] => destruct (NewTask a b c d) eqn:?
         | |- context [TasksDelete ?a ?b] => destruct (TasksDelete a b) eqn:?
         | |- context [Pull ?a ?b] => destruct (Pull a b) eqn:?
         end.

(** Whatever a program does with an adapter, and whatever the client
    answers: the adapter holds a container exactly when it holds a task,
    it is prepared only with a pulled image, and it has the answer of a
    shutdown only when it is prepared. *)
Theorem reachable_adapter_invariant (c : containerAdapter) :
  Reachable c ->
  isSome (container c) = isSome (task c)
  /\ (isPrepared c = true -> isSome (image c) = true)
  /\ (isSome (deleteResponse c) = true -> isPrepared c = true).
Proof.
  induction 1 as [cl taskSpec taskName c Hnew
                 | cl c Hc (I1 & I2 & I3)
                 | cl devNull c Hc (I1 & I2 & I3)
                 | cl c Hc (I1 & I2 & I3)].
  - unfold newContainerAdapter in Hnew. destruct taskSpec; [|discriminate].
    injection Hnew as <-. cbn. repeat split; intros H; discriminate H.
  - unfold pullImage. ask_client; cbn [fst snd]; [|now repeat split].
    unfold isPrepared in *. cbn. repeat split; intros; try discriminate; auto.
  - unfold prepare.
    destruct (isPrepared c) eqn:Hprep; [cbn [fst snd]; repeat split; intros; try discriminate; auto|].
    destruct (image c) as [img|] eqn:Himg;
      [|cbn [fst snd]; rewrite ?Hprep; repeat split; intros; try discriminate; auto].
    cbv zeta.
    assert (Hno : isSome (deleteResponse c) = false)
      by (destruct (isSome (deleteResponse c)) eqn:E;
          [discriminate (I3 eq_refl) | reflexivity]).
    assert (Htask : isSome (container c) = false /\ isSome (task c) = false).
    { unfold isPrepared in Hprep. rewrite <- I1 in *.
      destruct (isSome (container c)); [discriminate | now split]. }
    destruct Htask as [Hcn Htk].
    destruct devNull as [f|]; ask_client; cbn [fst snd];
      unfold isPrepared; cbn [container task image deleteResponse isSome andb];
      rewrite ?Hcn, ?Htk, ?Hno, ?Himg; cbn [andb isSome];
      repeat split; intros H; try discriminate H; reflexivity.
  - unfold shutdown.
    destruct (isPrepared c) eqn:Hprep; cbn [negb];
      [|cbn [fst snd]; rewrite ?Hprep; repeat split; intros; try discriminate; auto].
    destruct (deleteResponse c) eqn:Hd; [cbn [fst snd]; repeat split; intros; try discriminate; auto|].
    ask_client; cbn [fst snd]; [|repeat split; intros; try discriminate; auto].
    unfold isPrepared in *. cbn. repeat split; intros; try discriminate; auto.
Qed.

(** What [prepare] leaves behind, on an adapter that holds neither a
    container nor a task (as every adapter does that is not prepared): it
    ends prepared exactly when it returns no error; after an error the
    adapter holds neither container nor task; a container whose task
    could not be created is deleted, and only such a container is; and
    with a pulled image the mounts of the specification are left in the
    order [sort.Sort] gave them, error or not. *)
Theorem prepare_outcome (cl : Client) (devNull : option FileHandle)
    (c : containerAdapter) :
  container c = None -> task c = None ->
  let calls := fst (fst (fst (prepare cl devNull c))) in
  let c' := snd (fst (prepare cl devNull c)) in
  let err := snd (prepare cl devNull c) in
  (err = None <-> isPrepared c' = true)
  /\ (err <> None -> container c' = None /\ task c' = None)
  /\ (forall created,
        In (CallNewTask created) calls ->
        (In (CallContainerDelete created) calls <-> err <> None))
  /\ (forall created, In (CallContainerDelete created) calls ->
                      In (CallNewTask created) calls)
  /\ (isSome (image c) = true ->
      Api.Mounts (spec c') = Sort cl (Api.Mounts (spec c)))
  /\ image c' = image c /\ name c' = name c
  /\ deleteResponse c' = deleteResponse c.
Proof.
  intros Hcn Htk. cbv zeta.
  assert (Hprep : isPrepared c = false) by (unfold isPrepared; now rewrite Hcn).
  unfold prepare. rewrite Hprep.
  destruct (image c) as [img|] eqn:Himg.
  - cbv zeta.
    destruct devNull as [f|]; ask_client; cbn [fst snd app];
      unfold isPrepared; cbn [container task image deleteResponse name spec
                                Api.Mounts isSome andb];
      rewrite ?Hcn, ?Htk; cbn [isSome andb];
      (split; [split; intros H; solve [reflexivity | discriminate H]|]);
      (split; [intros H; solve [now split | now destruct H]|]);
      (split; [intros created Hin; cbn [In] in *; split; intros H;
               solve [discriminate
                     | intuition discriminate
                     | intuition congruence]|]);
      (split; [intros created Hin; cbn [In] in *;
               solve [intuition discriminate | intuition congruence]|]);
      repeat split; reflexivity.
  - cbn [fst snd]. rewrite Hprep, Hcn, Htk.
    split; [split; intros H; discriminate H|].
    split; [now split|].
    split; [intros created []|].
    split; [intros created []|].
    split; [intros H; discriminate H|].
    repeat split; congruence.
Qed.

(** A prepared adapter stays prepared, with the same container and task,
    through every operation that changes an adapter: a second [prepare]
    is refused without a call, and neither [pullImage] nor [shutdown]
    lets go of the container or the task. *)
Theorem prepared_is_forever (cl : Client) (devNull : option FileHandle)
    (c : containerAdapter) :
  isPrepared c = true ->
  prepare cl devNull c = ([], devNull, c, Some "adapter already prepared"%string)
  /\ (forall c',
        c' = snd (fst (pullImage cl c)) \/ c' = snd (fst (shutdown cl c)) ->
        container c' = container c /\ task c' = task c /\ isPrepared c' = true).
Proof.
  intros Hprep. split; [unfold prepare; now rewrite Hprep|].
  intros c' [-> | ->].
  - unfold pullImage. ask_client; cbn [fst snd]; auto.
  - unfold shutdown. rewrite Hprep. cbn [negb].
    destruct (deleteResponse c); [cbn [fst snd]; auto|].
    ask_client; cbn [fst snd]; auto.
Qed.

(** Before [prepare] has succeeded nothing reaches containerd: the five
    operations on the task, and the subscription to its events, return
    [errAdapterNotPrepared] without a call and leave the adapter as it
    is. *)
Theorem unprepared_adapter_makes_no_call (cl : Client) (c : containerAdapter) :
  isPrepared c = false ->
  start cl c = ([], Some errAdapterNotPrepared)
  /\ events cl c = ([], Some errAdapterNotPrepared)
  /\ inspect cl c = ([], Fail errAdapterNotPrepared)
  /\ shutdown cl c = ([], c, (0, Some errAdapterNotPrepared))
  /\ terminate c = Some errAdapterNotPrepared
  /\ remove c = Some errAdapterNotPrepared.
Proof.
  intros H. unfold start, events, inspect, shutdown, terminate, remove.
  rewrite H. repeat split; reflexivity.
Qed.

Lemma shutdown_prepared (cl : Client) (c : containerAdapter) :
  isPrepared c = true ->
  shutdown cl c
  = match deleteResponse c with
    | Some rsp => ([], c, (ExitStatus rsp, None))
    | None =>
        match TasksDelete cl (name c) with
        | Fail err => ([CallTasksDelete (name c)], c, (0, Some err))
        | Ok rsp =>
            ([CallTasksDelete (name c); CallContainersDelete (name c)],
             {| spec := spec c; name := name c; image := image c;
                container := container c; task := task c;
                deleteResponse := Some rsp |},
             (ExitStatus rsp, None))
        end
    end.
Proof. intros H. unfold shutdown. now rewrite H. Qed.

(** The task is deleted once.  A [shutdown] that succeeds keeps the
    answer, whether or not the record of the container could be deleted
    too, and every later [shutdown], with whatever client, returns the
    same exit status without a call; a [shutdown] that fails keeps
    nothing, and the next one asks again. *)
Theorem shutdown_deletes_once (cl : Client) (c : containerAdapter) :
  isPrepared c = true ->
  let c' := snd (fst (shutdown cl c)) in
  (forall status,
      snd (shutdown cl c) = (status, None) ->
      forall cl', shutdown cl' c' = ([], c', (status, None)))
  /\ (forall status err,
        snd (shutdown cl c) = (status, Some err) ->
        status = 0 /\ c' = c /\ deleteResponse c = None
        /\ forall cl', fst (fst (shutdown cl' c')) <> [])
  /\ (deleteResponse c = None ->
      forall rsp, TasksDelete cl (name c) = Ok rsp ->
      shutdown cl c
      = ([CallTasksDelete (name c); CallContainersDelete (name c)], c',
         (ExitStatus rsp, None))).
Proof.
  intros Hprep. cbv zeta. rewrite (shutdown_prepared cl c Hprep).
  destruct (deleteResponse c) as [rsp|] eqn:Hd.
  - cbn [fst snd]. split; [|split].
    + intros status H. injection H as <-. intros cl'.
      now rewrite (shutdown_prepared cl' c Hprep), Hd.
    + intros status err H. discriminate H.
    + intros H. discriminate H.
  - destruct (TasksDelete cl (name c)) as [rsp|e] eqn:Hdel; cbn [fst snd].
    + split; [|split].
      * intros status H. injection H as <-. intros cl'.
        match goal with |- shutdown _ ?x = _ =>
          assert (Hp' : isPrepared x = true) by exact Hprep;
          rewrite (shutdown_prepared cl' x Hp') end.
        reflexivity.
      * intros status err H. discriminate H.
      * intros _ rsp' H. now injection H as <-.
    + split; [|split].
      * intros status H. discriminate H.
      * intros status err H. injection H as <- <-.
        do 3 (split; [reflexivity|]).
        intros cl'. rewrite (shutdown_prepared cl' c Hprep), Hd.
        destruct (TasksDelete cl' (name c)); cbn; discriminate.
      * intros _ rsp' H. discriminate H.
Qed.

End AdapterLifecycle.

Section AdapterLifecycleInstances.
Import GoStrings Containerd.

Lemma reachable_prepared : Reachable prepared.
Proof.
  unfold prepared, pulled.
  apply ReachablePrepare, ReachablePull.
  apply (ReachableNew obliging (Some sampleSpec) "redis.1.abc"). reflexivity.
Qed.

Lemma reachable_adapter_invariant_witness :
  isSome (container prepared) = isSome (task prepared)
  /\ (isPrepared prepared = true -> isSome (image prepared) = true)
  /\ (isSome (deleteResponse prepared) = true -> isPrepared prepared = true).
Proof. exact (reachable_adapter_invariant prepared reachable_prepared). Defined.

Lemma prepare_outcome_witness :
  let calls := fst (fst (fst (prepare withoutTasks None pulled))) in
  let c' := snd (fst (prepare withoutTasks None pulled)) in
  let err := snd (prepare withoutTasks None pulled) in
  (err = None <-> isPrepared c' = true)
  /\ (err <> None -> container c' = None /\ task c' = None)
  /\ (forall created,
        In (CallNewTask created) calls ->
        (In (CallContainerDelete created) calls <-> err <> None))
  /\ (forall created, In (CallContainerDelete created) calls ->
                      In (CallNewTask created) calls)
  /\ (isSome (image pulled) = true ->
      Api.Mounts (spec c') = Sort withoutTasks (Api.Mounts (spec pulled)))
  /\ image c' = image pulled /\ name c' = name pulled
  /\ deleteResponse c' = deleteResponse pulled.
Proof.
  apply (prepare_outcome withoutTasks None pulled); reflexivity.
Defined.

Lemma prepared_is_forever_witness :
  prepare obliging None prepared
  = ([], None, prepared, Some "adapter already prepared"%string)
  /\ (forall c',
        c' = snd (fst (pullImage obliging prepared))
        \/ c' = snd (fst (shutdown obliging prepared)) ->
        container c' = container prepared /\ task c' = task prepared
        /\ isPrepared c' = true).
Proof. apply (prepared_is_forever obliging None prepared). reflexivity. Defined.

Lemma unprepared_adapter_makes_no_call_witness :
  start obliging pulled = ([], Some errAdapterNotPrepared)
  /\ events obliging pulled = ([], Some errAdapterNotPrepared)
  /\ inspect obliging pulled = ([], Fail errAdapterNotPrepared)
  /\ shutdown obliging pulled = ([], pulled, (0, Some errAdapterNotPrepared))
  /\ terminate pulled = Some errAdapterNotPrepared
  /\ remove pulled = Some errAdapterNotPrepared.
Proof. apply (unprepared_adapter_makes_no_call obliging pulled). reflexivity. Defined.

Lemma shutdown_deletes_once_witness :
  let c' := snd (fst (shutdown obliging prepared)) in
  (forall status,
      snd (shutdown obliging prepared) = (status, None) ->
      forall cl', shutdown cl' c' = ([], c', (status, None)))
  /\ (forall status err,
        snd (shutdown obliging prepared) = (status, Some err) ->
        status = 0 /\ c' = prepared /\ deleteResponse prepared = None
        /\ forall cl', fst (fst (shutdown cl' c')) <> [])
  /\ (deleteResponse prepared = None ->
      forall rsp, TasksDelete obliging (name prepared) = Ok rsp ->
      shutdown obliging prepared
      = ([CallTasksDelete (name prepared); CallContainersDelete (name prepared)], c',
         (ExitStatus rsp, None))).
Proof. apply (shutdown_deletes_once obliging prepared). reflexivity. Defined.

End AdapterLifecycleInstances.

Section AdapterErrors.
Import GoStrings Containerd.

Lemma noQuote_app (a b : string) :
  noQuote (a ++ b) = noQuote a && noQuote b.
Proof. apply allBytes_app. Qed.

Lemma noQuote_with_quote (a b : string) : noQuote (a ++ String quote b) = false.
Proof.
  rewrite noQuote_app. unfold noQuote at 2. cbn [allBytes].
  rewrite Ascii.eqb_refl. cbn [negb andb]. apply andb_false_r.
Qed.

Lemma SplitN_one (s : string) (sep : ascii) : SplitN s sep 1 = [s].
Proof. destruct s; reflexivity. Qed.

(** The pieces [SplitN] cuts off: up to the first separator. *)
Lemma SplitN_first (s : string) (n : nat) :
  (noQuote s = true /\ SplitN s quote (S (S n)) = [s])
  \/ (exists a b,
        s = (a ++ String quote b)%string /\ noQuote a = true
        /\ SplitN s quote (S (S n)) = a :: SplitN b quote (S n)).
Proof.
  induction s as [|c s IH].
  - left. now split.
  - cbn [SplitN]. destruct (Ascii.eqb c quote) eqn:E.
    + right. apply Ascii.eqb_eq in E. subst c. exists EmptyString, s. now repeat split.
    + destruct IH as [[Hs Hr] | (a & b & Hs & Ha & Hr)].
      * left. unfold noQuote in *. cbn [allBytes]. rewrite E, Hs.
        split; [reflexivity|]. now rewrite Hr.
      * right. exists (String c a), b. subst s. unfold noQuote in *. cbn [allBytes].
        rewrite E, Ha. split; [reflexivity|]. split; [reflexivity|]. now rewrite Hr.
Qed.

Lemma first_quote_unique (a a' b b' : string) :
  noQuote a = true -> noQuote a' = true ->
  (a ++ String quote b = a' ++ String quote b')%string ->
  a = a' /\ b = b'.
Proof.
  unfold noQuote. revert a'; induction a as [|c a IH]; intros [|c' a'] Ha Ha' H;
    cbn [append allBytes] in *.
  - injection H as H. now split.
  - injection H as Hc H. subst c'. rewrite Ascii.eqb_refl in Ha'. discriminate.
  - injection H as Hc H. subst c. rewrite Ascii.eqb_refl in Ha. discriminate.
  - injection H as Hc H. subst c'.
    apply andb_true_iff in Ha as [_ Ha]. apply andb_true_iff in Ha' as [_ Ha'].
    destruct (IH a' Ha Ha' H) as [-> ->]. now split.
Qed.

(** [isContainerCreateNameConflict] answers yes exactly on the messages
    made of [container ], an identifier between double quotes and
    [ already exists], with no quote in the identifier; and it panics, on
    an index out of range, exactly on the message [container ] alone and
    on the messages made of [container ], a double quote and an identifier
    after which the quote is never closed.  On every other message it
    answers no. *)
Theorem name_conflict_is_recognised_or_panics (err : error) :
  (isContainerCreateNameConflict err = Some true
   <-> exists id,
         noQuote id = true
         /\ err = ("container " ++ String quote (id ++ String quote " already exists"))%string)
  /\ (isContainerCreateNameConflict err = None
      <-> err = "container "%string
          \/ exists id,
               noQuote id = true
               /\ err = ("container " ++ String quote id)%string).
Proof.
  assert (Hc : noQuote "container " = true) by reflexivity.
  unfold isContainerCreateNameConflict. cbv zeta.
  destruct (SplitN_first err 1) as [[Hs ->] | (a & b & -> & Ha & ->)].
  - cbn [nth_error].
    destruct (String.eqb_spec err "container ") as [E|E].
    + split; split.
      * discriminate.
      * intros (id & _ & H). rewrite H in Hs.
        rewrite (noQuote_with_quote "container ") in Hs. discriminate.
      * now left.
      * reflexivity.
    + split; split.
      * discriminate.
      * intros (id & _ & H). rewrite H in Hs.
        rewrite (noQuote_with_quote "container ") in Hs. discriminate.
      * discriminate.
      * intros [H | (id & _ & H)]; [contradiction|].
        rewrite H in Hs.
        rewrite (noQuote_with_quote "container ") in Hs. discriminate.
  - destruct (SplitN_first b 0) as [[Hb ->] | (a' & b' & -> & Ha' & ->)];
      rewrite ?SplitN_one; cbn [nth_error].
    + destruct (String.eqb_spec a "container ") as [E|E].
      * subst a. split; split.
        -- discriminate.
        -- intros (id & Hid & H).
           apply (first_quote_unique _ _ _ _ Hc Hc) in H as [_ H].
           rewrite H, noQuote_with_quote in Hb. discriminate.
        -- intros _. right. now exists b.
        -- reflexivity.
      * split; split.
        -- discriminate.
        -- intros (id & Hid & H).
           apply (first_quote_unique _ _ _ _ Ha Hc) in H as [H _]. contradiction.
        -- discriminate.
        -- intros [H | (id & Hid & H)].
           ++ apply (f_equal noQuote) in H. rewrite noQuote_with_quote in H.
              discriminate.
           ++ apply (first_quote_unique _ _ _ _ Ha Hc) in H as [H _]. contradiction.
    + destruct (String.eqb_spec a "container ") as [E|E].
      * subst a. split; split.
        -- intros H. injection H as H. apply String.eqb_eq in H. subst b'.
           now exists a'.
        -- intros (id & Hid & H).
           apply (first_quote_unique _ _ _ _ Hc Hc) in H as [_ H].
           apply (first_quote_unique _ _ _ _ Ha' Hid) in H as [_ ->].
           reflexivity.
        -- discriminate.
        -- intros [H | (id & Hid & H)].
           ++ apply (f_equal noQuote) in H. rewrite noQuote_with_quote in H.
              discriminate.
           ++ apply (first_quote_unique _ _ _ _ Hc Hc) in H as [_ H].
              rewrite <- H, noQuote_with_quote in Hid. discriminate.
      * split; split.
        -- discriminate.
        -- intros (id & Hid & H).
           apply (first_quote_unique _ _ _ _ Ha Hc) in H as [H _]. contradiction.
        -- discriminate.
        -- intros [H | (id & Hid & H)].
           ++ apply (f_equal noQuote) in H. rewrite noQuote_with_quote in H.
              discriminate.
           ++ apply (first_quote_unique _ _ _ _ Ha Hc) in H as [H _]. contradiction.
Qed.

Lemma prefix_app (p s : string) :
  String.prefix p s = true <-> exists b, s = (p ++ b)%string.
Proof.
  revert s; induction p as [|c p IH]; intros s.
  - split; [intros _; now exists s | intros _; destruct s; reflexivity].
  - destruct s as [|d s]; cbn [String.prefix append].
    + split; [discriminate | intros (b & H); discriminate H].
    + destruct (Ascii.ascii_dec c d) as [E|Hne].
      * subst d. rewrite IH.
        split; intros (b & H); exists b; [now rewrite H | now injection H].
      * split; [discriminate|]. intros (b & H). injection H as H _. congruence.
Qed.

Lemma string_app_assoc (a b c : string) :
  ((a ++ b) ++ c = a ++ (b ++ c))%string.
Proof. induction a as [|x a IH]; cbn [append]; [reflexivity | now rewrite IH]. Qed.

(** [isUnknownContainer] holds exactly of the messages that have
    [container does not exist] somewhere in them; so an error stays
    recognisable however often it is wrapped. *)
Theorem unknown_container_survives_wrapping (err : error) :
  (isUnknownContainer err = true
   <-> exists a b, err = (a ++ "container does not exist" ++ b)%string)
  /\ (isUnknownContainer err = true ->
      forall message, isUnknownContainer (Wrap err message) = true).
Proof.
  assert (Hspec : forall s,
            Contains s "container does not exist" = true
            <-> exists a b, s = (a ++ "container does not exist" ++ b)%string).
  { induction s as [|c s IH].
    - split; [intros H; vm_compute in H; discriminate H|].
      intros ([|] & b & H); discriminate H.
    - cbn [Contains].
      destruct (String.prefix "container does not exist" (String c s)) eqn:E.
      + split; [|reflexivity]. intros _. apply prefix_app in E as (b & E).
        exists EmptyString, b. exact E.
      + rewrite IH. split.
        * intros (a & b & ->). now exists (String c a), b.
        * intros ([|d a] & b & H).
          -- assert (String.prefix "container does not exist" (String c s) = true)
               by (apply prefix_app; now exists b).
             congruence.
          -- injection H as _ H. now exists a, b. }
  unfold isUnknownContainer. split; [apply Hspec|].
  intros H message. apply Hspec in H as (a & b & ->). apply Hspec.
  exists (message ++ ": " ++ a)%string, b. unfold Wrap.
  now rewrite !string_app_assoc.
Qed.

End AdapterErrors.

Section AdapterErrorInstances.
Import GoStrings Containerd.

(** The three answers at work: a conflict, another error, and the two
    shortest messages on which the function panics. *)
Example name_conflict_examples :
  isContainerCreateNameConflict
    ("container " ++ String quote ("redis.1.abc" ++ String quote " already exists"))
  = Some true
  /\ isContainerCreateNameConflict "no such image" = Some false
  /\ isContainerCreateNameConflict "container " = None
  /\ isContainerCreateNameConflict ("container " ++ String quote "redis.1.abc") = None.
Proof. repeat split; vm_compute; reflexivity. Qed.

End AdapterErrorInstances.

Section AdapterMounts.
Import GoStrings Containerd.

(** The option [withMounts] builds only ever adds mounts to the
    specification, at the end, and touches nothing else; what it added
    before an error stays.  When it returns no error it has added one
    mount for every bind and tmpfs mount, in the order [sort.Sort] left
    them and at their targets; every target was absolute, there was no
    volume mount, and every tmpfs size given was positive. *)
Theorem withMounts_adds_in_order_or_fails (cl : Client) (ms : list Api.Mount)
    (s : Specs.Spec) :
  exists added,
    Specs.Mounts (fst (withMounts cl ms s)) = (Specs.Mounts s ++ added)%list
    /\ Specs.ProcessArgs (fst (withMounts cl ms s)) = Specs.ProcessArgs s
    /\ Specs.ProcessTerminal (fst (withMounts cl ms s)) = Specs.ProcessTerminal s
    /\ (snd (withMounts cl ms s) = None ->
        map Specs.Destination added
        = map Api.Target
            (filter (fun m => match Api.Type_ m with
                              | Api.MountTypeBind | Api.MountTypeTmpfs => true
                              | _ => false
                              end) (Sort cl ms))
        /\ Forall (fun m => IsAbs (Api.Target m) = true) (Sort cl ms)
        /\ Forall (fun m => Api.Type_ m <> Api.MountTypeVolume) (Sort cl ms)
        /\ Forall (fun m => forall o, Api.Type_ m = Api.MountTypeTmpfs ->
                                      Api.TmpfsOptions m = Some o ->
                                      0 < Api.SizeBytes o) (Sort cl ms)).
Proof.
  unfold withMounts. generalize (Sort cl ms) as sorted. clear ms.
  intros ms. revert s; induction ms as [|m rest IH]; intros s.
  - exists []. cbn. rewrite app_nil_r. repeat split; constructor.
  - cbn [addMounts].
    assert (Hstop : forall e,
      exists added,
        Specs.Mounts (fst (s, @Some error e)) = (Specs.Mounts s ++ added)%list
        /\ Specs.ProcessArgs (fst (s, @Some error e)) = Specs.ProcessArgs s
        /\ Specs.ProcessTerminal (fst (s, @Some error e)) = Specs.ProcessTerminal s
        /\ (snd (s, @Some error e) = None ->
            map Specs.Destination added
            = map Api.Target
                (filter (fun m => match Api.Type_ m with
                                  | Api.MountTypeBind | Api.MountTypeTmpfs => true
                                  | _ => false
                                  end) (m :: rest))
            /\ Forall (fun m => IsAbs (Api.Target m) = true) (m :: rest)
            /\ Forall (fun m => Api.Type_ m <> Api.MountTypeVolume) (m :: rest)
            /\ Forall (fun m => forall o, Api.Type_ m = Api.MountTypeTmpfs ->
                                          Api.TmpfsOptions m = Some o ->
                                          0 < Api.SizeBytes o) (m :: rest))).
    { intros e. exists []. cbn [fst snd]. rewrite app_nil_r.
      do 3 (split; [reflexivity|]). intros H; discriminate H. }
    assert (Hgo : forall new,
      Specs.Destination new = Api.Target m ->
      IsAbs (Api.Target m) = true ->
      (Api.Type_ m = Api.MountTypeBind \/ Api.Type_ m = Api.MountTypeTmpfs) ->
      (forall o, Api.Type_ m = Api.MountTypeTmpfs -> Api.TmpfsOptions m = Some o ->
                 0 < Api.SizeBytes o) ->
      let s1 := {| Specs.Mounts := (Specs.Mounts s ++ [new])%list;
                   Specs.ProcessArgs := Specs.ProcessArgs s;
                   Specs.ProcessTerminal := Specs.ProcessTerminal s |} in
      exists added,
        Specs.Mounts (fst (addMounts cl rest s1)) = (Specs.Mounts s ++ added)%list
        /\ Specs.ProcessArgs (fst (addMounts cl rest s1)) = Specs.ProcessArgs s
        /\ Specs.ProcessTerminal (fst (addMounts cl rest s1)) = Specs.ProcessTerminal s
        /\ (snd (addMounts cl rest s1) = None ->
            map Specs.Destination added
            = map Api.Target
                (filter (fun m => match Api.Type_ m with
                                  | Api.MountTypeBind | Api.MountTypeTmpfs => true
                                  | _ => false
                                  end) (m :: rest))
            /\ Forall (fun m => IsAbs (Api.Target m) = true) (m :: rest)
            /\ Forall (fun m => Api.Type_ m <> Api.MountTypeVolume) (m :: rest)
            /\ Forall (fun m => forall o, Api.Type_ m = Api.MountTypeTmpfs ->
                                          Api.TmpfsOptions m = Some o ->
                                          0 < Api.SizeBytes o) (m :: rest))).
    { intros new Hdest Habs Hty Hsize s1.
      destruct (IH s1) as (added & H1 & H2 & H3 & H4).
      exists (new :: added). unfold s1 in H1 at 2. cbn [Specs.Mounts] in H1.
      rewrite <- app_assoc in H1. split; [exact H1|].
      split; [exact H2|]. split; [exact H3|].
      intros Hnone. destruct (H4 Hnone) as (D & A & V & Z).
      cbn [filter map].
      replace (match Api.Type_ m with
               | Api.MountTypeBind | Api.MountTypeTmpfs => true
               | _ => false
               end) with true by (destruct Hty as [-> | ->]; reflexivity).
      cbn [map]. rewrite Hdest, D.
      repeat split; try reflexivity; constructor; try assumption.
      destruct Hty as [-> | ->]; discriminate. }
    destruct (IsAbs (Api.Target m)) eqn:Habs; cbn [negb]; [|apply Hstop].
    destruct (Api.Type_ m) eqn:Hty.
    + apply Hgo; auto. intros o H; discriminate H.
    + apply Hstop.
    + destruct (Api.TmpfsOptions m) as [o|] eqn:Ho.
      * destruct (Z.leb_spec (Api.SizeBytes o) 0) as [Hle|Hgt]; [apply Hstop|].
        destruct (MergeTmpfsOptions cl _) as [opts|e]; [|apply Hstop].
        apply Hgo; auto. intros o' _ H. injection H as <-. exact Hgt.
      * destruct (MergeTmpfsOptions cl _) as [opts|e]; [|apply Hstop].
        apply Hgo; auto. intros o' _ H. discriminate H.
    + destruct (IH s) as (added & H1 & H2 & H3 & H4).
      exists added. split; [exact H1|]. split; [exact H2|]. split; [exact H3|].
      intros Hnone. destruct (H4 Hnone) as (D & A & V & Z).
      cbn [filter]. rewrite Hty.
      repeat split; try assumption; constructor; try assumption.
      * rewrite Hty. discriminate.
      * intros o H. rewrite Hty in H. discriminate H.
Qed.

(** A bind mount at an absolute target is added with exactly three
    options: [rbind], then [ro] or [rw], then the propagation.  The
    propagation is [rprivate] when the mount has no bind options or a
    propagation outside the six constants; and the table gives [slave]
    for [MountPropagationRSlave] and [rslave] for
    [MountPropagationSlave]. *)
Theorem bind_mount_options (cl : Client) (m : Api.Mount) (s : Specs.Spec) :
  Sort cl [m] = [m] ->
  Api.Type_ m = Api.MountTypeBind -> IsAbs (Api.Target m) = true ->
  exists propagation,
    withMounts cl [m] s
    = ({| Specs.Mounts :=
            (Specs.Mounts s
             ++ [{| Specs.Destination := Api.Target m; Specs.Type_ := "bind";
                    Specs.Source := Api.Source m;
                    Specs.Options :=
                      ["rbind"%string; if Api.ReadOnly m then "ro" else "rw";
                       propagation]%string |}])%list;
          Specs.ProcessArgs := Specs.ProcessArgs s;
          Specs.ProcessTerminal := Specs.ProcessTerminal s |},
       None)
    /\ (Api.BindOptions m = None -> propagation = "rprivate"%string)
    /\ (forall n, Api.BindOptions m = Some {| Api.Propagation := Api.MountPropagationOther n |} ->
                  propagation = "rprivate"%string)
    /\ (Api.BindOptions m = Some {| Api.Propagation := Api.MountPropagationRSlave |} ->
        propagation = "slave"%string)
    /\ (Api.BindOptions m = Some {| Api.Propagation := Api.MountPropagationSlave |} ->
        propagation = "rslave"%string).
Proof.
  intros Hsort Hty Habs. unfold withMounts. rewrite Hsort.
  cbn [addMounts]. rewrite Habs, Hty. cbn [negb].
  eexists. split; [reflexivity|].
  destruct (Api.BindOptions m) as [[p]|].
  - repeat split; intros; try discriminate.
    + match goal with H : Some _ = Some _ |- _ => injection H as -> end. reflexivity.
    + match goal with H : Some _ = Some _ |- _ => injection H as -> end. reflexivity.
    + match goal with H : Some _ = Some _ |- _ => injection H as -> end. reflexivity.
  - repeat split; intros; try discriminate; reflexivity.
Qed.

End AdapterMounts.

Section AdapterMountInstances.
Import GoStrings Containerd.

Lemma bind_mount_options_witness :
  let m := {| Api.Type_ := Api.MountTypeBind; Api.Source := "/srv/data";
              Api.Target := "/data"; Api.ReadOnly := false;
              Api.BindOptions := Some {| Api.Propagation := Api.MountPropagationRSlave |};
              Api.TmpfsOptions := None |} in
  exists propagation,
    withMounts obliging [m] emptySpec
    = ({| Specs.Mounts :=
            (Specs.Mounts emptySpec
             ++ [{| Specs.Destination := Api.Target m; Specs.Type_ := "bind";
                    Specs.Source := Api.Source m;
                    Specs.Options :=
                      ["rbind"%string; if Api.ReadOnly m then "ro" else "rw";
                       propagation]%string |}])%list;
          Specs.ProcessArgs := Specs.ProcessArgs emptySpec;
          Specs.ProcessTerminal := Specs.ProcessTerminal emptySpec |},
       None)
    /\ (Api.BindOptions m = None -> propagation = "rprivate"%string)
    /\ (forall n, Api.BindOptions m = Some {| Api.Propagation := Api.MountPropagationOther n |} ->
                  propagation = "rprivate"%string)
    /\ (Api.BindOptions m = Some {| Api.Propagation := Api.MountPropagationRSlave |} ->
        propagation = "slave"%string)
    /\ (Api.BindOptions m = Some {| Api.Propagation := Api.MountPropagationSlave |} ->
        propagation = "rslave"%string).
Proof.
  cbv zeta.
  apply (bind_mount_options obliging
           {| Api.Type_ := Api.MountTypeBind; Api.Source := "/srv/data";
              Api.Target := "/data"; Api.ReadOnly := false;
              Api.BindOptions := Some {| Api.Propagation := Api.MountPropagationRSlave |};
              Api.TmpfsOptions := None |} emptySpec); reflexivity.
Defined.

(** The mounts of the sample specification, as they are added: the bind
    mount with the propagation [slave], the tmpfs mount with its size in
    decimal and its mode in octal. *)
Example withMounts_sample :
  withMounts obliging (Api.Mounts sampleSpec) emptySpec
  = ({| Specs.Mounts :=
          [{| Specs.Destination := "/data"; Specs.Type_ := "bind";
              Specs.Source := "/srv/data";
              Specs.Options := ["rbind"; "rw"; "slave"]%string |};
           {| Specs.Destination := "/run"; Specs.Type_ := "tmpfs";
              Specs.Source := "tmpfs";
              Specs.Options :=
                ["noexec"; "nosuid"; "nodev"; "rprivate"; "size=65536"; "mode=755";
                 "ro"]%string |}];
        Specs.ProcessArgs := []; Specs.ProcessTerminal := false |},
     None).
Proof. vm_compute. reflexivity. Qed.

End AdapterMountInstances.

Section AdapterEvents.
Import GoStrings Containerd.

(** The goroutine of [events] sends on only events of its own container,
    in the order it received them and none twice.  As long as it has not
    returned it has sent every one of them; and it returns, closing
    [closed], exactly when [Recv] fails or when the context is done at
    the moment an event of its own container is to be sent: a done
    context alone, with only events of other containers arriving, does
    not end it. *)
Theorem events_goroutine_forwards_own_events (c : containerAdapter)
    (stream : list Received) :
  let own :=
    flat_map (fun r => match r with
                       | RecvEvent evt _ =>
                           if String.eqb (ID evt) (name c) then [evt] else []
                       | RecvError _ => []
                       end) in
  Forall (fun evt => ID evt = name c) (fst (forward c stream))
  /\ (exists received rest,
        stream = (received ++ rest)%list /\ fst (forward c stream) = own received)
  /\ (snd (forward c stream) = false -> fst (forward c stream) = own stream)
  /\ (snd (forward c stream) = true
      <-> exists r, In r stream
                    /\ match r with
                       | RecvError _ => True
                       | RecvEvent evt contextDone =>
                           ID evt = name c /\ contextDone = true
                       end).
Proof.
  cbv zeta. induction stream as [|r rest (IH1 & (received & rest' & IHs & IHo) & IH3 & IH4)].
  - cbn. split; [constructor|]. split; [now exists [], []|].
    split; [reflexivity|]. split; [discriminate | intros (r & [] & _)].
  - destruct r as [e|evt contextDone]; cbn [forward].
    + cbn [fst snd]. split; [constructor|].
      split; [now exists [], (RecvError e :: rest)|].
      split; [discriminate|].
      split; [|reflexivity]. intros _. exists (RecvError e). split; [now left | exact I].
    + destruct (String.eqb_spec (ID evt) (name c)) as [E|E]; cbn [negb].
      * destruct contextDone.
        -- cbn [fst snd]. split; [constructor|].
           split; [now exists [], (RecvEvent evt true :: rest)|].
           split; [discriminate|].
           split; [|reflexivity]. intros _. exists (RecvEvent evt true).
           split; [now left | now split].
        -- destruct (forward c rest) as [sent returned]. cbn [fst snd] in *.
           split; [now constructor|].
           split.
           { exists (RecvEvent evt false :: received), rest'.
             split; [cbn [app]; now f_equal|]. cbn [flat_map].
             destruct (String.eqb_spec (ID evt) (name c)); [|contradiction].
             now rewrite IHo. }
           split.
           { intros H. cbn [flat_map].
             destruct (String.eqb_spec (ID evt) (name c)); [|contradiction].
             now rewrite (IH3 H). }
           rewrite IH4. split.
           { intros (r & Hin & Hr). exists r. split; [now right | exact Hr]. }
           { intros (r & [<- | Hin] & Hr); [destruct Hr as [_ Hr]; discriminate Hr|].
             now exists r. }
      * split; [exact IH1|].
        split.
        { exists (RecvEvent evt contextDone :: received), rest'.
          split; [cbn [app]; now f_equal|]. cbn [flat_map].
          destruct (String.eqb_spec (ID evt) (name c)); [contradiction|].
          exact IHo. }
        split.
        { intros H. cbn [flat_map].
          destruct (String.eqb_spec (ID evt) (name c)); [contradiction|].
          now apply IH3. }
        rewrite IH4. split.
        { intros (r & Hin & Hr). exists r. split; [now right | exact Hr]. }
        { intros (r & [<- | Hin] & Hr); [destruct Hr as [Hr _]; contradiction|].
          now exists r. }
Qed.

End AdapterEvents.
